(** * HiLite: highlight anchoring and re-anchoring

    A shallow embedding of the two content-script variants of the HiLite
    browser extension ([content.js], the simple variant, and the advanced
    variant that also stores structural anchors and a backup key), with
    what the popup and the background script do to the storage, and the
    properties of the highlight engine that the specification states,
    followed by further properties of the code.

    JavaScript strings are sequences of code units; they are modelled by
    [string], one [ascii] per code unit.  The live document is a tree of
    text and element nodes; of an element the tree keeps what the scripts
    read or write: tag, id, class and background colour.  A node reference
    is the path of child indices that leads to the node from
    [document.body]; where a script holds on to a node while the document
    changes around it, the path is moved with the node.  An asynchronous
    function is run to its end where it is called, and so is a callback
    that is left to a timer or to an event that is still to come; a
    promise that rejects and an exception that is thrown are the [None] of
    an option. *)

From stdpp Require Import base option list strings gmap pretty.

(** ** Strings, as the scripts use them *)

Module JsString.

(** The first [n] code units, and what follows them. *)
Fixpoint take (n : nat) (s : string) : string :=
  match n, s with
  | S n', String c s' => String c (take n' s')
  | _, _ => ""
  end.

Fixpoint drop (n : nat) (s : string) : string :=
  match n, s with
  | S n', String _ s' => drop n' s'
  | _, _ => s
  end.

(** [text.substring(a, b)]: both indices are clamped to the length and
    swapped when out of order. *)
Definition substring (s : string) (a b : nat) : string :=
  let a' := a `min` String.length s in
  let b' := b `min` String.length s in
  take ((a' `max` b') - (a' `min` b')) (drop (a' `min` b') s).

(** [text.substring(a)] *)
Definition substringFrom (s : string) (a : nat) : string := drop a s.

(** [text.indexOf(pat)] with [None] for -1. *)
Fixpoint indexOf (text pat : string) : option nat :=
  if String.prefix pat text then Some 0
  else match text with
       | "" => None
       | String _ t => S <$> indexOf t pat
       end.

(** [text.includes(pat)] *)
Definition includes (text pat : string) : bool := bool_decide (is_Some (indexOf text pat)).

(** White space and line terminators that [trim] strips, among the code
    units below 256: TAB, LF, VT, FF, CR, SPACE and NBSP. *)
Definition is_ws (c : Ascii.ascii) : bool :=
  let n := Ascii.nat_of_ascii c in
  bool_decide (9 ≤ n ≤ 13)%nat || bool_decide (n = 32%nat) || bool_decide (n = 160%nat).

Fixpoint trimStart (s : string) : string :=
  match s with
  | String c s' => if is_ws c then trimStart s' else s
  | "" => ""
  end.

Fixpoint trimEnd (s : string) : string :=
  match s with
  | String c s' =>
      let t := trimEnd s' in
      if is_ws c && bool_decide (t = "") then "" else String c t
  | "" => ""
  end.

Definition trim (s : string) : string := trimEnd (trimStart s).

(** A string in a condition: empty is falsy. *)
Definition truthy (s : string) : bool := negb (bool_decide (s = "")).

(** [text.replace(new RegExp(escapeRegex(pat), 'g'), f)]: the escaped
    pattern matches [pat] literally; every match, left to right and not
    overlapping, is replaced by [f] of the match.  An empty pattern matches
    before every code unit and at the end.  [skip] counts the code units
    of the current match that are still to be passed over. *)
Fixpoint replaceAll_go (pat : string) (f : string → string)
    (skip : nat) (text : string) : string :=
  match skip with
  | S k =>
      match text with
      | String _ t => replaceAll_go pat f k t
      | "" => ""
      end
  | 0 =>
      if String.prefix pat text then
        f pat +:+
        match text with
        | String c t =>
            if bool_decide (pat = "") then String c (replaceAll_go pat f 0 t)
            else replaceAll_go pat f (String.length pat - 1) t
        | "" => ""
        end
      else
        match text with
        | String c t => String c (replaceAll_go pat f 0 t)
        | "" => ""
        end
  end.

Definition replaceAll (text pat : string) (f : string → string) : string :=
  replaceAll_go pat f 0 text.

(** Concatenation of a list of strings. *)
Definition concat (l : list string) : string := foldr String.append "" l.

End JsString.

(** ** The document tree *)

Record attrs := Attrs {
  tagName : string;
  id : string;
  className : string;
  backgroundColor : string;
}.

#[local] Unset Elimination Schemes.
Inductive node : Type :=
| Text (data : string)
| Elem (a : attrs) (childNodes : list node).
#[local] Set Elimination Schemes.

(** A reference to a node: the child indices from the root down to it. *)
Definition path := list nat.

(** The class every applied highlight carries. *)
Definition highlightClass : string := "web-highlighter-highlight".

Fixpoint textContent (n : node) : string :=
  match n with
  | Text s => s
  | Elem _ cs => JsString.concat (map textContent cs)
  end.

Definition textContents (l : list node) : string := JsString.concat (map textContent l).

Fixpoint nodeAt (p : path) (n : node) : option node :=
  match p with
  | [] => Some n
  | i :: p' =>
      match n with
      | Elem _ cs => cs !! i ≫= nodeAt p'
      | Text _ => None
      end
  end.

(** The paths of the text nodes of a tree, in document order: those of
    each child in turn, under the index of the child. *)
Fixpoint textPaths (n : node) : list path :=
  match n with
  | Text _ => [[]]
  | Elem _ cs => mjoin (imap (λ i ps, map (cons i) ps) (map textPaths cs))
  end.

(** [getTextNodes(element)]: a TreeWalker showing text nodes, stepped with
    [nextNode()] until it is exhausted.  The walker never yields its root,
    so a root that is itself a text node gives no node. *)
Definition getTextNodes (root : node) : list path :=
  match root with
  | Text _ => []
  | Elem _ _ => textPaths root
  end.

(** [parent.replaceChild(new, old)] where [old] is the node at [p]; [new] is
    a list of nodes since a document fragment inserts its children.  The
    root has no parent and is left alone. *)
Fixpoint replaceChild (p : path) (new : list node) (n : node) : node :=
  match p with
  | [] => n
  | i :: p' =>
      match n with
      | Text _ => n
      | Elem a cs =>
          match p' with
          | [] => if bool_decide (i < length cs)
                  then Elem a (take i cs ++ new ++ drop (S i) cs)
                  else n
          | _ => Elem a (alter (replaceChild p' new) i cs)
          end
      end
  end.

(** All elements of a tree in document order, each with its path, its
    attributes and its children. *)
Fixpoint elements (n : node) : list (path * (attrs * list node)) :=
  match n with
  | Text _ => []
  | Elem a cs =>
      ([], (a, cs))
      :: mjoin (imap (λ i es, map (prod_map (cons i) (λ e, e)) es) (map elements cs))
  end.

(** The elements that carry the id [i]. *)
Definition withId (i : string) (n : node) : list (path * (attrs * list node)) :=
  filter (λ e, id e.2.1 = i) (elements n).

(** [document.getElementById(i)]: the first element with that id in
    document order; the empty id names no element. *)
Definition getElementById (i : string) (n : node) : option path :=
  if bool_decide (i = EmptyString) then None else fst <$> head (withId i n).

(** The class tokens of an element: its class attribute split at HTML
    white space (TAB, LF, FF, CR, SPACE). *)
Definition isHtmlSpace (c : Ascii.ascii) : bool :=
  bool_decide (Ascii.nat_of_ascii c ∈ [9; 10; 12; 13; 32]).

Fixpoint splitSpaces (s : string) : list string :=
  match s with
  | EmptyString => [EmptyString]
  | String c s' =>
      if isHtmlSpace c then EmptyString :: splitSpaces s'
      else match splitSpaces s' with
           | t :: r => String c t :: r
           | [] => [String c EmptyString]
           end
  end.

Definition classList (a : attrs) : list string :=
  filter (λ t, t ≠ EmptyString) (splitSpaces (className a)).

(** The element matches the selector [.highlightClass]. *)
Definition isHighlight (a : attrs) : bool := bool_decide (highlightClass ∈ classList a).

(** The live highlight spans: [querySelectorAll('.' + highlightClass)]. *)
Definition liveHighlights (n : node) : list (path * (attrs * list node)) :=
  filter (λ e, isHighlight e.2.1 = true) (elements n).

(** Every highlight element is replaced by a text node that carries its
    text content, as the [forEach] over the result of [querySelectorAll]
    leaves the document: a highlight nested in another one goes with the
    outer one.  The root is [document.body], which is not a highlight. *)
Fixpoint unwrapHighlights (n : node) : node :=
  match n with
  | Text _ => n
  | Elem a cs =>
      Elem a (map (λ c, match c with
                        | Elem a' _ => if isHighlight a' then Text (textContent c)
                                       else unwrapHighlights c
                        | Text _ => c
                        end) cs)
  end.

(** [node.remove()] for the node at [p]. *)
Definition removeNode (p : path) (b : node) : node := replaceChild p [] b.

(** [el.remove()] for every element that matches: each goes with all that
    is below it.  The body is taken not to match. *)
Fixpoint removeElements (P : attrs → bool) (n : node) : node :=
  match n with
  | Text _ => n
  | Elem a cs =>
      Elem a (omap (λ c, match c with
                         | Elem a' _ => if P a' then None else Some (removeElements P c)
                         | Text _ => Some c
                         end) cs)
  end.

(** ** Persisted records *)

Record HighlightRecord := Highlight {
  h_id : string;
  h_text : string;
  h_color : string;
  h_url : string;
  h_timestamp : N;
  h_selector : option string;
  h_xpath : option string;
}.

(** ** Ranges

    A boundary point is a container node and an offset into it: a code-unit
    offset for a text node, a child index for an element.  The operations
    below are the algorithms of the DOM Standard for a tree of text and
    element nodes; the scripts call them on the range of the selection. *)

Record Range := MkRange {
  startContainer : path;
  startOffset : nat;
  endContainer : path;
  endOffset : nat;
}.

Definition nodeLength (n : node) : nat :=
  match n with
  | Text s => String.length s
  | Elem _ cs => length cs
  end.

(** The boundary point [(p, o)] lies in the tree [n]. *)
Definition validBoundary (p : path) (o : nat) (n : node) : bool :=
  match nodeAt p n with
  | Some c => bool_decide (o ≤ nodeLength c)
  | None => false
  end.

(** [(sp, so)] is before or equal to [(ep, eo)] in tree order. *)
Fixpoint boundaryLe (sp : path) (so : nat) (ep : path) (eo : nat) : bool :=
  match sp, ep with
  | [], [] => bool_decide (so ≤ eo)
  | [], j :: _ => bool_decide (so ≤ j)
  | i :: _, [] => bool_decide (i < eo)
  | i :: sp', j :: ep' =>
      bool_decide (i < j) || (bool_decide (i = j) && boundaryLe sp' so ep' eo)
  end.

Definition isElement (n : node) : bool :=
  match n with
  | Elem _ _ => true
  | Text _ => false
  end.

(** [r] is a range of the document whose body is the element [n]: both
    boundary points lie in it, the start not after the end. *)
Definition validRange (r : Range) (n : node) : bool :=
  isElement n
  && validBoundary (startContainer r) (startOffset r) n
  && validBoundary (endContainer r) (endOffset r) n
  && boundaryLe (startContainer r) (startOffset r) (endContainer r) (endOffset r).

(** A partially contained node is cut at the boundary point: one part stays
    in the document, the other goes to a clone with the same attributes.
    [splitAt] gives what is before the point and what is after it. *)
Fixpoint splitAt (p : path) (o : nat) (n : node) : option (node * node) :=
  match p with
  | [] =>
      match n with
      | Text s =>
          if bool_decide (o ≤ String.length s)
          then Some (Text (JsString.take o s), Text (JsString.drop o s))
          else None
      | Elem a cs =>
          if bool_decide (o ≤ length cs)
          then Some (Elem a (take o cs), Elem a (drop o cs))
          else None
      end
  | i :: p' =>
      match n with
      | Text _ => None
      | Elem a cs =>
          c ← cs !! i;
          '(l, r) ← splitAt p' o c;
          Some (Elem a (take i cs ++ [l]), Elem a (r :: drop (S i) cs))
      end
  end.

(** [range.extractContents()]: the document without the contents of the
    range, the fragment holding them, and the boundary point the range
    collapses to.  [None] stands for a range that is not one of this tree. *)
Fixpoint extract (sp : path) (so : nat) (ep : path) (eo : nat) (n : node)
    : option (node * list node * (path * nat)) :=
  match sp, ep with
  | [], [] =>
      match n with
      | Text s =>
          if bool_decide (so ≤ eo ≤ String.length s) then
            if bool_decide (so = eo) then Some (n, [], ([], so))
            else Some (Text (JsString.take so s +:+ JsString.drop eo s),
                       [Text (JsString.substring s so eo)], ([], so))
          else None
      | Elem a cs =>
          if bool_decide (so ≤ eo ≤ length cs)
          then Some (Elem a (take so cs ++ drop eo cs),
                     take (eo - so) (drop so cs), ([], so))
          else None
      end
  | [], j :: ep' =>
      match n with
      | Text _ => None
      | Elem a cs =>
          if bool_decide (so ≤ j) then
            c ← cs !! j;
            '(clone, kept) ← splitAt ep' eo c;
            Some (Elem a (take so cs ++ kept :: drop (S j) cs),
                  take (j - so) (drop so cs) ++ [clone], ([], so))
          else None
      end
  | i :: sp', [] =>
      match n with
      | Text _ => None
      | Elem a cs =>
          if bool_decide (i < eo ≤ length cs) then
            c ← cs !! i;
            '(kept, clone) ← splitAt sp' so c;
            Some (Elem a (take i cs ++ kept :: drop eo cs),
                  clone :: take (eo - S i) (drop (S i) cs), ([], S i))
          else None
      end
  | i :: sp', j :: ep' =>
      match n with
      | Text _ => None
      | Elem a cs =>
          if bool_decide (i = j) then
            c ← cs !! i;
            '(c', fragment, (q, o)) ← extract sp' so ep' eo c;
            Some (Elem a (<[i := c']> cs), fragment, (i :: q, o))
          else if bool_decide (i < j) then
            ci ← cs !! i;
            cj ← cs !! j;
            '(kepti, clonei) ← splitAt sp' so ci;
            '(clonej, keptj) ← splitAt ep' eo cj;
            Some (Elem a (take i cs ++ kepti :: keptj :: drop (S j) cs),
                  clonei :: take (j - S i) (drop (S i) cs) ++ [clonej], ([], S i))
          else None
      end
  end.

Definition extractContents (r : Range) (n : node) :=
  extract (startContainer r) (startOffset r) (endContainer r) (endOffset r) n.

(** [range.deleteContents()] leaves the same document and collapses the
    range to the same point; the contents are dropped. *)
Definition deleteContents (r : Range) (n : node) : option (node * (path * nat)) :=
  '(n', _, pt) ← extractContents r n; Some (n', pt).

(** The text of [n] before and after a boundary point. *)
Fixpoint textBefore (p : path) (o : nat) (n : node) : string :=
  match p, n with
  | [], Text s => JsString.take o s
  | [], Elem _ cs => textContents (take o cs)
  | i :: p', Elem _ cs =>
      textContents (take i cs) +:+ from_option (textBefore p' o) "" (cs !! i)
  | _ :: _, Text _ => ""
  end.

Fixpoint textAfter (p : path) (o : nat) (n : node) : string :=
  match p, n with
  | [], Text s => JsString.drop o s
  | [], Elem _ cs => textContents (drop o cs)
  | i :: p', Elem _ cs =>
      from_option (textAfter p' o) "" (cs !! i) +:+ textContents (drop (S i) cs)
  | _ :: _, Text _ => ""
  end.

(** [range.toString()]: the data of the text nodes in the range, cut at the
    boundary points. *)
Fixpoint rangeText (sp : path) (so : nat) (ep : path) (eo : nat) (n : node) : string :=
  match sp, ep, n with
  | [], [], Text s => JsString.substring s so eo
  | [], [], Elem _ cs => textContents (take (eo - so) (drop so cs))
  | [], j :: ep', Elem _ cs =>
      textContents (take (j - so) (drop so cs))
      +:+ from_option (textBefore ep' eo) "" (cs !! j)
  | i :: sp', [], Elem _ cs =>
      from_option (textAfter sp' so) "" (cs !! i)
      +:+ textContents (take (eo - S i) (drop (S i) cs))
  | i :: sp', j :: ep', Elem _ cs =>
      if bool_decide (i = j) then from_option (rangeText sp' so ep' eo) "" (cs !! i)
      else from_option (textAfter sp' so) "" (cs !! i)
           +:+ textContents (take (j - S i) (drop (S i) cs))
           +:+ from_option (textBefore ep' eo) "" (cs !! j)
  | _, _, _ => ""
  end.

Definition rangeToString (r : Range) (n : node) : string :=
  rangeText (startContainer r) (startOffset r) (endContainer r) (endOffset r) n.

(** [range.insertNode(new)] for a collapsed range at [(p, o)].  A text
    container is split at the offset and the node goes between the halves;
    an element container receives it before its child [o].  [insertInto]
    gives the nodes that stand where [n] stood. *)
Fixpoint insertInto (p : path) (o : nat) (new : node) (n : node) : option (list node) :=
  match p with
  | [] =>
      match n with
      | Text s =>
          if bool_decide (o ≤ String.length s)
          then Some [Text (JsString.take o s); new; Text (JsString.drop o s)]
          else None
      | Elem a cs =>
          if bool_decide (o ≤ length cs)
          then Some [Elem a (take o cs ++ new :: drop o cs)]
          else None
      end
  | i :: p' =>
      match n with
      | Text _ => None
      | Elem a cs =>
          c ← cs !! i;
          l ← insertInto p' o new c;
          Some [Elem a (take i cs ++ l ++ drop (S i) cs)]
      end
  end.

Definition insertNode (pt : path * nat) (new : node) (n : node) : option node :=
  match insertInto pt.1 pt.2 new n with
  | Some [n'] => Some n'
  | _ => None
  end.

(** The selection: its ranges, in the order in which [getRangeAt] numbers
    them; most browsers keep at most one, Firefox keeps several.  Its
    string is the text of its ranges, one after the other. *)
Definition Selection := list Range.

Definition selectionToString (sel : Selection) (n : node) : string :=
  JsString.concat (map (λ r, rangeToString r n) sel).

(** ** The page: document, extension storage, counter *)

(** [document.readyState] *)
Inductive ReadyState := Loading | Interactive | Complete.

Record Page := MkPage {
  body : node;
  (** [browser.storage.local], a map from keys to highlight collections *)
  storage : gmap string (list HighlightRecord);
  (** whether [storage.local.set] and [remove] resolve or reject *)
  writable : bool;
  highlightCounter : nat;
  (** [window.location.href] *)
  url : string;
  readyState : ReadyState;
}.

Definition setBody (b : node) (w : Page) : Page :=
  MkPage b (storage w) (writable w) (highlightCounter w) (url w) (readyState w).
Definition setStorage (s : gmap string (list HighlightRecord)) (w : Page) : Page :=
  MkPage (body w) s (writable w) (highlightCounter w) (url w) (readyState w).
Definition setCounter (c : nat) (w : Page) : Page :=
  MkPage (body w) (storage w) (writable w) c (url w) (readyState w).
Definition setWritable (f : bool) (w : Page) : Page :=
  MkPage (body w) (storage w) f (highlightCounter w) (url w) (readyState w).
Definition setReadyState (r : ReadyState) (w : Page) : Page :=
  MkPage (body w) (storage w) (writable w) (highlightCounter w) (url w) r.

(** The runs of [applyHighlights] that one call of [restoreHighlights]
    gives rise to when the collection is not empty.  One is started by a
    timer, once [DOMContentLoaded] has fired when the document is still
    loading.  One more is started by the listener the call adds for the
    [load] event: a document that is [complete] has fired that event and
    will not fire it again; a document that is not has it still to come. *)
Definition scheduledRuns (r : ReadyState) : nat :=
  match r with
  | Complete => 1
  | Interactive | Loading => 2
  end.

(** [(await storage.local.get(key))[key] || []] *)
Definition storageGet (key : string) (w : Page) : list HighlightRecord :=
  default [] (storage w !! key).

(** [await storage.local.set({[key]: value})]; [None] when it rejects. *)
Definition storageSet (key : string) (value : list HighlightRecord) (w : Page) : option Page :=
  if writable w then Some (setStorage (<[key := value]> (storage w)) w) else None.

(** [await storage.local.remove(key)] *)
Definition storageRemove (key : string) (w : Page) : option Page :=
  if writable w then Some (setStorage (delete key (storage w)) w) else None.

(** What a message handler sends back: [{success: true, highlightId}],
    [{success: true, count}] or [{success: false, message}].  For an
    exception the message is the text the platform gave it; the model
    writes the name of the call that threw. *)
Inductive Response :=
| Success (highlightId : string)
| Counted (count : nat)
| Failure (message : string).

(** [`highlight-${Date.now()}-${++this.highlightCounter}`] *)
Definition newHighlightId (now : N) (counter : nat) : string :=
  "highlight-" +:+ pretty now +:+ "-" +:+ pretty counter.

(** Setting [textContent]: one text child, none for the empty string. *)
Definition textChildren (s : string) : list node :=
  if JsString.truthy s then [Text s] else [].

(** ** The simple variant: [content.js] *)

Module Content.

(** The span [restoreHighlight] builds: class, id and colour of the record,
    and the searched text as its text content. *)
Definition highlightSpan (h : HighlightRecord) (textToFind : string) : node :=
  Elem (Attrs "span" (h_id h) highlightClass (h_color h))
       (textChildren textToFind).

(** The fragment that replaces the text node: the text before the first
    occurrence (when not empty), the span, the text after it (when not
    empty). *)
Definition fragment (h : HighlightRecord) (text textToFind : string) : list node :=
  let i := default 0 (JsString.indexOf text textToFind) in
  let beforeText := JsString.substring text 0 i in
  let afterText := JsString.substringFrom text (i + String.length textToFind) in
  (if JsString.truthy beforeText then [Text beforeText] else [])
  ++ [highlightSpan h textToFind]
  ++ (if JsString.truthy afterText then [Text afterText] else []).

(** The walker loop of [restoreHighlight]: the first text node whose text
    includes the target is replaced by the fragment, and the loop ends. *)
Fixpoint locate (h : HighlightRecord) (body : node) (walker : list path) : node :=
  match walker with
  | [] => body
  | textNode :: rest =>
      match nodeAt textNode body with
      | Some (Text text) =>
          if JsString.includes text (h_text h)
          then replaceChild textNode (fragment h text (h_text h)) body
          else locate h body rest
      | _ => locate h body rest
      end
  end.

Definition restoreHighlight (h : HighlightRecord) (body : node) : node :=
  let textToFind := h_text h in
  if negb (JsString.truthy textToFind) || bool_decide (JsString.trim textToFind = "")
  then body
  else locate h body (getTextNodes body).

(** [applyHighlights]: every record in turn, on the document the previous
    ones left. *)
Definition applyHighlights (highlights : list HighlightRecord) (body : node) : node :=
  foldl (λ b h, restoreHighlight h b) body highlights.

(** [restoreHighlights]: the collection stored under the page's URL is
    applied when it is not empty, in as many runs of [applyHighlights] as
    the call schedules for the ready state of the document; every run gets
    the collection as it was read by the call.  The page returned is the
    one reached once these runs are over. *)
Definition restoreHighlights (w : Page) : Page :=
  let highlights := storageGet (url w) w in
  if bool_decide (0 < length highlights)
  then setBody (Nat.iter (scheduledRuns (readyState w)) (applyHighlights highlights) (body w)) w
  else w.

(** [createHighlight]: the new span carries the text of the range; the
    contents of the range are deleted and the span is inserted at the
    point the range collapsed to.  The counter is bumped first, so it
    stays bumped when the DOM operations throw ([None]). *)
Definition createHighlight (range : Range) (color : string) (now : N) (w : Page)
    : Page * option (string * string) :=
  let counter := S (highlightCounter w) in
  let highlightId := newHighlightId now counter in
  let textContent := rangeToString range (body w) in
  let highlightSpan :=
    Elem (Attrs "span" highlightId highlightClass color) (textChildren textContent) in
  match deleteContents range (body w) with
  | Some (b, pt) =>
      match insertNode pt highlightSpan b with
      | Some b' => (setBody b' (setCounter counter w), Some (highlightId, textContent))
      | None => (setCounter counter w, None)
      end
  | None => (setCounter counter w, None)
  end.

(** [saveHighlight]: read the collection, push the record, write it back.
    A rejected write is caught and logged inside the function. *)
Definition saveHighlight (highlightId textContent color : string) (now : N) (w : Page) : Page :=
  let highlightData := Highlight highlightId textContent color (url w) now None None in
  let highlights := storageGet (url w) w ++ [highlightData] in
  match storageSet (url w) highlights w with
  | Some w' => w'
  | None => w
  end.

(** [highlightSelection]: the guard reads the string of the selection,
    the highlight is made of its first range, [getRangeAt(0)].  The answer
    is computed without waiting for [saveHighlight]; the page returned is
    the one reached once the save has run. *)
Definition highlightSelection (color : string) (now : N) (selection : Selection) (w : Page)
    : Response * Page :=
  if negb (JsString.truthy (JsString.trim (selectionToString selection (body w))))
  then (Failure "No text selected", w)
  else
    match selection with
    | [] => (Failure "getRangeAt", w)
    | range :: _ =>
        match createHighlight range color now w with
        | (w1, Some (id, text)) => (Success id, saveHighlight id text color now w1)
        | (w1, None) => (Failure "createHighlight", w1)
        end
    end.

Definition clearHighlightsFromStorage (w : Page) : Page :=
  match storageRemove (url w) w with
  | Some w' => w'
  | None => w
  end.

(** [clearAllHighlights]: with no live highlight the storage is left
    alone. *)
Definition clearAllHighlights (w : Page) : Response * Page :=
  let count := length (liveHighlights (body w)) in
  if bool_decide (count = 0) then (Counted 0, w)
  else (Counted count, clearHighlightsFromStorage (setBody (unwrapHighlights (body w)) w)).

(** [deleteHighlight]: the record leaves the stored collection; the
    answer counts the records removed. *)
Definition deleteHighlight (highlightId : string) (w : Page) : Response * Page :=
  let highlights := storageGet (url w) w in
  let updatedHighlights := filter (λ h, h_id h ≠ highlightId) highlights in
  match storageSet (url w) updatedHighlights w with
  | Some w' => (Counted (length highlights - length updatedHighlights), w')
  | None => (Failure "storage", w)
  end.

(** Where the walker loop of [restoreHighlight] stops: the text node that
    is replaced, if there is one. *)
Fixpoint stopsAt (h : HighlightRecord) (body : node) (walker : list path) : option path :=
  match walker with
  | [] => None
  | textNode :: rest =>
      match nodeAt textNode body with
      | Some (Text text) =>
          if JsString.includes text (h_text h) then Some textNode
          else stopsAt h body rest
      | _ => stopsAt h body rest
      end
  end.

(** A reference to a node is kept by the script as the node, and by the
    model as a path.  When the node at [p] gives way to [k] nodes, the
    siblings behind it, with all that is below them, stand [k - 1] places
    further; every other node stays at its path. *)
Fixpoint shifted (p : path) (k : nat) (reference : path) : path :=
  match p, reference with
  | [i], j :: rest => if bool_decide (i < j) then (j + k - 1) :: rest else reference
  | i :: p', j :: rest => if bool_decide (i = j) then j :: shifted p' k rest else reference
  | _, _ => reference
  end.

(** The path, after [restoreHighlight], of the node that stood at
    [reference] before it. *)
Definition referenceAfter (h : HighlightRecord) (body : node) (reference : path) : path :=
  let textToFind := h_text h in
  if negb (JsString.truthy textToFind) || bool_decide (JsString.trim textToFind = "")
  then reference
  else
    match stopsAt h body (getTextNodes body) with
    | Some textNode =>
        match nodeAt textNode body with
        | Some (Text text) => shifted textNode (length (fragment h text textToFind)) reference
        | _ => reference
        end
    | None => reference
    end.

(** [checkForLostHighlights(element)], called for every element the
    mutation observer reports: a record whose text occurs in the element
    is restored unless an element with its id is already there.  The
    element is followed through the restorations, which search the whole
    document and may split a text node that stands before it. *)
Definition checkForLostHighlights (element : path) (w : Page) : Page :=
  let highlights := storageGet (url w) w in
  (foldl (λ '(w', element) h,
            match nodeAt element (body w') with
            | Some el =>
                if JsString.includes (textContent el) (h_text h)
                   && bool_decide (getElementById (h_id h) (body w') = None)
                then (setBody (restoreHighlight h (body w')) w',
                      referenceAfter h (body w') element)
                else (w', element)
            | None => (w', element)
            end) (w, element) highlights).1.

(** [refreshHighlightsFromStorage]: all live highlights are unwrapped
    before the stored ones are restored. *)
Definition refreshHighlightsFromStorage (w : Page) : Page :=
  let highlights := storageGet (url w) w in
  setBody (foldl (λ b h, restoreHighlight h b) (unwrapHighlights (body w)) highlights) w.

(** The listener of [setupStorageListener]: [changes] holds the keys whose
    entries were written or removed; for the local area and a change under
    the URL of the page, [restoreHighlights] is scheduled.  [init]
    schedules it as well: on load, on focus and when the page becomes
    visible. *)
Definition onStorageChanged (changes : list string) (areaName : string) (w : Page) : Page :=
  if bool_decide (areaName = "local") && bool_decide (url w ∈ changes)
  then restoreHighlights w
  else w.

(** [getCurrentHighlights]: id, text content and background colour of every
    live highlight, in document order.  [serialize] is what reading
    [style.backgroundColor] gives for the value that was assigned to it. *)
Definition getCurrentHighlights (serialize : string → string) (b : node)
    : list (string * string * string) :=
  map (λ e, (id e.2.1, textContents e.2.2, serialize (backgroundColor e.2.1)))
      (liveHighlights b).

(** [debugStorage]: the collection under the URL of the page. *)
Definition debugStorage (w : Page) : list HighlightRecord := storageGet (url w) w.

Definition menuClass : string := "highlight-context-menu".

(** The element matches the selector [.highlight-context-menu]. *)
Definition isMenu (a : attrs) : bool := bool_decide (menuClass ∈ classList a).

(** The text of the menu item, the pictograph in the bytes of its UTF-8
    encoding. *)
Definition deleteItemText : string := "🗑️ Delete Highlight".

(** The menu [showContextMenu] builds: a [div] with the menu class and a
    white background, and in it the [div] of the delete item. *)
Definition contextMenu : node :=
  Elem (Attrs "div" EmptyString menuClass "#fff")
       [Elem (Attrs "div" EmptyString EmptyString EmptyString) [Text deleteItemText]].

(** [showContextMenu]: the menus that are open are removed, and the new
    menu becomes the last child of the body.  Where it is placed on the
    screen is [menuPosition] below. *)
Definition showContextMenu (b : node) : node :=
  match removeElements isMenu b with
  | Elem a cs => Elem a (cs ++ [contextMenu])
  | Text s => Text s
  end.

(** What the click handlers do with an answer of [deleteHighlight] that
    reports success: the element with the id, when there is one, gives way
    to a text node with its text content.  The body itself has its parent
    outside the tree and stays. *)
Definition removeHighlightElement (highlightId : string) (b : node) : node :=
  match getElementById highlightId b with
  | Some highlightElement =>
      match nodeAt highlightElement b with
      | Some el => replaceChild highlightElement [Text (textContent el)] b
      | None => b
      end
  | None => b
  end.

(** The promise chain of the two click handlers: [deleteHighlight], then
    the removal of the element when the answer reports success. *)
Definition deleteThenRemove (highlightId : string) (w : Page) : Response * Page :=
  match deleteHighlight highlightId w with
  | (Counted count, w') =>
      (Counted count, setBody (removeHighlightElement highlightId (body w')) w')
  | (response, w') => (response, w')
  end.

(** The listener for clicks on the dustbin of the highlight with the id:
    the chain runs when the user confirms.  With a menu open, the same
    click reaches [clickOutsideHandler] below, which has removed the menu
    by the time the callback of the chain runs. *)
Definition dustbinClicked (confirmed : bool) (highlightId : string) (w : Page) : Page :=
  if confirmed then (deleteThenRemove highlightId w).2 else w.

(** A click on the delete item of the menu that stands at [menu]: the
    chain is started, and [menu.remove()] is run before its callback
    is. *)
Definition menuDeleteClicked (highlightId : string) (menu : path) (w : Page) : Page :=
  (deleteThenRemove highlightId (setBody (removeNode menu (body w)) w)).2.

(** The handler for clicks outside the menu: a click on a node that is
    not the menu nor below it removes the menu. *)
Definition clickOutsideHandler (menu target : path) (b : node) : node :=
  if bool_decide (menu `prefix_of` target) then b else removeNode menu b.

(** [showContextMenu]: the [left] and [top] the menu gets for a click at
    [(x, y)], in pixels. *)
Definition menuPosition (x y innerWidth innerHeight : Z) : Z * Z :=
  let menuWidth := 150%Z in
  let menuHeight := 50%Z in
  (if bool_decide (x + menuWidth > innerWidth)%Z then (x - menuWidth)%Z else x,
   if bool_decide (y + menuHeight > innerHeight)%Z then (y - menuHeight)%Z else y).

(** The messages the listener of [setupMessageListener] tells apart by
    their [action], and what it sends back. *)
Inductive Message :=
| MsgHighlightSelection (color : option string)
| MsgClearAllHighlights
| MsgGetHighlights
| MsgDeleteHighlight (highlightId : string)
| MsgRefreshHighlights
| MsgDebugStorage
| MsgOther (action : string).

Inductive Reply :=
| ReplyResponse (response : Response)
| ReplyHighlights (highlights : list (string * string * string))
| ReplyRefreshed
| ReplyDebug (main : list HighlightRecord).

(** The listener: a missing colour is the default of [highlightSelection];
    the refresh is answered before it has run; an action that is not one
    of the six gets no answer. *)
Definition onMessage (serialize : string → string) (now : N) (selection : Selection)
    (message : Message) (w : Page) : option Reply * Page :=
  match message with
  | MsgHighlightSelection color =>
      let '(result, w') := highlightSelection (default "#ffff00" color) now selection w in
      (Some (ReplyResponse result), w')
  | MsgClearAllHighlights =>
      let '(clearResult, w') := clearAllHighlights w in
      (Some (ReplyResponse clearResult), w')
  | MsgGetHighlights => (Some (ReplyHighlights (getCurrentHighlights serialize (body w))), w)
  | MsgDeleteHighlight highlightId =>
      let '(response, w') := deleteHighlight highlightId w in
      (Some (ReplyResponse response), w')
  | MsgRefreshHighlights => (Some ReplyRefreshed, refreshHighlightsFromStorage w)
  | MsgDebugStorage => (Some (ReplyDebug (debugStorage w)), w)
  | MsgOther _ => (None, w)
  end.

End Content.

(** ** The variant with structural anchors and a backup key *)

(** What the page's platform provides besides the tree operations above:
    the selector engine, the XPath evaluator and the HTML fragment parser.
    [querySelector] and [evaluate] give the node found; [None] stands for
    [null] as well as for an exception, which the caller catches with the
    same effect. *)
Class Platform := {
  querySelector : node → string → option path;
  evaluate : node → string → option path;
  (** the children a [span] gets when the string is assigned to its [innerHTML] *)
  parseFragment : string → list node;
}.

(** The double quote, as a string. *)
Definition dquote : string := String (Ascii.ascii_of_nat 34) EmptyString.

(** A [for] loop with [break]: [n] rounds from [lo] upwards, ended by the
    first round that yields a result. *)
Fixpoint forUp {A : Type} (n lo : nat) (round : nat → option A) : option A :=
  match n with
  | 0 => None
  | S n' =>
      match round lo with
      | Some a => Some a
      | None => forUp n' (S lo) round
      end
  end.

Module Anchored.

(** The descriptors are built for elements; tag names are kept in lower
    case in [tagName]. *)
Definition isElementWithTag (tag : string) (c : node) : bool :=
  match c with
  | Elem a _ => bool_decide (tagName a = tag)
  | Text _ => false
  end.

(** A text node stands for its parent. *)
Definition elementOf (p : path) (b : node) : path :=
  match nodeAt p b with
  | Some (Text _) => removelast p
  | _ => p
  end.

(** The previous siblings of the element at [p] that are elements with its
    tag. *)
Definition sameTagBefore (p : path) (b : node) : nat :=
  match nodeAt (removelast p) b, last p, nodeAt p b with
  | Some (Elem _ cs), Some i, Some (Elem a _) =>
      length (filter (λ c, isElementWithTag (tagName a) c) (take i cs))
  | _, _, _ => 0
  end.

(** [generateSelector(element)] *)
Definition generateSelector (p : path) (b : node) : string :=
  let p := elementOf p b in
  match nodeAt p b with
  | Some (Elem a _) =>
      if JsString.truthy (id a) then "#" +:+ id a
      else
        let selector := tagName a in
        let selector :=
          if JsString.truthy (className a)
          then selector +:+ "." +:+ JsString.replaceAll (className a) " " (λ _, ".")
          else selector in
        let index := sameTagBefore p b in
        if bool_decide (0 < index)
        then selector +:+ ":nth-of-type(" +:+ pretty (index + 1) +:+ ")"
        else selector
  | _ => EmptyString
  end.

(** The steps of the path from the body down to the element at [p], one
    per element, each with its position among the siblings of its tag when
    that is not the first; [n] counts the steps still to write. *)
Fixpoint xpathSteps (p : path) (b : node) (n : nat) : string :=
  match n with
  | 0 => EmptyString
  | S n' =>
      let q := take (length p - n') p in
      match nodeAt q b with
      | Some (Elem a _) =>
          let index := S (sameTagBefore q b) in
          "/" +:+ tagName a
          +:+ (if bool_decide (1 < index) then "[" +:+ pretty index +:+ "]" else EmptyString)
          +:+ xpathSteps p b n'
      | _ => EmptyString
      end
  end.

(** [generateXPath(element)]: the walk up from the element ends above
    [html], the parent of the body. *)
Definition generateXPath (p : path) (b : node) : string :=
  let p := elementOf p b in
  match nodeAt p b with
  | Some (Elem a _) =>
      if JsString.truthy (id a) then "//*[@id=" +:+ dquote +:+ id a +:+ dquote +:+ "]"
      else "/html" +:+ xpathSteps p b (S (length p))
  | _ => EmptyString
  end.

(** [createHighlight]: the contents of the range are extracted and
    appended to the new span, which is inserted where the range collapsed
    to.  Of the style only the background colour is kept in the model. *)
Definition createHighlight (range : Range) (color : string) (now : N) (w : Page)
    : Page * option (string * string) :=
  let counter := S (highlightCounter w) in
  let highlightId := newHighlightId now counter in
  let textContent := rangeToString range (body w) in
  match extractContents range (body w) with
  | Some (b, contents, pt) =>
      let highlightSpan := Elem (Attrs "span" highlightId highlightClass color) contents in
      match insertNode pt highlightSpan b with
      | Some b' => (setBody b' (setCounter counter w), Some (highlightId, textContent))
      | None => (setCounter counter w, None)
      end
  | None => (setCounter counter w, None)
  end.

Definition backupKey (url : string) : string := "backup_" +:+ url.

(** [saveHighlight]: the record gets the selector and the XPath of the
    element that carries its id; the collection is written under the URL
    and then under the backup key.  Any exception, a missing element or a
    rejected write, ends the function where it is raised. *)
Definition saveHighlight (highlightId textContent color : string) (now : N) (w : Page) : Page :=
  match getElementById highlightId (body w) with
  | None => w
  | Some el =>
      let highlightData :=
        Highlight highlightId textContent color (url w) now
                  (Some (generateSelector el (body w)))
                  (Some (generateXPath el (body w))) in
      let highlights := storageGet (url w) w ++ [highlightData] in
      match storageSet (url w) highlights w with
      | None => w
      | Some w1 =>
          match storageSet (backupKey (url w)) highlights w1 with
          | None => w1
          | Some w2 => w2
          end
      end
  end.

Definition highlightSelection (color : string) (now : N) (selection : Selection) (w : Page)
    : Response * Page :=
  if negb (JsString.truthy (JsString.trim (selectionToString selection (body w))))
  then (Failure "No text selected", w)
  else
    match selection with
    | [] => (Failure "getRangeAt", w)
    | range :: _ =>
        match createHighlight range color now w with
        | (w1, Some (id, text)) => (Success id, saveHighlight id text color now w1)
        | (w1, None) => (Failure "createHighlight", w1)
        end
    end.

Definition clearHighlightsFromStorage (w : Page) : Page :=
  match storageRemove (url w) w with
  | Some w' => w'
  | None => w
  end.

Definition clearAllHighlights (w : Page) : Response * Page :=
  (Counted (length (liveHighlights (body w))),
   clearHighlightsFromStorage (setBody (unwrapHighlights (body w)) w)).

(** The result of a search: the text node to wrap and the text to wrap in
    it. *)
Inductive Located :=
| FoundExact (textNode : path)
| FoundPartial (textNode : path) (substring : string)
| NotFound.

(** The first loop of [searchAndHighlightText], also the loop of
    [findAndHighlightText]: the first text node whose text includes the
    target. *)
Fixpoint exactMatch (target : string) (b : node) (textNodes : list path) : option path :=
  match textNodes with
  | [] => None
  | textNode :: rest =>
      match nodeAt textNode b with
      | Some (Text text) =>
          if JsString.includes text target then Some textNode
          else exactMatch target b rest
      | _ => exactMatch target b rest
      end
  end.

(** [Math.max(3, Math.floor(length * 0.5))] *)
Definition minLength (target : string) : nat := 3 `max` (String.length target / 2).

(** The loops over [j] and [k] for one text node. *)
Definition partialInNode (text target : string) : option string :=
  let minLength := minLength target in
  if bool_decide (minLength ≤ String.length text) then
    forUp (String.length text - minLength + 1) 0 (λ j,
      forUp ((String.length text - j) `min` String.length target + 1 - minLength) minLength (λ k,
        let substring := JsString.substring text j (j + k) in
        if JsString.includes target substring
           && bool_decide (minLength ≤ String.length substring)
        then Some substring else None))
  else None.

(** The second loop of [searchAndHighlightText]. *)
Fixpoint partialMatch (target : string) (b : node) (textNodes : list path)
    : option (path * string) :=
  match textNodes with
  | [] => None
  | textNode :: rest =>
      match nodeAt textNode b with
      | Some (Text text) =>
          match partialInNode text target with
          | Some substring => Some (textNode, substring)
          | None => partialMatch target b rest
          end
      | _ => partialMatch target b rest
      end
  end.

Definition search (target : string) (b : node) : Located :=
  let textNodes := getTextNodes b in
  match exactMatch target b textNodes with
  | Some textNode => FoundExact textNode
  | None =>
      match partialMatch target b textNodes with
      | Some (textNode, substring) => FoundPartial textNode substring
      | None => NotFound
      end
  end.

Definition withText (h : HighlightRecord) (text : string) : HighlightRecord :=
  Highlight (h_id h) text (h_color h) (h_url h) (h_timestamp h) (h_selector h) (h_xpath h).

(** The markup [highlightTextNode] puts around every match. *)
Definition markup (h : HighlightRecord) (matched : string) : string :=
  "<span class=" +:+ dquote +:+ highlightClass +:+ dquote
  +:+ " id=" +:+ dquote +:+ h_id h +:+ dquote
  +:+ " style=" +:+ dquote +:+ "background-color: " +:+ h_color h
  +:+ "; border-radius: 2px; padding: 1px 2px; margin: 0 1px;" +:+ dquote +:+ ">"
  +:+ matched +:+ "</span>".

(** [debugStorage]: the collections under the URL and under the backup
    key. *)
Definition debugStorage (w : Page) : list HighlightRecord * list HighlightRecord :=
  (storageGet (url w) w, storageGet (backupKey (url w)) w).

(** The characters of the class in [escapeRegex]:
    [. * + ? ^ $ { } ( ) | [ ] \]. *)
Definition regexSpecials : list Ascii.ascii :=
  String.list_ascii_of_string ".*+?^${}()|[]\".

Definition isRegexSpecial (c : Ascii.ascii) : bool := bool_decide (c ∈ regexSpecials).

Definition backslash : Ascii.ascii := Ascii.ascii_of_nat 92.

(** [escapeRegex]: a backslash before every character of the class. *)
Fixpoint escapeRegex (s : string) : string :=
  match s with
  | EmptyString => EmptyString
  | String c s' =>
      if isRegexSpecial c then String backslash (String c (escapeRegex s'))
      else String c (escapeRegex s')
  end.

Section WithPlatform.
Context `{Platform}.

(** [highlightTextNode]: the text node gives way to a plain [span]
    whose [innerHTML] is its text with every match put in markup. *)
Definition highlightTextNode (textNode : path) (h : HighlightRecord) (b : node) : node :=
  match nodeAt textNode b with
  | Some (Text text) =>
      if JsString.includes text (h_text h) then
        let container :=
          Elem (Attrs "span" EmptyString EmptyString EmptyString)
               (parseFragment (JsString.replaceAll text (h_text h) (markup h))) in
        replaceChild textNode [container] b
      else b
  | _ => b
  end.

(** The text nodes under the element at [element], as paths from the body. *)
Definition textNodesOf (element : path) (b : node) : list path :=
  match nodeAt element b with
  | Some el => map (app element) (getTextNodes el)
  | None => []
  end.

Definition findAndHighlightText (element : path) (h : HighlightRecord) (b : node) : node :=
  match exactMatch (h_text h) b (textNodesOf element b) with
  | Some textNode => highlightTextNode textNode h b
  | None => b
  end.

Definition searchAndHighlightText (h : HighlightRecord) (b : node) : node :=
  match search (h_text h) b with
  | FoundExact textNode => highlightTextNode textNode h b
  | FoundPartial textNode substring => highlightTextNode textNode (withText h substring) b
  | NotFound => b
  end.

(** What the stored selector leads to: nothing when the record has no
    selector or an empty one, or when [querySelector] gives nothing. *)
Definition bySelector (h : HighlightRecord) (b : node) : option path :=
  match h_selector h with
  | Some selector => if JsString.truthy selector then querySelector b selector else None
  | None => None
  end.

Definition byXPath (h : HighlightRecord) (b : node) : option path :=
  match h_xpath h with
  | Some xpath => if JsString.truthy xpath then evaluate b xpath else None
  | None => None
  end.

(** The element the stored anchors lead to: the selector first, the
    XPath when the selector gave nothing. *)
Definition targetElement (h : HighlightRecord) (b : node) : option path :=
  match bySelector h b with
  | Some el => Some el
  | None => byXPath h b
  end.

Definition restoreHighlight (h : HighlightRecord) (b : node) : node :=
  match targetElement h b with
  | Some el => findAndHighlightText el h b
  | None => searchAndHighlightText h b
  end.

Definition applyHighlights (highlights : list HighlightRecord) (b : node) : node :=
  foldl (λ b' h, restoreHighlight h b') b highlights.

(** [restoreHighlights]: when the collection under the URL is empty and
    the backup key holds a value, that value is taken and written back
    under the URL; a rejected write ends the function.  The runs of
    [applyHighlights] are scheduled as in the simple variant. *)
Definition restoreHighlights (w : Page) : Page :=
  let highlights := storageGet (url w) w in
  let read : option (list HighlightRecord * Page) :=
    if bool_decide (length highlights = 0) then
      match storage w !! backupKey (url w) with
      | Some backup => w' ← storageSet (url w) backup w; Some (backup, w')
      | None => Some (highlights, w)
      end
    else Some (highlights, w) in
  match read with
  | Some (highlights, w') =>
      if bool_decide (0 < length highlights)
      then setBody (Nat.iter (scheduledRuns (readyState w')) (applyHighlights highlights)
                      (body w')) w'
      else w'
  | None => w
  end.

(** [checkForLostHighlights(element)]: the search is confined to the
    element, and the text node found gives way to one node, the plain
    span, so that every node of the document, the element among them,
    stays at its path. *)
Definition checkForLostHighlights (element : path) (w : Page) : Page :=
  let highlights := storageGet (url w) w in
  foldl (λ w' h,
           match nodeAt element (body w') with
           | Some el =>
               if JsString.includes (textContent el) (h_text h)
                  && bool_decide (getElementById (h_id h) (body w') = None)
               then setBody (findAndHighlightText element h (body w')) w'
               else w'
           | None => w'
           end) w highlights.

End WithPlatform.

End Anchored.

(** ** A platform to run the examples on

    Id selectors, XPaths by id, and a fragment parser for the markup of
    [Anchored.markup] around text that holds no markup of its own. *)

Module Plain.

Definition between (opening closing s : string) : option (string * string) :=
  if String.prefix opening s then
    let r := JsString.drop (String.length opening) s in
    i ← JsString.indexOf r closing;
    Some (JsString.take i r, JsString.drop (i + String.length closing) r)
  else None.

Definition parseSpan (s : string) : option (node * string) :=
  '(cls, r1) ← between ("<span class=" +:+ dquote) dquote s;
  '(i, r2) ← between (" id=" +:+ dquote) dquote r1;
  '(color, r3) ← between (" style=" +:+ dquote +:+ "background-color: ") ";" r2;
  '(_, r4) ← between EmptyString (dquote +:+ ">") r3;
  '(inner, r5) ← between EmptyString "</span>" r4;
  Some (Elem (Attrs "span" i cls color) (textChildren inner), r5).

Fixpoint parseSpans (fuel : nat) (s : string) : list node :=
  match fuel with
  | 0 => []
  | S fuel' =>
      match JsString.indexOf s "<" with
      | None => textChildren s
      | Some i =>
          textChildren (JsString.take i s)
          ++ match parseSpan (JsString.drop i s) with
             | Some (el, rest) => el :: parseSpans fuel' rest
             | None => []
             end
      end
  end.

Definition byIdSelector (b : node) (selector : string) : option path :=
  if String.prefix "#" selector then getElementById (JsString.drop 1 selector) b else None.

Definition byIdXPath (b : node) (xpath : string) : option path :=
  '(i, rest) ← between ("//*[@id=" +:+ dquote) (dquote +:+ "]") xpath;
  if bool_decide (rest = EmptyString) then getElementById i b else None.

#[export] Instance platform : Platform := {|
  querySelector := byIdSelector;
  evaluate := byIdXPath;
  parseFragment s := parseSpans (S (String.length s)) s;
|}.

End Plain.

(** ** Notions the statements use *)

(** The target occurs in [text] at offset [i]. *)
Definition occursAt (text pat : string) (i : nat) : Prop :=
  ∃ before after, text = before +:+ pat +:+ after ∧ String.length before = i.

(** The data of the text node at [p]. *)
Definition dataAt (p : path) (b : node) : option string :=
  match nodeAt p b with
  | Some (Text s) => Some s
  | _ => None
  end.

(** Among the text nodes [nodes], taken in order, [p] is the first whose
    text satisfies [P], and [text] is that text. *)
Definition firstWith (P : string → Prop) (b : node) (nodes : list path)
    (p : path) (text : string) : Prop :=
  ∃ i, nodes !! i = Some p ∧ dataAt p b = Some text ∧ P text ∧
       ∀ j q t, j < i → nodes !! j = Some q → dataAt q b = Some t → ¬ P t.

(** No text node among [nodes] has a text that satisfies [P]. *)
Definition noneWith (P : string → Prop) (b : node) (nodes : list path) : Prop :=
  ∀ q t, q ∈ nodes → dataAt q b = Some t → ¬ P t.

(** [text] contains [pat] as a substring. *)
Definition contains (pat text : string) : Prop :=
  ∃ before after, text = before +:+ pat +:+ after.

(** The text of the record is in some text node of the document. *)
Definition foundIn (h : HighlightRecord) (b : node) : Prop :=
  ∃ p text, p ∈ getTextNodes b ∧ dataAt p b = Some text ∧ contains (h_text h) text.

(** ** A document and a record to run the scripts on *)

Definition plainAttrs (tag : string) : attrs := Attrs tag EmptyString EmptyString EmptyString.

(** [<body><p>The quick brown fox</p></body>] *)
Definition foxDocument : node :=
  Elem (plainAttrs "body") [Elem (plainAttrs "p") [Text "The quick brown fox"]].

Definition foxUrl : string := "https://example.org/fox".

Definition foxRecord : HighlightRecord :=
  Highlight "highlight-1700000000000-1" "quick brown" "#ffff00" foxUrl 1700000000000%N None None.

(** The span both variants build for [foxRecord]. *)
Definition foxSpan : node :=
  Elem (Attrs "span" "highlight-1700000000000-1" highlightClass "#ffff00") [Text "quick brown"].

(** The page on a later visit: the record is in the storage, the document
    is as it was served and has finished loading. *)
Definition foxPage : Page :=
  MkPage foxDocument {[ foxUrl := [foxRecord] ]} true 0 foxUrl Complete.

(** ** The page over time *)

(** Every record in the storage has a text that is not empty. *)
Definition textsNonEmpty (w : Page) : Prop :=
  ∀ key highlights h,
    storage w !! key = Some highlights → h ∈ highlights → h_text h ≠ EmptyString.

(** What the user, the popup and the browser make [content.js] do, and what
    happens around it: the storage starts or stops accepting writes, the
    page changes its document, the document gets on with loading. *)
Inductive ContentStep : Page → Page → Prop :=
| StepHighlight color now selection w :
    ContentStep w (Content.highlightSelection color now selection w).2
| StepClearAll w :
    ContentStep w (Content.clearAllHighlights w).2
| StepDelete highlightId w :
    ContentStep w (Content.deleteHighlight highlightId w).2
| StepRestore w :
    ContentStep w (Content.restoreHighlights w)
| StepMutation element w :
    ContentStep w (Content.checkForLostHighlights element w)
| StepRefresh w :
    ContentStep w (Content.refreshHighlightsFromStorage w)
| StepStorageMode f w :
    ContentStep w (setWritable f w)
| StepDocument b w :
    ContentStep w (setBody b w)
| StepReadyState r w :
    ContentStep w (setReadyState r w).

(** The page before the first visit, loaded: nothing stored. *)
Definition freshPage (b : node) (u : string) : Page := MkPage b ∅ true 0 u Complete.

(** The selection of [quick brown] in [foxDocument]. *)
Definition foxSelection : Selection := [MkRange [0; 0] 4 [0; 0] 15].

(** The page after [quick brown] was highlighted in the anchored variant,
    before the record is saved. *)
Definition foxHighlighted : Page :=
  (Anchored.createHighlight (MkRange [0; 0] 4 [0; 0] 15) "#ffff00" 1700000000000
     (freshPage foxDocument foxUrl)).1.

(** A paragraph with nested elements:
    [<body><p>abc<b>def<i>ghi</i></b>jkl</p></body>], the range from
    inside [abc] to inside [ghi], and the range of all children of the
    paragraph. *)
Definition nestedDocument : node :=
  Elem (plainAttrs "body")
    [Elem (plainAttrs "p")
       [Text "abc";
        Elem (plainAttrs "b") [Text "def"; Elem (plainAttrs "i") [Text "ghi"]];
        Text "jkl"]].

Definition acrossElements : Range := MkRange [0; 0] 1 [0; 1; 1; 0] 2.

Definition wholeParagraph : Range := MkRange [0] 0 [0] 3.

(** A string of decimal digits. *)
Fixpoint allDigits (s : string) : bool :=
  match s with
  | EmptyString => true
  | String c s' => bool_decide (is_Some (Ascii.is_nat c)) && allDigits s'
  end.

(** The approximate match, in the words of the specification: in [text],
    the substring of length [k] at offset [j] qualifies when [k] is at
    least the minimum length and at most the length of the target, the
    substring lies within the text, and the target contains it. *)
Definition qualifies (target text : string) (j k : nat) : Prop :=
  Anchored.minLength target ≤ k
  ∧ k ≤ (String.length text - j) `min` String.length target
  ∧ j + Anchored.minLength target ≤ String.length text
  ∧ contains (JsString.substring text j (j + k)) target.

(** [sub] is the first qualifying substring of [text]: offsets in
    ascending order, and for each offset the lengths in ascending order. *)
Definition firstCandidate (target text sub : string) : Prop :=
  ∃ j k, qualifies target text j k
         ∧ sub = JsString.substring text j (j + k)
         ∧ ∀ j' k', j' < j ∨ (j' = j ∧ k' < k) → ¬ qualifies target text j' k'.

(** [text] has a qualifying substring. *)
Definition hasCandidate (target text : string) : Prop :=
  ∃ j k, qualifies target text j k.

(** A record whose text is no longer in [foxDocument] as it stands. *)
Definition quackRecord : HighlightRecord := Anchored.withText foxRecord "quack brown".

(** The record as the anchored variant saves it, with the selector and the
    XPath of its own span. *)
Definition savedFoxRecord : HighlightRecord :=
  Highlight "highlight-1700000000000-1" "quick brown" "#ffff00" foxUrl 1700000000000
    (Some "#highlight-1700000000000-1")
    (Some ("//*[@id=" +:+ dquote +:+ "highlight-1700000000000-1" +:+ dquote +:+ "]")).

(** A document in which the element with the id of the record holds other
    text, and the text of the record stands in the next paragraph. *)
Definition movedDocument : node :=
  Elem (plainAttrs "body")
    [Elem (plainAttrs "p")
       [Elem (Attrs "span" "highlight-1700000000000-1" highlightClass "#ffff00")
          [Text "quick"];
        Text " brown fox"];
     Elem (plainAttrs "p") [Text "quick brown"]].

(** A text node in which the text of the record occurs twice, and the
    page of the anchored variant on a later visit. *)
Definition twiceDocument : node :=
  Elem (plainAttrs "body") [Elem (plainAttrs "p") [Text "quick brown, quick brown"]].

Definition savedFoxPage : Page :=
  MkPage foxDocument {[ foxUrl := [savedFoxRecord] ]} true 0 foxUrl Complete.

(** ** The popup and the background script

    These see the whole of [browser.storage.local]: under the key
    [defaultHighlightColor] a colour, a string; under the URL of a page,
    and under its backup key, a collection of records. *)

Inductive Stored :=
| StoredString (s : string)
| StoredArray (highlights : list HighlightRecord).

Definition Store := gmap string Stored.

Definition defaultHighlightColor : string := "defaultHighlightColor".

(** The entries the content scripts keep, as part of the whole storage. *)
Definition pageEntries (entries : gmap string (list HighlightRecord)) : Store :=
  StoredArray <$> entries.

Module Background.

(** [result.defaultHighlightColor || '#ffff00']: a missing value and the
    empty string give the default. *)
Definition getDefaultColor (result : Store) : Stored :=
  match result !! defaultHighlightColor with
  | Some (StoredString color) =>
      if JsString.truthy color then StoredString color else StoredString "#ffff00"
  | Some (StoredArray highlights) => StoredArray highlights
  | None => StoredString "#ffff00"
  end.

(** [setDefaultColor]: [accepted] tells whether the write resolves; the
    answer is its [success]. *)
Definition setDefaultColor (accepted : bool) (color : string) (s : Store) : bool * Store :=
  if accepted then (true, <[defaultHighlightColor := StoredString color]> s)
  else (false, s).

(** [clearAllData]: [clear()], then the default colour is written again;
    either call may reject, which ends the function with a failure. *)
Definition clearAllData (cleared reset : bool) (s : Store) : bool * Store :=
  if cleared then
    if reset then (true, {[ defaultHighlightColor := StoredString "#ffff00" ]})
    else (false, ∅)
  else (false, s).

End Background.

Module Popup.

(** [saveDefaultColor]: a rejected write is logged. *)
Definition saveDefaultColor (accepted : bool) (color : string) (s : Store) : Store :=
  if accepted then <[defaultHighlightColor := StoredString color]> s else s.

(** [getAllWebsitesWithHighlights], and the same loop in
    [manageHighlights]: the entries whose key is not the colour key and
    starts with [http], and whose value is an array that is not empty. *)
Definition getAllWebsitesWithHighlights (result : Store)
    : gmap string (list HighlightRecord) :=
  map_imap (λ key value,
    if bool_decide (key ≠ defaultHighlightColor) && String.prefix "http" key then
      match value with
      | StoredArray highlights =>
          if bool_decide (0 < length highlights) then Some highlights else None
      | StoredString _ => None
      end
    else None) result.

(** [truncateText] *)
Definition truncateText (text : string) (maxLength : nat) : string :=
  if bool_decide (String.length text ≤ maxLength) then text
  else JsString.substring text 0 maxLength +:+ "...".

End Popup.

(** ** Counting elements, and notions for the further properties *)

(** The number of elements of a tree whose attributes satisfy [P]. *)
Definition countElements (P : attrs → bool) (n : node) : nat :=
  length (filter (λ e, P e.2.1 = true) (elements n)).

Definition hasId (i : string) (a : attrs) : bool := bool_decide (id a = i).

(** The root of the tree is an element whose attributes satisfy [P]. *)
Definition rootIs (P : attrs → bool) (n : node) : bool :=
  match n with
  | Elem a _ => P a
  | Text _ => false
  end.

(** Every live highlight of [b] shows a record of [highlights]: its id,
    its text as text content, its colour as background colour. *)
Definition showsOnly (highlights : list HighlightRecord) (b : node) : Prop :=
  ∀ p a cs,
    nodeAt p b = Some (Elem a cs) → isHighlight a = true →
    ∃ h, h ∈ highlights ∧ id a = h_id h ∧ textContents cs = h_text h
         ∧ backgroundColor a = h_color h.

(** [pieces.join(sep)] for a list that is not empty. *)
Fixpoint join (sep : string) (pieces : list string) : string :=
  match pieces with
  | [] => EmptyString
  | s :: rest =>
      match rest with
      | [] => s
      | _ :: _ => s +:+ sep +:+ join sep rest
      end
  end.

(** [pieces] is what lies between the matches of [pat] when a text is
    read from left to right: in a piece followed by [pat] no occurrence of
    [pat] starts before the end of the piece, and the last piece does not
    contain [pat]. *)
Fixpoint isSplit (pat : string) (pieces : list string) : Prop :=
  match pieces with
  | [] => False
  | s :: rest =>
      match rest with
      | [] => ¬ contains pat s
      | _ :: _ =>
          (∀ j, j < String.length s → ¬ occursAt (s +:+ pat) pat j) ∧ isSplit pat rest
      end
  end.

(** How the source of a regular expression reads when it is built of
    plain pattern characters and of escaped syntax characters: the literal
    it matches.  [None] stands for every other source.  The syntax
    characters of the grammar are [^ $ \ . * + ? ( ) [ ] { } |]. *)
Definition isSyntaxCharacter (c : Ascii.ascii) : bool :=
  bool_decide (c ∈ String.list_ascii_of_string "^$\.*+?()[]{}|").

Fixpoint literalOfPattern (source : string) : option string :=
  match source with
  | EmptyString => Some EmptyString
  | String c rest =>
      if bool_decide (c = Anchored.backslash) then
        match rest with
        | String d rest' =>
            if isSyntaxCharacter d then String d <$> literalOfPattern rest' else None
        | EmptyString => None
        end
      else if isSyntaxCharacter c then None
      else String c <$> literalOfPattern rest
  end.

(** In the variant with the backup key, the entry under the URL of the
    page, when there is one, is the entry under the backup key. *)
Definition backupMirrors (w : Page) : Prop :=
  storage w !! url w = None
  ∨ storage w !! url w = storage w !! Anchored.backupKey (url w).

(** What the user and the browser make the variant with the backup key do,
    and what happens around it. *)
Inductive AnchoredStep `{Platform} : Page → Page → Prop :=
| AnchoredHighlight color now selection w :
    AnchoredStep w (Anchored.highlightSelection color now selection w).2
| AnchoredClearAll w :
    AnchoredStep w (Anchored.clearAllHighlights w).2
| AnchoredRestore w :
    AnchoredStep w (Anchored.restoreHighlights w)
| AnchoredMutation element w :
    AnchoredStep w (Anchored.checkForLostHighlights element w)
| AnchoredStorageMode f w :
    AnchoredStep w (setWritable f w)
| AnchoredDocument b w :
    AnchoredStep w (setBody b w)
| AnchoredReadyState r w :
    AnchoredStep w (setReadyState r w).

(** The text node a restoration of the anchored variant works on, if any:
    the one the loop of [findAndHighlightText] stops at, under the element
    the anchors lead to, or the one [searchAndHighlightText] finds. *)
Definition chosenTextNode `{Platform} (h : HighlightRecord) (b : node) : option path :=
  match Anchored.targetElement h b with
  | Some el => Anchored.exactMatch (h_text h) b (Anchored.textNodesOf el b)
  | None =>
      match Anchored.search (h_text h) b with
      | Anchored.FoundExact p => Some p
      | Anchored.FoundPartial p _ => Some p
      | Anchored.NotFound => None
      end
  end.

(** ** Records as the scripts save them *)







(** ** A selection of several ranges *)

(** A table row with an empty cell and a cell with text, and the two
    cells selected as Firefox keeps such a selection: one range for each
    cell, in document order. *)
Definition cellsDocument : node :=
  Elem (plainAttrs "body")
    [Elem (plainAttrs "table")
       [Elem (plainAttrs "tbody")
          [Elem (plainAttrs "tr")
             [Elem (plainAttrs "td") [];
              Elem (plainAttrs "td") [Text "quick brown"]]]]].

Definition cellsSelection : Selection :=
  [MkRange [0; 0; 0] 0 [0; 0; 0] 1; MkRange [0; 0; 0] 1 [0; 0; 0] 2].

(** * Properties *)

(** ** Strings *)

Lemma str_app_cons c s t : String c s +:+ t = String c (s +:+ t).
Proof. reflexivity. Qed.

Lemma str_app_empty_l s : EmptyString +:+ s = s.
Proof. reflexivity. Qed.

Lemma str_app_empty_r s : s +:+ EmptyString = s.
Proof. induction s as [|c s IH]; [done|]. by rewrite str_app_cons, IH. Qed.

Lemma str_app_assoc (s t u : string) : (s +:+ t) +:+ u = s +:+ t +:+ u.
Proof. induction s as [|c s IH]; [done|]. by rewrite !str_app_cons, IH. Qed.

Lemma str_length_app (s t : string) :
  String.length (s +:+ t) = String.length s + String.length t.
Proof. induction s as [|c s IH]; [done|]. rewrite str_app_cons. simpl. by rewrite IH. Qed.

Lemma str_take_drop n s : JsString.take n s +:+ JsString.drop n s = s.
Proof.
  revert s. induction n as [|n IH]; intros [|c s]; simpl; try done.
  by rewrite str_app_cons, IH.
Qed.

Lemma str_length_take n s : String.length (JsString.take n s) = n `min` String.length s.
Proof. revert s. induction n as [|n IH]; intros [|c s]; simpl; try done. by rewrite IH. Qed.

Lemma str_length_drop n s : String.length (JsString.drop n s) = String.length s - n.
Proof. revert s. induction n as [|n IH]; intros [|c s]; simpl; try done. Qed.

Lemma str_take_app_length s t : JsString.take (String.length s) (s +:+ t) = s.
Proof. induction s as [|c s IH]; simpl; [by destruct t|]. by rewrite IH. Qed.

Lemma str_drop_app_length s t : JsString.drop (String.length s) (s +:+ t) = t.
Proof. induction s as [|c s IH]; simpl; [by destruct t|]. done. Qed.

Lemma str_drop_drop n m s : JsString.drop n (JsString.drop m s) = JsString.drop (m + n) s.
Proof.
  revert s. induction m as [|m IH]; intros s; [done|].
  destruct s as [|c s]; simpl; [by destruct n|]. apply IH.
Qed.

Lemma str_take_own_prefix i s r :
  i ≤ String.length s → JsString.take i (JsString.take i s +:+ r) = JsString.take i s.
Proof.
  intros ?. rewrite <-(str_take_app_length (JsString.take i s) r) at 2.
  f_equal. rewrite str_length_take. lia.
Qed.

Lemma str_drop_own_prefix i s r :
  i ≤ String.length s → JsString.drop i (JsString.take i s +:+ r) = r.
Proof.
  intros ?. rewrite <-(str_drop_app_length (JsString.take i s) r) at 2.
  f_equal. rewrite str_length_take. lia.
Qed.

(** [substring] within bounds is the part between the two offsets. *)
Lemma substring_in_bounds s a b :
  a ≤ b ≤ String.length s →
  JsString.substring s a b = JsString.take (b - a) (JsString.drop a s).
Proof.
  intros ?. unfold JsString.substring.
  by rewrite (Nat.min_l a), (Nat.min_l b), Nat.max_r, Nat.min_l by lia.
Qed.

Lemma substring_split s a b :
  a ≤ b ≤ String.length s →
  s = JsString.take a s +:+ JsString.substring s a b +:+ JsString.drop b s.
Proof.
  intros ?. rewrite substring_in_bounds by done.
  rewrite <-(str_take_drop a s) at 1. f_equal.
  rewrite <-(str_take_drop (b - a) (JsString.drop a s)) at 1. f_equal.
  rewrite str_drop_drop. f_equal. lia.
Qed.

Lemma prefix_spec pat text :
  String.prefix pat text = true ↔ ∃ after, text = pat +:+ after.
Proof.
  revert pat. induction text as [|c text IH]; intros [|d pat]; simpl.
  - split; [by exists EmptyString|done].
  - split; [done|]. intros [after ?]. by rewrite str_app_cons in *.
  - split; [by eexists|done].
  - destruct (Ascii.ascii_dec d c) as [->|Hne].
    + rewrite IH. split; intros [after Ha]; exists after.
      * by rewrite str_app_cons, Ha.
      * rewrite str_app_cons in Ha. by simplify_eq.
    + split; [done|]. intros [after Ha]. rewrite str_app_cons in Ha. by simplify_eq.
Qed.

Lemma occursAt_0 text pat : occursAt text pat 0 ↔ String.prefix pat text = true.
Proof.
  rewrite prefix_spec. split.
  - intros ([|] & after & -> & ?); [by exists after|done].
  - intros [after ->]. by exists EmptyString, after.
Qed.

Lemma occursAt_S c t pat i : occursAt (String c t) pat (S i) ↔ occursAt t pat i.
Proof.
  split.
  - intros ([|d before] & after & Heq & Hlen); [done|].
    rewrite str_app_cons in Heq. simplify_eq/=. by exists before, after.
  - intros (before & after & -> & <-). by exists (String c before), after.
Qed.

Lemma occursAt_empty pat i : occursAt EmptyString pat (S i) → False.
Proof. intros ([|] & after & Heq & Hlen); [done|]. by rewrite str_app_cons in Heq. Qed.

Lemma indexOf_unfold text pat :
  JsString.indexOf text pat =
  if String.prefix pat text then Some 0
  else match text with
       | EmptyString => None
       | String _ t => S <$> JsString.indexOf t pat
       end.
Proof. by destruct text. Qed.

(** [indexOf] yields the offset of the first occurrence. *)
Lemma indexOf_Some text pat i :
  JsString.indexOf text pat = Some i ↔
  occursAt text pat i ∧ ∀ j, j < i → ¬ occursAt text pat j.
Proof.
  revert i. induction text as [|c t IH]; intros i; rewrite indexOf_unfold.
  - destruct (String.prefix pat EmptyString) eqn:Hp.
    + split.
      * intros [= <-]. split; [by apply occursAt_0|lia].
      * intros [Hi _]. destruct i; [done|]. by apply occursAt_empty in Hi.
    + split; [done|]. intros [Hi _]. destruct i.
      * apply occursAt_0 in Hi. congruence.
      * by apply occursAt_empty in Hi.
  - destruct (String.prefix pat (String c t)) eqn:Hp.
    + split.
      * intros [= <-]. split; [by apply occursAt_0|lia].
      * intros [_ Hmin]. destruct i; [done|].
        destruct (Hmin 0); [lia|]. by apply occursAt_0.
    + destruct i as [|i].
      * split.
        -- destruct (JsString.indexOf t pat); done.
        -- intros [Hi _]. apply occursAt_0 in Hi. congruence.
      * rewrite occursAt_S. split.
        -- destruct (JsString.indexOf t pat) as [k|] eqn:Hk; [|done].
           intros [= ->]. destruct (proj1 (IH i) eq_refl) as [? Hmin]. split; [done|].
           intros [|j] ?.
           ++ rewrite occursAt_0. congruence.
           ++ rewrite occursAt_S. apply Hmin. lia.
        -- intros [Hi Hmin].
           assert (JsString.indexOf t pat = Some i) as ->; [|done].
           apply IH. split; [done|]. intros j ? Hj.
           apply (Hmin (S j)); [lia|]. by apply occursAt_S.
Qed.

Lemma indexOf_None text pat :
  JsString.indexOf text pat = None ↔ ∀ i, ¬ occursAt text pat i.
Proof.
  induction text as [|c t IH]; rewrite indexOf_unfold.
  - destruct (String.prefix pat EmptyString) eqn:Hp.
    + split; [done|]. intros Hno. destruct (Hno 0). by apply occursAt_0.
    + split; [|done]. intros _ [|i] Hi.
      * apply occursAt_0 in Hi. congruence.
      * by apply occursAt_empty in Hi.
  - destruct (String.prefix pat (String c t)) eqn:Hp.
    + split; [done|]. intros Hno. destruct (Hno 0). by apply occursAt_0.
    + destruct (JsString.indexOf t pat) as [k|] eqn:Hk; simpl.
      * split; [done|]. intros Hno. apply indexOf_Some in Hk as [Hk _].
        destruct (Hno (S k)). by apply occursAt_S.
      * split; [|done]. intros _ [|i] Hi.
        -- apply occursAt_0 in Hi. congruence.
        -- apply occursAt_S in Hi. by eapply (proj1 IH).
Qed.

(** [includes] is containment as a substring. *)
Lemma includes_spec text pat :
  JsString.includes text pat = true ↔ ∃ before after, text = before +:+ pat +:+ after.
Proof.
  unfold JsString.includes. rewrite bool_decide_eq_true. split.
  - intros [i Hi]. apply indexOf_Some in Hi as [(before & after & ? & ?) _]. eauto.
  - intros (before & after & Heq).
    destruct (JsString.indexOf text pat) as [i|] eqn:Hi; [by eexists|].
    rewrite indexOf_None in Hi. destruct (Hi (String.length before)).
    by exists before, after.
Qed.

(** ** The document tree *)

Lemma node_ind (P : node → Prop) :
  (∀ s, P (Text s)) →
  (∀ a cs, Forall P cs → P (Elem a cs)) →
  ∀ n, P n.
Proof.
  intros HT HE. fix IH 1. intros [s|a cs]; [apply HT|].
  apply HE. induction cs as [|c cs IHcs]; constructor; [apply IH|apply IHcs].
Qed.

Lemma contains_includes pat text : contains pat text ↔ JsString.includes text pat = true.
Proof. symmetry. apply includes_spec. Qed.

Lemma textPaths_elem a cs p :
  p ∈ textPaths (Elem a cs) ↔ ∃ i c p', cs !! i = Some c ∧ p' ∈ textPaths c ∧ p = i :: p'.
Proof.
  simpl. rewrite list_elem_of_join. split.
  - intros (l & Hp & Hl). apply elem_of_lookup_imap in Hl as (i & ps & -> & Hi).
    rewrite list_lookup_fmap in Hi. destruct (cs !! i) as [c|] eqn:Hc; simplify_eq/=.
    apply list_elem_of_fmap in Hp as (p' & -> & Hp'). eauto 10.
  - intros (i & c & p' & Hc & Hp' & ->). exists (map (cons i) (textPaths c)). split.
    + apply list_elem_of_fmap. eauto.
    + apply elem_of_lookup_imap. exists i, (textPaths c). split; [done|].
      by rewrite list_lookup_fmap, Hc.
Qed.

(** The walker yields text nodes only, and every text node of the tree. *)
Lemma textPaths_spec n p : p ∈ textPaths n ↔ ∃ s, nodeAt p n = Some (Text s).
Proof.
  revert p. induction n as [s|a cs IH] using node_ind; intros p.
  - simpl. rewrite list_elem_of_singleton. split.
    + intros ->. by exists s.
    + intros [s' Hs]. destruct p; [done|]. done.
  - rewrite textPaths_elem. rewrite Forall_forall in IH. split.
    + intros (i & c & p' & Hc & Hp' & ->). simpl. rewrite Hc. simpl.
      apply IH; [|done]. by eapply list_elem_of_lookup_2.
    + intros [s Hs]. destruct p as [|i p']; [done|]. simpl in Hs.
      destruct (cs !! i) as [c|] eqn:Hc; [|done]. simpl in Hs.
      exists i, c, p'. split_and!; [done| |done].
      apply IH; [by eapply list_elem_of_lookup_2|]. by exists s.
Qed.

Lemma getTextNodes_spec root p :
  p ∈ getTextNodes root ↔ p ≠ [] ∧ ∃ s, nodeAt p root = Some (Text s).
Proof.
  destruct root as [s|a cs]; unfold getTextNodes.
  - split; [intros Hp; by apply elem_of_nil in Hp|]. intros [Hp [s' Hs]]. by destruct p.
  - rewrite textPaths_spec. split; [|by intros [_ ?]].
    intros [s Hs]. split; [|by exists s]. by intros ->.
Qed.

Lemma textContents_nil : textContents [] = EmptyString.
Proof. done. Qed.

Lemma textContent_text s : textContent (Text s) = s.
Proof. done. Qed.

Lemma textContents_cons c l : textContents (c :: l) = textContent c +:+ textContents l.
Proof. done. Qed.

Lemma textContents_app l1 l2 : textContents (l1 ++ l2) = textContents l1 +:+ textContents l2.
Proof.
  induction l1 as [|c l1 IH]; [done|].
  by rewrite <-app_comm_cons, !textContents_cons, IH, str_app_assoc.
Qed.

Lemma textContents_singleton c : textContents [c] = textContent c.
Proof. by rewrite textContents_cons, textContents_nil, str_app_empty_r. Qed.

Lemma textContent_elem a cs : textContent (Elem a cs) = textContents cs.
Proof. done. Qed.

Lemma textContents_textChildren s : textContents (textChildren s) = s.
Proof.
  unfold textChildren, JsString.truthy. case_bool_decide; simpl; [by subst|].
  apply textContents_singleton.
Qed.

Lemma textContents_take_drop i cs :
  textContents (take i cs) +:+ textContents (drop i cs) = textContents cs.
Proof. by rewrite <-textContents_app, take_drop. Qed.

Lemma textContents_middle i cs c :
  cs !! i = Some c →
  textContents cs = textContents (take i cs) +:+ textContent c +:+ textContents (drop (S i) cs).
Proof.
  intros Hc. rewrite <-(take_drop_middle cs i c Hc) at 1.
  by rewrite textContents_app, textContents_cons.
Qed.

Lemma textContents_slice a b cs :
  a ≤ b →
  textContents cs =
  textContents (take a cs) +:+ textContents (take (b - a) (drop a cs))
  +:+ textContents (drop b cs).
Proof.
  intros ?. rewrite <-(textContents_take_drop a cs) at 1. f_equal.
  rewrite <-(textContents_take_drop (b - a) (drop a cs)) at 1. f_equal.
  rewrite drop_drop. do 2 f_equal. lia.
Qed.

Lemma concat_app (l1 l2 : list string) :
  JsString.concat (l1 ++ l2) = JsString.concat l1 +:+ JsString.concat l2.
Proof.
  induction l1 as [|s l1 IH]; [done|].
  simpl. change (JsString.concat (l1 ++ l2)) with (foldr String.append EmptyString (l1 ++ l2)) in IH.
  unfold JsString.concat in *. simpl. by rewrite IH, str_app_assoc.
Qed.

(** The walker goes through the document in document order: the data of
    the text nodes it yields, put together in the order in which it yields
    them, is the text content of the tree. *)
Lemma textPaths_in_document_order n :
  JsString.concat ((λ p, default EmptyString (dataAt p n)) <$> textPaths n) = textContent n.
Proof.
  induction n as [s|a cs IH] using node_ind.
  - simpl. unfold JsString.concat. simpl. by rewrite str_app_empty_r.
  - rewrite textContent_elem.
    assert (∀ pre,
      JsString.concat
        ((λ p, default EmptyString (dataAt p (Elem a (pre ++ cs))))
           <$> mjoin (imap (λ i ps, map (cons (length pre + i)) ps) (map textPaths cs)))
      = textContents cs) as Hgen.
    { induction IH as [|c cs Hc _ IHcs]; intros pre; [done|].
      rewrite fmap_cons, imap_cons. simpl mjoin. rewrite fmap_app, concat_app.
      rewrite textContents_cons. f_equal.
      - rewrite Nat.add_0_r, <-Hc. f_equal.
        rewrite <-list_fmap_compose. apply list_fmap_ext. intros _ p _. simpl.
        unfold dataAt. simpl. by rewrite list_lookup_middle.
      - specialize (IHcs (pre ++ [c])). rewrite <-app_assoc in IHcs. simpl in IHcs.
        rewrite <-IHcs. do 3 f_equal. apply imap_ext. intros i ps _. simpl.
        rewrite length_app. simpl. do 2 f_equal. lia. }
    apply (Hgen []).
Qed.

(** ** The loops over the text nodes *)

Lemma exactMatch_unfold target b textNode rest :
  Anchored.exactMatch target b (textNode :: rest) =
  match dataAt textNode b with
  | Some text =>
      if JsString.includes text target then Some textNode
      else Anchored.exactMatch target b rest
  | None => Anchored.exactMatch target b rest
  end.
Proof. unfold dataAt. simpl. by destruct (nodeAt textNode b) as [[]|]. Qed.

Lemma exactMatch_Some target b nodes p :
  Anchored.exactMatch target b nodes = Some p ↔
  ∃ text, firstWith (contains target) b nodes p text.
Proof.
  induction nodes as [|q rest IH]; [split; [done|]; by intros (? & ? & ? & _)|].
  rewrite exactMatch_unfold. destruct (dataAt q b) as [t|] eqn:Hq.
  - destruct (JsString.includes t target) eqn:Hinc.
    + split.
      * intros [= <-]. exists t, 0. split_and!; [done|done|by apply contains_includes|lia].
      * intros (text & [|i] & Hi & Hd & HP & Hmin); [by simplify_eq/=|].
        destruct (Hmin 0 q t); [lia|done|done|by apply contains_includes].
    + rewrite IH. split.
      * intros (text & i & Hi & Hd & HP & Hmin). exists text, (S i).
        split_and!; [done..|]. intros [|j] q' t' ? Hq' Ht'.
        -- simplify_eq/=. rewrite contains_includes. congruence.
        -- apply (Hmin j q' t'); [lia|done..].
      * intros (text & [|i] & Hi & Hd & HP & Hmin).
        -- simplify_eq/=. apply contains_includes in HP. congruence.
        -- exists text, i. split_and!; [done..|]. intros j q' t' ? Hq' Ht'.
           apply (Hmin (S j) q' t'); [lia|done..].
  - rewrite IH. split.
    + intros (text & i & Hi & Hd & HP & Hmin). exists text, (S i).
      split_and!; [done..|]. intros [|j] q' t' ? Hq' Ht'.
      * simplify_eq/=.
      * apply (Hmin j q' t'); [lia|done..].
    + intros (text & [|i] & Hi & Hd & HP & Hmin).
      * simplify_eq/=.
      * exists text, i. split_and!; [done..|]. intros j q' t' ? Hq' Ht'.
        apply (Hmin (S j) q' t'); [lia|done..].
Qed.

Lemma exactMatch_None target b nodes :
  Anchored.exactMatch target b nodes = None ↔ noneWith (contains target) b nodes.
Proof.
  unfold noneWith. induction nodes as [|q rest IH].
  - split; [|done]. intros _ q t Hq. by apply elem_of_nil in Hq.
  - rewrite exactMatch_unfold. destruct (dataAt q b) as [t|] eqn:Hq.
    + destruct (JsString.includes t target) eqn:Hinc.
      * split; [done|]. intros Hno. destruct (Hno q t); [left|done|].
        by apply contains_includes.
      * rewrite IH. split.
        -- intros Hno q' t' [->|?]%elem_of_cons Ht'.
           ++ simplify_eq. rewrite contains_includes. congruence.
           ++ by eapply Hno.
        -- intros Hno q' t' ? Ht'. eapply Hno; [by right|done].
    + rewrite IH. split.
      * intros Hno q' t' [->|?]%elem_of_cons Ht'; [congruence|by eapply Hno].
      * intros Hno q' t' ? Ht'. eapply Hno; [by right|done].
Qed.

(** The loop of [content.js] finds the same node as [exactMatch] and
    replaces it by the fragment. *)
Lemma locate_exactMatch h b nodes :
  Content.locate h b nodes =
  match Anchored.exactMatch (h_text h) b nodes with
  | Some p => replaceChild p (Content.fragment h (default EmptyString (dataAt p b)) (h_text h)) b
  | None => b
  end.
Proof.
  induction nodes as [|q rest IH]; [done|]. rewrite exactMatch_unfold. simpl.
  unfold dataAt. destruct (nodeAt q b) as [[t|]|] eqn:Hq; try done.
  destruct (JsString.includes t (h_text h)); [|done]. by rewrite Hq.
Qed.

(** The fragment of [content.js] wraps the first occurrence of the target and
    keeps the text around it. *)
Lemma fragment_first_occurrence h text target :
  contains target text →
  ∃ before after,
    text = before +:+ target +:+ after
    ∧ (∀ j, j < String.length before → ¬ occursAt text target j)
    ∧ Content.fragment h text target =
      textChildren before ++ [Content.highlightSpan h target] ++ textChildren after.
Proof.
  intros Hc. apply contains_includes in Hc. unfold JsString.includes in Hc.
  apply bool_decide_eq_true in Hc as [i Hi].
  pose proof Hi as [(before & after & Heq & Hlen) Hmin]%indexOf_Some.
  exists before, after. split_and!; [done|by rewrite Hlen|].
  unfold Content.fragment. rewrite Hi. simpl.
  assert (JsString.substring text 0 i = before) as ->.
  { rewrite substring_in_bounds.
    - rewrite Nat.sub_0_r. subst. simpl. apply str_take_app_length.
    - subst. rewrite str_length_app. lia. }
  assert (JsString.substringFrom text (i + String.length target) = after) as ->; [|done].
  unfold JsString.substringFrom. subst text i.
  by rewrite <-str_drop_drop, !str_drop_app_length.
Qed.

(** ** Restoring twice (claim C1) *)

(** C1, at its failing input.  [content.js] restores a record without
    looking for a live element with its id: a second pass of
    [restoreHighlights] over the same document finds the text inside the span
    of the first pass and wraps it again, so that two live spans carry the
    id of the one record.  The path taken by the mutation observer,
    [checkForLostHighlights], has the check and leaves the document alone. *)
Theorem restore_twice_wraps_twice :
  let once := Content.restoreHighlights foxPage in
  let twice := Content.restoreHighlights once in
  body once =
    Elem (plainAttrs "body") [Elem (plainAttrs "p") [Text "The "; foxSpan; Text " fox"]]
  ∧ body twice =
    Elem (plainAttrs "body")
      [Elem (plainAttrs "p")
         [Text "The ";
          Elem (Attrs "span" (h_id foxRecord) highlightClass "#ffff00") [foxSpan];
          Text " fox"]]
  ∧ length (withId (h_id foxRecord) (body once)) = 1
  ∧ length (withId (h_id foxRecord) (body twice)) = 2
  ∧ body (Content.checkForLostHighlights [] once) = body once.
Proof. vm_compute. done. Qed.

(** ** Replacing every match *)

Lemma replaceAll_go_unfold pat f text :
  JsString.replaceAll_go pat f 0 text =
  if String.prefix pat text then
    f pat +:+
    match text with
    | String c t =>
        if bool_decide (pat = EmptyString) then String c (JsString.replaceAll_go pat f 0 t)
        else JsString.replaceAll_go pat f (String.length pat - 1) t
    | EmptyString => EmptyString
    end
  else
    match text with
    | String c t => String c (JsString.replaceAll_go pat f 0 t)
    | EmptyString => EmptyString
    end.
Proof. by destruct text. Qed.

Lemma replaceAll_go_skip pat f s after :
  JsString.replaceAll_go pat f (String.length s) (s +:+ after) =
  JsString.replaceAll_go pat f 0 after.
Proof. induction s as [|c s IH]; [by destruct after|]. rewrite str_app_cons. simpl. apply IH. Qed.

(** With a target that is not empty, the first occurrence is put in markup
    and the replacement goes on behind it. *)
Lemma replaceAll_first pat f before after :
  pat ≠ EmptyString →
  (∀ j, j < String.length before → ¬ occursAt (before +:+ pat +:+ after) pat j) →
  JsString.replaceAll (before +:+ pat +:+ after) pat f =
  before +:+ f pat +:+ JsString.replaceAll after pat f.
Proof.
  intros Hpat. unfold JsString.replaceAll.
  induction before as [|c before IH]; intros Hmin.
  - rewrite !str_app_empty_l, replaceAll_go_unfold.
    assert (String.prefix pat (pat +:+ after) = true) as -> by (apply prefix_spec; eauto).
    f_equal. destruct pat as [|d pat]; [done|].
    rewrite str_app_cons, bool_decide_eq_false_2 by done.
    simpl. rewrite Nat.sub_0_r. apply replaceAll_go_skip.
  - rewrite !str_app_cons, replaceAll_go_unfold.
    assert (String.prefix pat (String c (before +:+ pat +:+ after)) = false) as ->.
    { apply not_true_is_false. intros Hp%occursAt_0.
      apply (Hmin 0); [simpl; lia|]. by rewrite str_app_cons. }
    f_equal. apply IH. intros j ? Hj. apply (Hmin (S j)); [simpl; lia|].
    rewrite str_app_cons. by apply occursAt_S.
Qed.

Lemma fox_is_first :
  firstWith (contains "quick brown") foxDocument (getTextNodes foxDocument)
            [0; 0] "The quick brown fox".
Proof.
  exists 0. split_and!; [done|done| |intros; lia].
  by apply contains_includes.
Qed.

(** ** The fox example (claim C4) *)

(** C4.  In any document whose first text node containing [quick brown] is
    the text node [The quick brown fox], restoring the record puts exactly
    one highlight span, with the text [quick brown], in the place of that
    text node, between the text nodes [The ] and [ fox]: as children of the
    parent in [content.js], and as children of the plain span that takes
    the place of the text node in the anchored variant. *)
Theorem fox_restored_between_siblings (b : node) (p : path) :
  firstWith (contains "quick brown") b (getTextNodes b) p "The quick brown fox" →
  Content.restoreHighlight foxRecord b =
    replaceChild p [Text "The "; foxSpan; Text " fox"] b
  ∧ Anchored.restoreHighlight (H := Plain.platform) foxRecord b =
    replaceChild p [Elem (plainAttrs "span") [Text "The "; foxSpan; Text " fox"]] b
  ∧ textContent foxSpan = "quick brown"
  ∧ liveHighlights (Elem (plainAttrs "p") [Text "The "; foxSpan; Text " fox"])
    = [([1], (Attrs "span" (h_id foxRecord) highlightClass (h_color foxRecord),
             [Text "quick brown"]))].
Proof.
  intros Hfirst.
  assert (Anchored.exactMatch "quick brown" b (getTextNodes b) = Some p) as Hex.
  { apply exactMatch_Some. eauto. }
  destruct Hfirst as (i & _ & Hd & _).
  split_and!; [| |done|done].
  - unfold Content.restoreHighlight.
    assert (negb (JsString.truthy (h_text foxRecord))
            || bool_decide (JsString.trim (h_text foxRecord) = EmptyString) = false) as ->
      by done.
    rewrite locate_exactMatch. simpl h_text. rewrite Hex, Hd. done.
  - unfold Anchored.restoreHighlight, Anchored.searchAndHighlightText, Anchored.search.
    simpl. rewrite Hex. unfold Anchored.highlightTextNode.
    unfold dataAt in Hd. destruct (nodeAt p b) as [[t|]|]; simplify_eq. done.
Qed.

Lemma fox_restored_between_siblings_witness :
  Content.restoreHighlight foxRecord foxDocument =
    Elem (plainAttrs "body") [Elem (plainAttrs "p") [Text "The "; foxSpan; Text " fox"]]
  ∧ Anchored.restoreHighlight (H := Plain.platform) foxRecord foxDocument =
    Elem (plainAttrs "body")
      [Elem (plainAttrs "p") [Elem (plainAttrs "span") [Text "The "; foxSpan; Text " fox"]]].
Proof.
  destruct (fox_restored_between_siblings foxDocument [0; 0] fox_is_first)
    as (H1 & H2 & _).
  split; [exact H1|exact H2].
Defined.

(** ** The markup around the first match *)

Lemma highlightTextNode_first `{Platform} h b p text before after :
  h_text h ≠ EmptyString →
  dataAt p b = Some text →
  text = before +:+ h_text h +:+ after →
  (∀ j, j < String.length before → ¬ occursAt text (h_text h) j) →
  Anchored.highlightTextNode p h b =
  replaceChild p
    [Elem (plainAttrs "span")
       (parseFragment (before +:+ Anchored.markup h (h_text h)
                       +:+ JsString.replaceAll after (h_text h) (Anchored.markup h)))] b.
Proof.
  intros Hne Hd Heq Hmin. unfold Anchored.highlightTextNode, dataAt in *.
  destruct (nodeAt p b) as [[t|]|]; simplify_eq.
  assert (JsString.includes (before +:+ h_text h +:+ after) (h_text h) = true) as ->
    by (apply includes_spec; eauto).
  by rewrite replaceAll_first.
Qed.

(** ** Creation and the storage (claim C5) *)

Lemma selectionToString_one range b :
  selectionToString [range] b = rangeToString range b.
Proof. unfold selectionToString. simpl. apply str_app_empty_r. Qed.

Lemma createHighlight_storage range color now w :
  storage (Content.createHighlight range color now w).1 = storage w
  ∧ writable (Content.createHighlight range color now w).1 = writable w
  ∧ url (Content.createHighlight range color now w).1 = url w.
Proof.
  unfold Content.createHighlight.
  destruct (deleteContents range (body w)) as [[b pt]|]; [|done].
  by destruct (insertNode pt _ b).
Qed.

Lemma createHighlight_text range color now w w' i text :
  Content.createHighlight range color now w = (w', Some (i, text)) →
  text = rangeToString range (body w).
Proof.
  unfold Content.createHighlight.
  destruct (deleteContents range (body w)) as [[b pt]|]; [|done].
  destruct (insertNode pt _ b); by intros [= <- <- <-].
Qed.

Lemma createHighlight_writable range color now w f :
  Content.createHighlight range color now (setWritable f w) =
  (setWritable f (Content.createHighlight range color now w).1,
   (Content.createHighlight range color now w).2).
Proof.
  unfold Content.createHighlight. simpl.
  destruct (deleteContents range (body w)) as [[b pt]|]; [|done].
  by destruct (insertNode pt _ b).
Qed.

(** C5, at its failing input and beyond it.  The answer of
    [highlightSelection] is computed without regard to the outcome of the
    write: it is the same whether the storage accepts writes or rejects
    them, and when it rejects them nothing is stored.  For the selection of
    [quick brown] on a page whose storage rejects writes the answer is
    [Success], the span is in the document, and the storage holds no
    record. *)
Theorem rejected_write_is_answered_with_success :
  (∀ color now selection w,
     (Content.highlightSelection color now selection (setWritable false w)).1
     = (Content.highlightSelection color now selection (setWritable true w)).1
     ∧ storage (Content.highlightSelection color now selection (setWritable false w)).2
       = storage w)
  ∧ (let page := setWritable false (freshPage foxDocument foxUrl) in
     let result := Content.highlightSelection "#ffff00" 1700000000000 foxSelection page in
     result.1 = Success "highlight-1700000000000-1"
     ∧ storage result.2 !! foxUrl = None
     ∧ body result.2
       = Elem (plainAttrs "body") [Elem (plainAttrs "p") [Text "The "; foxSpan; Text " fox"]]).
Proof.
  split; [|by vm_compute].
  intros color now selection w. unfold Content.highlightSelection. simpl.
  destruct (negb _); [done|]. destruct selection as [|range rest]; [done|].
  rewrite !createHighlight_writable.
  pose proof (createHighlight_storage range color now w) as (Hs & _).
  destruct (Content.createHighlight range color now w) as [w1 [[i text]|]]; simpl in *.
  - split; [done|]. by unfold Content.saveHighlight, storageSet.
  - by split.
Qed.

Lemma textsNonEmpty_insert w key highlights :
  textsNonEmpty w →
  (∀ h, h ∈ highlights → h_text h ≠ EmptyString) →
  textsNonEmpty (setStorage (<[key := highlights]> (storage w)) w).
Proof.
  intros Hw Hnew key' hs h. simpl. rewrite lookup_insert.
  case_decide; [|by apply Hw]. intros [= <-]. apply Hnew.
Qed.

Lemma textsNonEmpty_delete w key :
  textsNonEmpty w → textsNonEmpty (setStorage (delete key (storage w)) w).
Proof.
  intros Hw key' hs h. simpl. rewrite lookup_delete.
  case_decide; [done|by apply Hw].
Qed.

Lemma textsNonEmpty_storage w w' :
  storage w' = storage w → textsNonEmpty w → textsNonEmpty w'.
Proof. unfold textsNonEmpty. by intros ->. Qed.

Lemma storageGet_nonEmpty w key h :
  textsNonEmpty w → h ∈ storageGet key w → h_text h ≠ EmptyString.
Proof.
  unfold storageGet. intros Hw. destruct (storage w !! key) as [hs|] eqn:Hk; simpl.
  - intros Hh. by eapply Hw.
  - intros Hh. by apply elem_of_nil in Hh.
Qed.

(** What holds of the page and is kept by every restoration holds after
    [checkForLostHighlights]. *)
Lemma checkForLostHighlights_inv (Q : Page → Prop) element w :
  Q w →
  (∀ h w', Q w' → Q (setBody (Content.restoreHighlight h (body w')) w')) →
  Q (Content.checkForLostHighlights element w).
Proof.
  intros Hw Hstep. unfold Content.checkForLostHighlights.
  generalize (storageGet (url w) w). intros hs.
  revert w element Hw. induction hs as [|h hs IH]; intros w element Hw; [done|]. simpl.
  destruct (nodeAt element (body w)); [|by apply IH].
  destruct (_ && _); apply IH; [by apply Hstep|done].
Qed.

Lemma checkForLostHighlights_storage element w :
  storage (Content.checkForLostHighlights element w) = storage w.
Proof. by apply (checkForLostHighlights_inv (λ w', storage w' = storage w)). Qed.

Lemma trim_not_empty s : JsString.trim s ≠ EmptyString → s ≠ EmptyString.
Proof. by intros Ht ->. Qed.

(** ** The backup key (claim C10) *)

Lemma backupKey_ne u : Anchored.backupKey u ≠ u.
Proof.
  unfold Anchored.backupKey. intros Heq.
  apply (f_equal String.length) in Heq. rewrite str_length_app in Heq. simpl in Heq. lia.
Qed.

Lemma applyHighlights_nil `{Platform} n b : Nat.iter n (Anchored.applyHighlights []) b = b.
Proof. induction n as [|n IH]; [done|]. simpl. by rewrite IH. Qed.

(** With nothing under the URL and a collection under the backup key,
    [restoreHighlights] writes the collection back under the URL and applies
    it, once on a document that has finished loading and twice on one that
    has not. *)
Lemma restoreHighlights_from_backup `{Platform} w highlights :
  writable w = true →
  storageGet (url w) w = [] →
  storage w !! Anchored.backupKey (url w) = Some highlights →
  storage (Anchored.restoreHighlights w) !! url w = Some highlights
  ∧ storage (Anchored.restoreHighlights w) !! Anchored.backupKey (url w) = Some highlights
  ∧ body (Anchored.restoreHighlights w)
    = Nat.iter (scheduledRuns (readyState w)) (Anchored.applyHighlights highlights) (body w).
Proof.
  intros Hw Hmain Hbackup. unfold Anchored.restoreHighlights.
  rewrite Hmain, Hbackup. simpl. unfold storageSet. rewrite Hw. simpl.
  pose proof (backupKey_ne (url w)).
  destruct highlights as [|h highlights]; cbn [length bool_decide]; simpl bool_decide.
  - rewrite applyHighlights_nil. simpl. by rewrite lookup_insert_eq, lookup_insert_ne.
  - cbn [body storage setBody setStorage readyState].
    by rewrite lookup_insert_eq, lookup_insert_ne.
Qed.

(** C10.  On a page whose storage accepts writes, [saveHighlight] puts the
    collection, the new record at its end, under the URL and under the
    backup key; [clearAllHighlights] unwraps the live highlights and removes
    the entry under the URL only; the next [restoreHighlights] finds it
    missing, takes the collection from the backup key, writes it back under
    the URL and applies it to the document, in one run when the document
    has finished loading and in two when it has not.  The same holds for
    any page where the URL has no records and the backup key has some. *)
Theorem cleared_highlights_come_back `{Platform}
    (w : Page) (highlightId textContent color : string) (now : N) (el : path) :
  writable w = true →
  getElementById highlightId (body w) = Some el →
  let highlights :=
    storageGet (url w) w
    ++ [Highlight highlightId textContent color (url w) now
          (Some (Anchored.generateSelector el (body w)))
          (Some (Anchored.generateXPath el (body w)))] in
  let saved := Anchored.saveHighlight highlightId textContent color now w in
  let cleared := (Anchored.clearAllHighlights saved).2 in
  let restored := Anchored.restoreHighlights cleared in
  (storage saved !! url w = Some highlights
   ∧ storage saved !! Anchored.backupKey (url w) = Some highlights)
  ∧ (body cleared = unwrapHighlights (body w)
     ∧ storage cleared !! url w = None
     ∧ storage cleared !! Anchored.backupKey (url w) = Some highlights)
  ∧ (storage restored !! url w = Some highlights
     ∧ body restored
       = Nat.iter (scheduledRuns (readyState w)) (Anchored.applyHighlights highlights)
           (unwrapHighlights (body w)))
  ∧ (∀ w' backup,
       writable w' = true →
       storageGet (url w') w' = [] →
       storage w' !! Anchored.backupKey (url w') = Some backup →
       storage (Anchored.restoreHighlights w') !! url w' = Some backup
       ∧ body (Anchored.restoreHighlights w')
         = Nat.iter (scheduledRuns (readyState w')) (Anchored.applyHighlights backup)
             (body w')).
Proof.
  intros Hw Hel highlights saved cleared restored.
  pose proof (backupKey_ne (url w)) as Hne.
  assert (saved = setStorage (<[Anchored.backupKey (url w) := highlights]>
                                (<[url w := highlights]> (storage w))) w) as Hsaved.
  { unfold saved, Anchored.saveHighlight. rewrite Hel. unfold storageSet.
    rewrite Hw. simpl. by rewrite Hw. }
  assert (cleared = setStorage (delete (url w) (storage saved))
                      (setBody (unwrapHighlights (body w)) saved)) as Hcleared.
  { unfold cleared, Anchored.clearAllHighlights, Anchored.clearHighlightsFromStorage,
      storageRemove. simpl. rewrite Hsaved. simpl. by rewrite Hw. }
  assert (storage cleared !! url w = None
          ∧ storage cleared !! Anchored.backupKey (url w) = Some highlights) as [Hc1 Hc2].
  { rewrite Hcleared, Hsaved. simpl.
    by rewrite lookup_delete_eq, lookup_delete_ne, lookup_insert_eq. }
  split_and!.
  - rewrite Hsaved. simpl. by rewrite lookup_insert_ne, lookup_insert_eq.
  - rewrite Hsaved. simpl. by rewrite lookup_insert_eq.
  - by rewrite Hcleared.
  - done.
  - done.
  - assert (url cleared = url w) as Hu by (by rewrite Hcleared, Hsaved).
    rewrite <-Hu. apply restoreHighlights_from_backup.
    + by rewrite Hcleared, Hsaved.
    + unfold storageGet. by rewrite Hu, Hc1.
    + by rewrite Hu.
  - assert (url cleared = url w) as Hu by (by rewrite Hcleared, Hsaved).
    assert (body cleared = unwrapHighlights (body w)) as <- by (by rewrite Hcleared).
    assert (readyState cleared = readyState w) as <- by (by rewrite Hcleared, Hsaved).
    apply restoreHighlights_from_backup.
    + by rewrite Hcleared, Hsaved.
    + unfold storageGet. by rewrite Hu, Hc1.
    + by rewrite Hu.
  - intros w' backup Hw' Hmain Hbackup.
    by destruct (restoreHighlights_from_backup w' backup Hw' Hmain Hbackup) as (? & _ & ?).
Qed.

Lemma cleared_highlights_come_back_witness :
  let saved :=
    Anchored.saveHighlight "highlight-1700000000000-1" "quick brown" "#ffff00"
      1700000000000 foxHighlighted in
  let restored :=
    Anchored.restoreHighlights (H := Plain.platform) (Anchored.clearAllHighlights saved).2 in
  storage (Anchored.clearAllHighlights saved).2 !! foxUrl = None
  ∧ storage restored !! foxUrl = storage saved !! Anchored.backupKey foxUrl
  ∧ length (liveHighlights (body (Anchored.clearAllHighlights saved).2)) = 0
  ∧ length (liveHighlights (body restored)) = 1.
Proof.
  assert (writable foxHighlighted = true) as Hw by done.
  assert (getElementById "highlight-1700000000000-1" (body foxHighlighted) = Some [0; 1])
    as Hel by done.
  destruct (cleared_highlights_come_back (H := Plain.platform) foxHighlighted
              "highlight-1700000000000-1" "quick brown" "#ffff00" 1700000000000 [0; 1]
              Hw Hel) as ((_ & Hb) & (_ & Hc & _) & (Hr & Hbody) & _).
  split_and!.
  - exact Hc.
  - change (url foxHighlighted) with foxUrl in *. by rewrite Hb, Hr.
  - by vm_compute.
  - rewrite Hbody. by vm_compute.
Defined.

(** ** Ranges: the text before, in and after them *)

#[local] Arguments textContent : simpl never.
#[local] Arguments textContents : simpl never.

Lemma take_own_prefix {A} i (l r : list A) : i ≤ length l → take i (take i l ++ r) = take i l.
Proof. intros ?. rewrite take_app_length'; [done|]. rewrite length_take. lia. Qed.

Lemma drop_own_prefix {A} i (l r : list A) : i ≤ length l → drop i (take i l ++ r) = r.
Proof. intros ?. rewrite drop_app_length'; [done|]. rewrite length_take. lia. Qed.

Lemma take_S_own_prefix {A} i (l r : list A) x :
  i ≤ length l → take (S i) (take i l ++ x :: r) = take i l ++ [x].
Proof.
  intros ?. replace (S i) with (i + 1) by lia.
  rewrite take_app_add'; [done|]. rewrite length_take. lia.
Qed.

Lemma drop_S_own_prefix {A} i (l r : list A) x :
  i ≤ length l → drop (S i) (take i l ++ x :: r) = r.
Proof.
  intros ?. replace (S i) with (i + 1) by lia.
  rewrite drop_app_add'; [done|]. rewrite length_take. lia.
Qed.

Lemma validBoundary_here o n : validBoundary [] o n = bool_decide (o ≤ nodeLength n).
Proof. done. Qed.

Lemma validBoundary_down i p o n :
  validBoundary (i :: p) o n = true →
  ∃ a cs c, n = Elem a cs ∧ cs !! i = Some c ∧ validBoundary p o c = true.
Proof.
  unfold validBoundary. simpl. destruct n as [|a cs]; [done|].
  destruct (cs !! i) as [c|] eqn:Hc; [|done]. simpl. intros ?. by exists a, cs, c.
Qed.

(** Cutting a node at a boundary point keeps its text: what is before the
    point on one side, what is after it on the other. *)
Lemma splitAt_spec p o n :
  validBoundary p o n = true →
  ∃ l r, splitAt p o n = Some (l, r)
         ∧ textContent l = textBefore p o n
         ∧ textContent r = textAfter p o n
         ∧ textContent n = textBefore p o n +:+ textAfter p o n.
Proof.
  revert n. induction p as [|i p IH]; intros n Hv.
  - rewrite validBoundary_here in Hv. apply bool_decide_eq_true in Hv.
    destruct n as [s|a cs]; simpl in *; rewrite bool_decide_eq_true_2 by done.
    + eexists _, _. split_and!; [done..|]. by rewrite textContent_text, str_take_drop.
    + eexists _, _. split_and!; [done..|].
      by rewrite textContent_elem, textContents_take_drop.
  - apply validBoundary_down in Hv as (a & cs & c & -> & Hc & Hv).
    destruct (IH c Hv) as (l & r & Hs & Hl & Hr & Hlr).
    simpl. rewrite Hc. simpl. rewrite Hs. simpl.
    eexists _, _. split_and!; [done|..].
    + by rewrite textContent_elem, textContents_app, textContents_singleton, Hl.
    + by rewrite textContent_elem, textContents_cons, Hr.
    + rewrite textContent_elem, (textContents_middle i cs c Hc), Hlr.
      by rewrite !str_app_assoc.
Qed.

Lemma validBoundary_elem_here o a cs :
  validBoundary [] o (Elem a cs) = true → o ≤ length cs.
Proof. rewrite validBoundary_here. by intros ?%bool_decide_eq_true. Qed.

(** Extraction: the fragment carries the text of the range, and the text
    before and after the point the range collapses to is the text that was
    before and after the range. *)
Lemma extract_spec sp so ep eo n :
  validBoundary sp so n = true →
  validBoundary ep eo n = true →
  boundaryLe sp so ep eo = true →
  ∃ rem frag q o',
    extract sp so ep eo n = Some (rem, frag, (q, o'))
    ∧ textContents frag = rangeText sp so ep eo n
    ∧ textBefore q o' rem = textBefore sp so n
    ∧ textAfter q o' rem = textAfter ep eo n
    ∧ textContent n = textBefore sp so n +:+ rangeText sp so ep eo n +:+ textAfter ep eo n
    ∧ validBoundary q o' rem = true
    ∧ isElement rem = isElement n.
Proof.
  revert ep n. induction sp as [|i sp IH]; intros [|j ep] n Hs He Hle.
  - (* both boundary points in [n] itself *)
    rewrite validBoundary_here in Hs, He.
    apply bool_decide_eq_true in Hs, He, Hle.
    destruct n as [s|a cs]; simpl in *.
    + rewrite (bool_decide_eq_true_2 (so ≤ eo ≤ String.length s)) by lia.
      case_bool_decide as Heq.
      * subst eo. eexists _, _, _, _. split; [done|]. simpl. split_and!; [ | done | done | | |done].
        -- rewrite substring_in_bounds by lia. by rewrite Nat.sub_diag.
        -- rewrite textContent_text, substring_in_bounds, Nat.sub_diag by lia.
           simpl. by rewrite str_app_empty_l, str_take_drop.
        -- rewrite validBoundary_here. by apply bool_decide_eq_true.
      * eexists _, _, _, _. split; [done|]. simpl. split_and!; [..|done].
        -- by rewrite textContents_singleton.
        -- apply str_take_own_prefix. lia.
        -- apply str_drop_own_prefix. lia.
        -- rewrite textContent_text. apply substring_split. lia.
        -- rewrite validBoundary_here. apply bool_decide_eq_true. simpl.
           rewrite str_length_app, str_length_take. lia.
    + rewrite (bool_decide_eq_true_2 (so ≤ eo ≤ length cs)) by lia.
      eexists _, _, _, _. split; [done|]. simpl. split_and!; [done|..|done].
      * by rewrite take_own_prefix.
      * by rewrite drop_own_prefix.
      * rewrite textContent_elem. by apply textContents_slice.
      * rewrite validBoundary_here. apply bool_decide_eq_true. simpl.
        rewrite length_app, length_take. lia.
  - (* the start in [n], the end below its child [j] *)
    apply validBoundary_down in He as (a & cs & c & -> & Hc & He).
    apply validBoundary_elem_here in Hs. apply bool_decide_eq_true in Hle.
    destruct (splitAt_spec ep eo c He) as (clone & kept & Hsp & Hcl & Hk & Hck).
    simpl. rewrite bool_decide_eq_true_2, Hc by done. simpl. rewrite Hsp. simpl.
    eexists _, _, _, _. split; [done|]. simpl. split_and!; [..|done].
    + by rewrite textContents_app, textContents_singleton, Hcl.
    + by rewrite take_own_prefix.
    + by rewrite drop_own_prefix, textContents_cons, Hk.
    + rewrite textContent_elem, (textContents_middle j cs c Hc), Hck.
      rewrite <-(textContents_take_drop so (take j cs)).
      rewrite take_take, Nat.min_l, take_drop_commute by lia.
      replace (so + (j - so)) with j by lia.
      by rewrite !str_app_assoc.
    + rewrite validBoundary_here. apply bool_decide_eq_true. simpl.
      rewrite length_app, length_take. lia.
  - (* the start below the child [i], the end in [n] *)
    apply validBoundary_down in Hs as (a & cs & c & -> & Hc & Hs).
    apply validBoundary_elem_here in He. apply bool_decide_eq_true in Hle.
    destruct (splitAt_spec sp so c Hs) as (kept & clone & Hsp & Hk & Hcl & Hck).
    pose proof (lookup_lt_Some _ _ _ Hc).
    simpl. rewrite bool_decide_eq_true_2, Hc by done. simpl. rewrite Hsp. simpl.
    eexists _, _, _, _. split; [done|]. simpl. split_and!; [..|done].
    + by rewrite textContents_cons, Hcl.
    + rewrite take_S_own_prefix by lia.
      by rewrite textContents_app, textContents_singleton, Hk.
    + by rewrite drop_S_own_prefix by lia.
    + rewrite textContent_elem, (textContents_middle i cs c Hc), Hck.
      rewrite <-(textContents_take_drop (eo - S i) (drop (S i) cs)).
      rewrite drop_drop. replace (S i + (eo - S i)) with eo by lia.
      by rewrite !str_app_assoc.
    + rewrite validBoundary_here. apply bool_decide_eq_true. simpl.
      rewrite length_app, length_take. simpl. lia.
  - (* both below children of [n] *)
    apply validBoundary_down in Hs as (a & cs & ci & -> & Hci & Hs).
    apply validBoundary_down in He as (a' & cs' & cj & [= <- <-] & Hcj & He).
    pose proof (lookup_lt_Some _ _ _ Hci). pose proof (lookup_lt_Some _ _ _ Hcj).
    simpl in Hle. simpl. destruct (decide (i = j)) as [<-|Hij].
    + simplify_eq. rewrite (bool_decide_eq_false_2 (i < i)) in Hle by lia.
      rewrite (bool_decide_eq_true_2 (i = i)) in Hle by done.
      rewrite (bool_decide_eq_true_2 (i = i)) by done.
      simpl in Hle.
      destruct (IH ep ci Hs He Hle) as (c' & frag & q & o' & Hex & Hf & Hb & Ha & Ht & Hv & Hel).
      rewrite Hci. simpl. rewrite Hex. simpl.
      eexists _, _, _, _. split; [done|]. simpl. split_and!; [done|..|done].
      * rewrite take_insert_ge by lia. rewrite list_lookup_insert_eq by done.
        simpl. by rewrite Hb.
      * rewrite drop_insert_lt by lia. rewrite list_lookup_insert_eq by done.
        simpl. by rewrite Ha.
      * rewrite textContent_elem, (textContents_middle i cs ci Hci), Ht.
        by rewrite !str_app_assoc.
      * unfold validBoundary in *. simpl. by rewrite list_lookup_insert_eq by done.
    + rewrite (bool_decide_eq_false_2 (i = j)) in Hle by done.
      rewrite (bool_decide_eq_false_2 (i = j)) by done.
      rewrite orb_false_r in Hle. apply bool_decide_eq_true in Hle.
      destruct (splitAt_spec sp so ci Hs) as (kepti & clonei & Hspi & Hki & Hcli & Hcki).
      destruct (splitAt_spec ep eo cj He) as (clonej & keptj & Hspj & Hclj & Hkj & Hckj).
      rewrite bool_decide_eq_true_2, Hci, Hcj by done. simpl.
      rewrite Hspi. simpl. rewrite Hspj. simpl.
      eexists _, _, _, _. split; [done|]. simpl. split_and!; [..|done].
      * by rewrite textContents_cons, textContents_app, textContents_singleton, Hcli, Hclj.
      * rewrite take_S_own_prefix by lia.
        by rewrite textContents_app, textContents_singleton, Hki.
      * rewrite drop_S_own_prefix by lia. by rewrite textContents_cons, Hkj.
      * rewrite textContent_elem, (textContents_middle i cs ci Hci), Hcki.
        assert (drop (S i) cs !! (j - S i) = Some cj) as Hcj'.
        { rewrite lookup_drop. rewrite <-Hcj. f_equal. lia. }
        rewrite (textContents_middle _ _ _ Hcj'), Hckj.
        rewrite drop_drop. replace (S i + S (j - S i)) with (S j) by lia.
        by rewrite !str_app_assoc.
      * rewrite validBoundary_here. apply bool_decide_eq_true. simpl.
        rewrite length_app, length_take. simpl. lia.
Qed.

(** Insertion at a boundary point puts the text of the new node between
    the text before the point and the text after it.  Below an element the
    result is one node, an element again. *)
Lemma insertInto_spec q o new n :
  validBoundary q o n = true →
  ∃ l, insertInto q o new n = Some l
       ∧ textContents l = textBefore q o n +:+ textContent new +:+ textAfter q o n
       ∧ (isElement n = true → ∃ n', l = [n'] ∧ isElement n' = true).
Proof.
  revert n. induction q as [|i q IH]; intros n Hv.
  - rewrite validBoundary_here in Hv. apply bool_decide_eq_true in Hv.
    destruct n as [s|a cs]; simpl in *; rewrite bool_decide_eq_true_2 by done.
    + eexists. split; [done|]. split; [|done].
      by rewrite !textContents_cons, textContents_nil, str_app_empty_r, !textContent_text.
    + eexists. split; [done|]. split; [|by eexists].
      by rewrite textContents_singleton, textContent_elem, textContents_app,
           textContents_cons.
  - apply validBoundary_down in Hv as (a & cs & c & -> & Hc & Hv).
    destruct (IH c Hv) as (l & Hl & Ht & _).
    simpl. rewrite Hc. simpl. rewrite Hl. simpl.
    eexists. split; [done|]. split; [|by eexists].
    rewrite textContents_singleton, textContent_elem, !textContents_app, Ht.
    by rewrite !str_app_assoc.
Qed.

Lemma insertNode_spec pt new n :
  isElement n = true →
  validBoundary pt.1 pt.2 n = true →
  ∃ n', insertNode pt new n = Some n'
        ∧ isElement n' = true
        ∧ textContent n' = textBefore pt.1 pt.2 n +:+ textContent new +:+ textAfter pt.1 pt.2 n.
Proof.
  intros Hel Hv. destruct (insertInto_spec _ _ new n Hv) as (l & Hl & Ht & Hone).
  destruct (Hone Hel) as (n' & -> & Hn'). exists n'. unfold insertNode. rewrite Hl.
  split_and!; [done..|]. by rewrite <-Ht, textContents_singleton.
Qed.

(** Unwrapping keeps the text of the document. *)
Lemma unwrapHighlights_textContent n : textContent (unwrapHighlights n) = textContent n.
Proof.
  induction n as [s|a cs IH] using node_ind; [done|].
  simpl. rewrite !textContent_elem. induction IH as [|c cs Hc _ IHcs]; [done|].
  simpl. rewrite !textContents_cons. f_equal; [|done].
  destruct c as [s|a' cs']; [done|]. by destruct (isHighlight a').
Qed.

Lemma validRange_spec r n :
  validRange r n = true →
  isElement n = true
  ∧ validBoundary (startContainer r) (startOffset r) n = true
  ∧ validBoundary (endContainer r) (endOffset r) n = true
  ∧ boundaryLe (startContainer r) (startOffset r) (endContainer r) (endOffset r) = true.
Proof. unfold validRange. rewrite !andb_true_iff. by intros [[[? ?] ?] ?]. Qed.

(** Wrapping a valid range succeeds in both variants, and the document
    keeps its text: the span carries the text of the range, between the
    text that was before the range and the text that was after it. *)
Lemma createHighlight_spec range color now w :
  validRange range (body w) = true →
  ∃ b contents pt b1 b2,
    extractContents range (body w) = Some (b, contents, pt)
    ∧ textContents contents = rangeToString range (body w)
    ∧ insertNode pt (Elem (Attrs "span" (newHighlightId now (S (highlightCounter w)))
                            highlightClass color)
                       (textChildren (rangeToString range (body w)))) b = Some b1
    ∧ insertNode pt (Elem (Attrs "span" (newHighlightId now (S (highlightCounter w)))
                            highlightClass color) contents) b = Some b2
    ∧ Content.createHighlight range color now w =
      (setBody b1 (setCounter (S (highlightCounter w)) w),
       Some (newHighlightId now (S (highlightCounter w)), rangeToString range (body w)))
    ∧ Anchored.createHighlight range color now w =
      (setBody b2 (setCounter (S (highlightCounter w)) w),
       Some (newHighlightId now (S (highlightCounter w)), rangeToString range (body w)))
    ∧ textContent b1 = textContent (body w)
    ∧ textContent b2 = textContent (body w).
Proof.
  intros (Hel & Hs & He & Hle)%validRange_spec.
  destruct (extract_spec _ _ _ _ _ Hs He Hle)
    as (b & contents & q & o' & Hex & Hf & Hb & Ha & Ht & Hv & Hel').
  rewrite Hel in Hel'.
  set (span1 := Elem (Attrs "span" (newHighlightId now (S (highlightCounter w)))
                        highlightClass color)
                     (textChildren (rangeToString range (body w)))).
  set (span2 := Elem (Attrs "span" (newHighlightId now (S (highlightCounter w)))
                        highlightClass color) contents).
  destruct (insertNode_spec (q, o') span1 b Hel' Hv) as (b1 & Hb1 & _ & Ht1).
  destruct (insertNode_spec (q, o') span2 b Hel' Hv) as (b2 & Hb2 & _ & Ht2).
  exists b, contents, (q, o'), b1, b2.
  split_and!; [done|done|done|done|..].
  - unfold Content.createHighlight, deleteContents, extractContents.
    rewrite Hex. simpl. fold span1. by rewrite Hb1.
  - unfold Anchored.createHighlight, extractContents.
    rewrite Hex. fold span2. by rewrite Hb2.
  - rewrite Ht1, Ht. simpl. rewrite Hb, Ha. unfold span1.
    by rewrite textContent_elem, textContents_textChildren.
  - rewrite Ht2, Ht. simpl. rewrite Hb, Ha. unfold span2.
    by rewrite textContent_elem, Hf.
Qed.

(** ** Wrapping and unwrapping (claim C6) *)

(** C6.  For every range of the document, creating a highlight succeeds in
    both variants, records the text of the range, and leaves the text
    content of the document as it was; clearing all highlights afterwards,
    which puts a text node with its text content in the place of every
    highlight element, gives a document with the original text content
    again. *)
Theorem unwrap_wrap_restores_text (range : Range) (color : string) (now : N) (w : Page) :
  validRange range (body w) = true →
  (∃ w' highlightId,
     Content.createHighlight range color now w
     = (w', Some (highlightId, rangeToString range (body w)))
     ∧ textContent (body w') = textContent (body w)
     ∧ textContent (body (Content.clearAllHighlights w').2) = textContent (body w))
  ∧ (∃ w' highlightId,
       Anchored.createHighlight range color now w
       = (w', Some (highlightId, rangeToString range (body w)))
       ∧ textContent (body w') = textContent (body w)
       ∧ textContent (body (Anchored.clearAllHighlights w').2) = textContent (body w)).
Proof.
  intros Hv.
  destruct (createHighlight_spec range color now w Hv)
    as (b & contents & pt & b1 & b2 & _ & _ & _ & _ & Hc & Ha & Ht1 & Ht2).
  split.
  - eexists _, _. split; [exact Hc|]. split; [done|].
    unfold Content.clearAllHighlights. case_bool_decide; [done|].
    unfold Content.clearHighlightsFromStorage, storageRemove. simpl.
    destruct (writable w); simpl; by rewrite unwrapHighlights_textContent.
  - eexists _, _. split; [exact Ha|]. split; [done|].
    unfold Anchored.clearAllHighlights, Anchored.clearHighlightsFromStorage, storageRemove.
    simpl. destruct (writable w); simpl; by rewrite unwrapHighlights_textContent.
Qed.

Lemma unwrap_wrap_restores_text_witness :
  textContent
    (body (Content.clearAllHighlights
             (Content.createHighlight acrossElements "#ffff00" 1700000000000
                (freshPage nestedDocument foxUrl)).1).2)
  = "abcdefghijkl"
  ∧ textContent
      (body (Anchored.clearAllHighlights
               (Anchored.createHighlight acrossElements "#ffff00" 1700000000000
                  (freshPage nestedDocument foxUrl)).1).2)
    = "abcdefghijkl"
  ∧ body (Anchored.clearAllHighlights
            (Anchored.createHighlight acrossElements "#ffff00" 1700000000000
               (freshPage nestedDocument foxUrl)).1).2
    = Elem (plainAttrs "body")
        [Elem (plainAttrs "p")
           [Text "a"; Text "bcdefgh";
            Elem (plainAttrs "b") [Elem (plainAttrs "i") [Text "i"]];
            Text "jkl"]].
Proof.
  assert (validRange acrossElements (body (freshPage nestedDocument foxUrl)) = true)
    as Hv by done.
  destruct (unwrap_wrap_restores_text acrossElements "#ffff00" 1700000000000
              (freshPage nestedDocument foxUrl) Hv)
    as ((w1 & i1 & E1 & _ & H1) & (w2 & i2 & E2 & _ & H2)).
  split_and!; [by rewrite E1|by rewrite E2|by vm_compute].
Defined.

(** ** Wrapping a live selection (claim C7) *)

Lemma extract_same_container p so eo n a cs :
  nodeAt p n = Some (Elem a cs) →
  so ≤ eo ≤ length cs →
  ∃ rem, extract p so p eo n = Some (rem, take (eo - so) (drop so cs), (p, so))
         ∧ nodeAt p rem = Some (Elem a (take so cs ++ drop eo cs)).
Proof.
  revert n. induction p as [|i p IH]; intros n Hn Hle.
  - simpl in Hn. simplify_eq. simpl.
    rewrite (bool_decide_eq_true_2 (so ≤ eo ≤ length cs)) by done. by eexists.
  - destruct n as [|a' cs']; [done|]. simpl in Hn.
    destruct (cs' !! i) as [c|] eqn:Hc; [|done]. simpl in Hn.
    destruct (IH c Hn Hle) as (rem & Hex & Hrem).
    simpl. rewrite (bool_decide_eq_true_2 (i = i)) by done.
    rewrite Hc. simpl. rewrite Hex. simpl. eexists. split; [done|].
    simpl. rewrite list_lookup_insert_eq by (by eapply lookup_lt_Some). done.
Qed.

Lemma insertInto_element p o new n a cs :
  nodeAt p n = Some (Elem a cs) →
  o ≤ length cs →
  ∃ n', insertInto p o new n = Some [n']
        ∧ nodeAt p n' = Some (Elem a (take o cs ++ new :: drop o cs)).
Proof.
  revert n. induction p as [|i p IH]; intros n Hn Hle.
  - simpl in Hn. simplify_eq. simpl. rewrite bool_decide_eq_true_2 by done. by eexists.
  - destruct n as [|a' cs']; [done|]. simpl in Hn.
    destruct (cs' !! i) as [c|] eqn:Hc; [|done]. simpl in Hn.
    destruct (IH c Hn Hle) as (c' & Hins & Hc').
    simpl. rewrite Hc. simpl. rewrite Hins. simpl. eexists. split; [done|].
    simpl. rewrite list_lookup_middle; [done|].
    rewrite length_take. apply lookup_lt_Some in Hc. lia.
Qed.

Lemma pretty_N_char_digit x : is_Some (Ascii.is_nat (pretty_N_char x)).
Proof. unfold pretty_N_char. repeat case_match; by eexists. Qed.

Lemma pretty_N_go_digits x s : allDigits s = true → allDigits (pretty_N_go x s) = true.
Proof.
  revert s. induction (N.lt_wf_0 x) as [x _ IH]; intros s Hs.
  assert (x = 0 ∨ 0 < x)%N as [->|?] by lia.
  - by rewrite pretty_N_go_0.
  - rewrite pretty_N_go_step by done. apply IH; [by apply N.div_lt|].
    simpl. rewrite Hs, andb_true_r. apply bool_decide_eq_true, pretty_N_char_digit.
Qed.

Lemma pretty_N_digits (x : N) : allDigits (pretty x) = true.
Proof.
  unfold pretty, pretty_N. case_decide; [done|]. by apply pretty_N_go_digits.
Qed.

(** Two strings of digits followed by a dash and more: the dash tells where
    the digits end. *)
Lemma digits_dash_inj s s' t t' :
  allDigits s = true → allDigits s' = true →
  s +:+ "-" +:+ t = s' +:+ "-" +:+ t' → s = s' ∧ t = t'.
Proof.
  revert s'. induction s as [|c s IH]; intros [|c' s'] Hs Hs' Heq.
  - rewrite !str_app_empty_l in Heq. by simplify_eq.
  - simpl in Hs'. apply andb_true_iff in Hs' as [[k Hk]%bool_decide_eq_true _].
    rewrite str_app_empty_l, str_app_cons in Heq. injection Heq as <- _. done.
  - simpl in Hs. apply andb_true_iff in Hs as [[k Hk]%bool_decide_eq_true _].
    rewrite str_app_empty_l, str_app_cons in Heq. injection Heq as -> _. done.
  - simpl in Hs, Hs'.
    apply andb_true_iff in Hs as [_ Hs]. apply andb_true_iff in Hs' as [_ Hs'].
    rewrite !str_app_cons in Heq. injection Heq as -> Heq.
    by destruct (IH s' Hs Hs' Heq) as [-> ->].
Qed.

(** The id tells the time stamp and the counter it was made from. *)
Lemma newHighlightId_inj now counter now' counter' :
  newHighlightId now counter = newHighlightId now' counter' →
  now = now' ∧ counter = counter'.
Proof.
  unfold newHighlightId. intros Heq. apply (inj (String.append _)) in Heq.
  apply digits_dash_inj in Heq as [Hn Hc]; [|apply pretty_N_digits..].
  split; [by apply (inj pretty)|by apply (inj pretty)].
Qed.

Lemma boundaryLe_same p so eo : boundaryLe p so p eo = true → so ≤ eo.
Proof.
  induction p as [|i p IH]; simpl.
  - by intros ?%bool_decide_eq_true.
  - rewrite (bool_decide_eq_false_2 (i < i)) by lia.
    rewrite (bool_decide_eq_true_2 (i = i)) by done. done.
Qed.

(** C7 as the code has it.  For every range of the document both variants
    insert, at the point the range collapses to, a span with the highlight
    class, the colour and a new id, which no other counter value gives, and
    answer with that id and the text of the range.  In the anchored variant
    the span holds the extracted contents of the range: for a range over
    the children [so] to [eo] of one element these are the children
    themselves, unchanged, and the span stands in their place.  In
    [content.js] the span holds the text of the range as one text node. *)
Theorem wrap_holds_contents_or_text (range : Range) (color : string) (now : N) (w : Page) :
  validRange range (body w) = true →
  let highlightId := newHighlightId now (S (highlightCounter w)) in
  let span children := Elem (Attrs "span" highlightId highlightClass color) children in
  ∃ b contents pt b1 b2,
    extractContents range (body w) = Some (b, contents, pt)
    ∧ textContents contents = rangeToString range (body w)
    ∧ insertNode pt (span (textChildren (rangeToString range (body w)))) b = Some b1
    ∧ Content.createHighlight range color now w =
      (setBody b1 (setCounter (S (highlightCounter w)) w),
       Some (highlightId, rangeToString range (body w)))
    ∧ insertNode pt (span contents) b = Some b2
    ∧ Anchored.createHighlight range color now w =
      (setBody b2 (setCounter (S (highlightCounter w)) w),
       Some (highlightId, rangeToString range (body w)))
    ∧ (∀ now' counter',
         counter' ≠ S (highlightCounter w) → newHighlightId now' counter' ≠ highlightId)
    ∧ (∀ a cs,
         endContainer range = startContainer range →
         nodeAt (startContainer range) (body w) = Some (Elem a cs) →
         let selected := take (endOffset range - startOffset range)
                              (drop (startOffset range) cs) in
         contents = selected
         ∧ nodeAt (startContainer range) b2 =
           Some (Elem a (take (startOffset range) cs
                         ++ span selected :: drop (endOffset range) cs))
         ∧ nodeAt (startContainer range) b1 =
           Some (Elem a (take (startOffset range) cs
                         ++ span (textChildren (textContents selected))
                         :: drop (endOffset range) cs))).
Proof.
  intros Hv highlightId span.
  destruct (createHighlight_spec range color now w Hv)
    as (b & contents & pt & b1 & b2 & Hex & Hf & Hi1 & Hi2 & Hc & Ha & _ & _).
  exists b, contents, pt, b1, b2. split_and!; [done..| |].
  - intros now' counter' Hne Heq. by apply newHighlightId_inj in Heq as [_ ?].
  - intros a cs Hsame Hn selected. subst selected span highlightId.
    apply validRange_spec in Hv as (_ & Hs & He & Hle).
    destruct range as [p so ep eo]. simpl in *. subst ep.
    unfold validBoundary in Hs, He. rewrite Hn in Hs, He. simpl in Hs, He.
    apply bool_decide_eq_true in Hs, He. apply boundaryLe_same in Hle.
    destruct (extract_same_container p so eo (body w) a cs Hn) as (rem & Hex' & Hrem);
      [lia|].
    unfold extractContents in Hex. simpl in Hex. rewrite Hex' in Hex.
    injection Hex as <- <- <-. split; [done|].
    assert (so ≤ length (take so cs ++ drop eo cs)).
    { rewrite length_app, length_take. lia. }
    split.
    + destruct (insertInto_element p so
                  (Elem (Attrs "span" (newHighlightId now (S (highlightCounter w)))
                           highlightClass color) (take (eo - so) (drop so cs)))
                  rem a _ Hrem) as (n' & Hins & Hn'); [done|].
      unfold insertNode in Hi2. simpl in Hi2. rewrite Hins in Hi2. simplify_eq.
      by rewrite Hn', take_own_prefix, drop_own_prefix.
    + rewrite <-Hf in Hi1.
      destruct (insertInto_element p so
                  (Elem (Attrs "span" (newHighlightId now (S (highlightCounter w)))
                           highlightClass color)
                        (textChildren (textContents (take (eo - so) (drop so cs)))))
                  rem a _ Hrem) as (n' & Hins & Hn'); [done|].
      unfold insertNode in Hi1. simpl in Hi1. rewrite Hins in Hi1. simplify_eq.
      by rewrite Hn', take_own_prefix, drop_own_prefix.
Qed.

Lemma wrap_holds_contents_or_text_witness :
  let page := freshPage nestedDocument foxUrl in
  let span children :=
    Elem (Attrs "span" "highlight-1700000000000-1" highlightClass "#ffff00") children in
  nodeAt [0] (body (Anchored.createHighlight wholeParagraph "#ffff00" 1700000000000 page).1)
  = Some (Elem (plainAttrs "p")
            [span [Text "abc";
                   Elem (plainAttrs "b") [Text "def"; Elem (plainAttrs "i") [Text "ghi"]];
                   Text "jkl"]])
  ∧ nodeAt [0] (body (Content.createHighlight wholeParagraph "#ffff00" 1700000000000 page).1)
    = Some (Elem (plainAttrs "p") [span [Text "abcdefghijkl"]]).
Proof.
  intros page span.
  assert (validRange wholeParagraph (body page) = true) as Hv by done.
  destruct (wrap_holds_contents_or_text wholeParagraph "#ffff00" 1700000000000 page Hv)
    as (b & contents & pt & b1 & b2 & _ & _ & _ & -> & _ & -> & _ & Hkeep).
  destruct (Hkeep (plainAttrs "p")
              [Text "abc";
               Elem (plainAttrs "b") [Text "def"; Elem (plainAttrs "i") [Text "ghi"]];
               Text "jkl"] eq_refl eq_refl) as (_ & H2 & H1).
  split; [exact H2|exact H1].
Defined.

(** C7 as it is stated fails on [content.js]: wrapping all children of the
    paragraph of [nestedDocument] leaves a span with one text node, and the
    [b] and [i] elements that were selected are gone from the document. *)
Lemma content_wrap_flattens_children :
  let page := freshPage nestedDocument foxUrl in
  let wrapped := (Content.createHighlight wholeParagraph "#ffff00" 1700000000000 page).1 in
  (fst <$> extractContents wholeParagraph nestedDocument)
  = Some (Elem (plainAttrs "body") [Elem (plainAttrs "p") []],
          [Text "abc";
           Elem (plainAttrs "b") [Text "def"; Elem (plainAttrs "i") [Text "ghi"]];
           Text "jkl"])
  ∧ body wrapped
    = Elem (plainAttrs "body")
        [Elem (plainAttrs "p")
           [Elem (Attrs "span" "highlight-1700000000000-1" highlightClass "#ffff00")
              [Text "abcdefghijkl"]]]
  ∧ (tagName ∘ fst ∘ snd) <$> elements nestedDocument = ["body"; "p"; "b"; "i"]
  ∧ (tagName ∘ fst ∘ snd) <$> elements (body wrapped) = ["body"; "p"; "span"].
Proof. by vm_compute. Qed.

(** ** The loops of the approximate fallback *)

Lemma forUp_Some {A} n lo (round : nat → option A) a :
  forUp n lo round = Some a ↔
  ∃ i, i < n ∧ round (lo + i) = Some a ∧ ∀ i', i' < i → round (lo + i') = None.
Proof.
  revert lo. induction n as [|n IH]; intros lo; simpl.
  - split; [done|]. intros (i & ? & _). lia.
  - destruct (round lo) as [a'|] eqn:Hlo.
    + split.
      * intros [= ->]. exists 0. rewrite Nat.add_0_r. split_and!; [lia|done|lia].
      * intros ([|i] & _ & Hi & Hmin).
        -- rewrite Nat.add_0_r in Hi. congruence.
        -- specialize (Hmin 0). rewrite Nat.add_0_r in Hmin. rewrite Hmin in Hlo; [done|lia].
    + rewrite IH. split.
      * intros (i & ? & Hi & Hmin). exists (S i). split_and!; [lia|..].
        -- by rewrite Nat.add_succ_r.
        -- intros [|i'] ?; [by rewrite Nat.add_0_r|].
           rewrite Nat.add_succ_r. apply Hmin. lia.
      * intros ([|i] & ? & Hi & Hmin).
        -- rewrite Nat.add_0_r in Hi. congruence.
        -- exists i. split_and!; [lia|..].
           ++ by rewrite Nat.add_succ_r in Hi.
           ++ intros i' ?. specialize (Hmin (S i')). rewrite Nat.add_succ_r in Hmin.
              apply Hmin. lia.
Qed.

Lemma forUp_None {A} n lo (round : nat → option A) :
  forUp n lo round = None ↔ ∀ i, i < n → round (lo + i) = None.
Proof.
  revert lo. induction n as [|n IH]; intros lo; simpl.
  - split; [|done]. intros _ i ?. lia.
  - destruct (round lo) as [a'|] eqn:Hlo.
    + split; [done|]. intros Hall. specialize (Hall 0).
      rewrite Nat.add_0_r, Hlo in Hall. apply Hall. lia.
    + rewrite IH. split.
      * intros Hall [|i] ?; [by rewrite Nat.add_0_r|].
        rewrite Nat.add_succ_r. apply Hall. lia.
      * intros Hall i ?. specialize (Hall (S i)). rewrite Nat.add_succ_r in Hall.
        apply Hall. lia.
Qed.

Lemma length_substring s a b :
  a ≤ b ≤ String.length s → String.length (JsString.substring s a b) = b - a.
Proof.
  intros ?. rewrite substring_in_bounds, str_length_take, str_length_drop by done. lia.
Qed.

(** The test of the innermost loop, for [j] and [k] within the bounds of the
    two loops, is the specification's [qualifies]. *)
Lemma candidate_test target text j k :
  Anchored.minLength target ≤ k →
  k ≤ (String.length text - j) `min` String.length target →
  j + Anchored.minLength target ≤ String.length text →
  JsString.includes target (JsString.substring text j (j + k))
  && bool_decide (Anchored.minLength target ≤ String.length (JsString.substring text j (j + k)))
  = true ↔ qualifies target text j k.
Proof.
  intros Hm Hk Hj. rewrite length_substring by lia.
  rewrite andb_true_iff, bool_decide_eq_true, <-contains_includes.
  unfold qualifies. split; [intros [? ?]; split_and!; [done..|lia|done]|].
  intros (_ & _ & _ & ?). split; [done|lia].
Qed.

Lemma partialInNode_Some text target sub :
  Anchored.partialInNode text target = Some sub ↔ firstCandidate target text sub.
Proof.
  unfold Anchored.partialInNode, firstCandidate.
  set (m := Anchored.minLength target).
  set (test := λ j k,
         if JsString.includes target (JsString.substring text j (j + k))
            && bool_decide (m ≤ String.length (JsString.substring text j (j + k)))
         then Some (JsString.substring text j (j + k)) else None).
  assert (∀ j k, m ≤ k → k ≤ (String.length text - j) `min` String.length target →
                 j + m ≤ String.length text →
                 (test j k = None ↔ ¬ qualifies target text j k)
                 ∧ (∀ s, test j k = Some s ↔
                         s = JsString.substring text j (j + k) ∧ qualifies target text j k))
    as Htest.
  { intros j k ? ? ?. pose proof (candidate_test target text j k) as Hc. unfold test.
    fold m in Hc. destruct (_ && _).
    - split; [split; [done|]; intros Hq; destruct Hq; by apply Hc|].
      intros s. split; [intros [= <-]; split; [done|by apply Hc]|by intros [-> _]].
    - split; [split; [|done]; intros _ Hq; by apply Hc in Hq|].
      intros s. split; [done|]. intros [_ Hq]. by apply Hc in Hq. }
  assert (∀ j k, qualifies target text j k →
                 m ≤ k ∧ k ≤ (String.length text - j) `min` String.length target
                 ∧ j + m ≤ String.length text) as Hrange.
  { intros j k (? & ? & ? & _). done. }
  case_bool_decide as Hlen.
  - rewrite forUp_Some. split.
    + intros (j & Hj & Hin & Hout). simpl in Hin.
      apply forUp_Some in Hin as (i & Hi & Hk & Hkmin).
      exists j, (m + i).
      destruct (Htest j (m + i)) as [_ Hsome]; [lia..|].
      apply Hsome in Hk as [-> Hq]. split_and!; [done..|].
      intros j' k' [Hlt|[-> Hlt]] Hq'.
      * destruct (Hrange _ _ Hq') as (? & ? & ?).
        specialize (Hout j' Hlt). simpl in Hout.
        rewrite forUp_None in Hout. specialize (Hout (k' - m)).
        replace (m + (k' - m)) with k' in Hout by lia.
        destruct (Htest j' k') as [Hnone _]; [lia..|].
        apply Hnone; [apply Hout; lia|done].
      * destruct (Hrange _ _ Hq') as (? & ? & ?).
        specialize (Hkmin (k' - m)).
        replace (m + (k' - m)) with k' in Hkmin by lia.
        destruct (Htest j k') as [Hnone _]; [lia..|].
        apply Hnone; [apply Hkmin; lia|done].
    + intros (j & k & Hq & -> & Hmin).
      destruct (Hrange _ _ Hq) as (? & ? & ?).
      exists j. split_and!; [lia|..].
      * simpl. apply forUp_Some. exists (k - m).
        replace (m + (k - m)) with k by lia. split_and!; [lia|..].
        -- destruct (Htest j k) as [_ Hsome]; [lia..|]. by apply Hsome.
        -- intros i' ?. destruct (Htest j (m + i')) as [Hnone _]; [lia..|].
           apply Hnone. apply Hmin. right. split; [done|lia].
      * intros j' ?. simpl. apply forUp_None. intros i ?.
        destruct (Htest j' (m + i)) as [Hnone _]; [lia..|].
        apply Hnone. apply Hmin. by left.
  - split; [done|]. intros (j & k & Hq & _).
    destruct (Hrange _ _ Hq) as (? & ? & ?). lia.
Qed.

Lemma partialInNode_None text target :
  Anchored.partialInNode text target = None ↔ ¬ hasCandidate target text.
Proof.
  split.
  - intros Hnone (j & k & Hq). pose proof Hq as (Hm & Hk & Hj & _).
    unfold Anchored.partialInNode in Hnone.
    rewrite bool_decide_eq_true_2 in Hnone by lia.
    rewrite forUp_None in Hnone. specialize (Hnone j). simpl in Hnone.
    rewrite forUp_None in Hnone.
    assert (j < String.length text - Anchored.minLength target + 1) as Hjlt by lia.
    specialize (Hnone Hjlt (k - Anchored.minLength target)).
    replace (Anchored.minLength target + (k - Anchored.minLength target)) with k
      in Hnone by lia.
    apply candidate_test in Hq; [|lia..]. rewrite Hq in Hnone.
    discriminate Hnone. lia.
  - intros Hno. destruct (Anchored.partialInNode text target) as [sub|] eqn:Hp; [|done].
    apply partialInNode_Some in Hp as (j & k & Hq & _). destruct Hno. by exists j, k.
Qed.

Lemma partialMatch_unfold target b textNode rest :
  Anchored.partialMatch target b (textNode :: rest) =
  match dataAt textNode b with
  | Some text =>
      match Anchored.partialInNode text target with
      | Some substring => Some (textNode, substring)
      | None => Anchored.partialMatch target b rest
      end
  | None => Anchored.partialMatch target b rest
  end.
Proof. unfold dataAt. simpl. by destruct (nodeAt textNode b) as [[]|]. Qed.

Lemma firstCandidate_hasCandidate target text sub :
  firstCandidate target text sub → hasCandidate target text.
Proof. intros (j & k & ? & _). by exists j, k. Qed.

Lemma partialMatch_Some target b nodes p sub :
  Anchored.partialMatch target b nodes = Some (p, sub) ↔
  ∃ text, firstWith (hasCandidate target) b nodes p text ∧ firstCandidate target text sub.
Proof.
  induction nodes as [|q rest IH]; [split; [done|]; by intros (? & (? & ? & _) & _)|].
  rewrite partialMatch_unfold. destruct (dataAt q b) as [t|] eqn:Hq.
  - destruct (Anchored.partialInNode t target) as [s|] eqn:Hp.
    + split.
      * intros [= <- <-]. apply partialInNode_Some in Hp. exists t. split; [|done].
        exists 0. split_and!; [done|done|by eapply firstCandidate_hasCandidate|lia].
      * intros (text & ([|i] & Hi & Hd & HP & Hmin) & Hsub).
        -- simplify_eq/=. apply partialInNode_Some in Hsub. congruence.
        -- destruct (Hmin 0 q t); [lia|done|done|].
           apply partialInNode_Some in Hp. by eapply firstCandidate_hasCandidate.
    + apply partialInNode_None in Hp. rewrite IH. split.
      * intros (text & (i & Hi & Hd & HP & Hmin) & Hsub). exists text. split; [|done].
        exists (S i). split_and!; [done..|]. intros [|j] q' t' ? Hq' Ht'.
        -- by simplify_eq/=.
        -- apply (Hmin j q' t'); [lia|done..].
      * intros (text & ([|i] & Hi & Hd & HP & Hmin) & Hsub).
        -- by simplify_eq/=.
        -- exists text. split; [|done]. exists i. split_and!; [done..|].
           intros j q' t' ? Hq' Ht'. apply (Hmin (S j) q' t'); [lia|done..].
  - rewrite IH. split.
    + intros (text & (i & Hi & Hd & HP & Hmin) & Hsub). exists text. split; [|done].
      exists (S i). split_and!; [done..|]. intros [|j] q' t' ? Hq' Ht'.
      * simplify_eq/=.
      * apply (Hmin j q' t'); [lia|done..].
    + intros (text & ([|i] & Hi & Hd & HP & Hmin) & Hsub).
      * simplify_eq/=.
      * exists text. split; [|done]. exists i. split_and!; [done..|].
        intros j q' t' ? Hq' Ht'. apply (Hmin (S j) q' t'); [lia|done..].
Qed.

Lemma partialMatch_None target b nodes :
  Anchored.partialMatch target b nodes = None ↔ noneWith (hasCandidate target) b nodes.
Proof.
  unfold noneWith. induction nodes as [|q rest IH].
  - split; [|done]. intros _ q t Hq. by apply elem_of_nil in Hq.
  - rewrite partialMatch_unfold. destruct (dataAt q b) as [t|] eqn:Hq.
    + destruct (Anchored.partialInNode t target) as [s|] eqn:Hp.
      * split; [done|]. intros Hno. destruct (Hno q t); [left|done|].
        apply partialInNode_Some in Hp. by eapply firstCandidate_hasCandidate.
      * apply partialInNode_None in Hp. rewrite IH. split.
        -- intros Hno q' t' [->|?]%elem_of_cons Ht'; [by simplify_eq|by eapply Hno].
        -- intros Hno q' t' ? Ht'. eapply Hno; [by right|done].
    + rewrite IH. split.
      * intros Hno q' t' [->|?]%elem_of_cons Ht'; [congruence|by eapply Hno].
      * intros Hno q' t' ? Ht'. eapply Hno; [by right|done].
Qed.

(** ** Further properties of the two variants *)

Lemma str_take_add n m s :
  JsString.take (n + m) s = JsString.take n s +:+ JsString.take m (JsString.drop n s).
Proof.
  revert s. induction n as [|n IH]; intros s; [done|].
  destruct s as [|c s]; simpl; [by destruct m|]. by rewrite IH.
Qed.

Lemma substring_app s a b c :
  a ≤ b → b ≤ c → c ≤ String.length s →
  JsString.substring s a c = JsString.substring s a b +:+ JsString.substring s b c.
Proof.
  intros ? ? ?. rewrite !substring_in_bounds by lia.
  replace (c - a) with ((b - a) + (c - b)) by lia.
  rewrite str_take_add, str_drop_drop. do 3 f_equal. lia.
Qed.

Lemma contains_prefix a b target : contains (a +:+ b) target → contains a target.
Proof.
  intros (before & after & ->). exists before, (b +:+ after).
  by rewrite str_app_assoc.
Qed.

(** The lengths are tried in ascending order from the minimum length, and a
    prefix of a contained substring is contained: the substring the
    fallback accepts always has exactly the minimum length. *)
Theorem accepted_candidate_has_minimum_length (target text sub : string) :
  firstCandidate target text sub → String.length sub = Anchored.minLength target.
Proof.
  intros (j & k & (Hm & Hk & Hj & Hc) & -> & Hmin).
  destruct (decide (k = Anchored.minLength target)) as [->|Hne].
  - rewrite length_substring by lia. lia.
  - destruct (Hmin j (Anchored.minLength target)); [right; lia|].
    split_and!; [lia..|].
    rewrite (substring_app text j (j + Anchored.minLength target) (j + k)) in Hc by lia.
    by eapply contains_prefix.
Qed.

Lemma accepted_candidate_has_minimum_length_witness :
  String.length "ck br" = Anchored.minLength "quack brown".
Proof.
  apply (accepted_candidate_has_minimum_length "quack brown" "The quick brown fox").
  by apply partialInNode_Some.
Defined.

Lemma replaceChild_textContent p new b text :
  dataAt p b = Some text →
  textContents new = text →
  textContent (replaceChild p new b) = textContent b.
Proof.
  revert b. induction p as [|i p IH]; intros b Hd Hnew; [done|].
  destruct b as [s|a cs]; [done|]. unfold dataAt in Hd. simpl in Hd.
  destruct (cs !! i) as [c|] eqn:Hc; [|done]. simpl in Hd.
  pose proof (lookup_lt_Some _ _ _ Hc).
  destruct p as [|i' p'].
  - simpl in Hd. destruct c as [s|]; [|done]. simplify_eq. simpl.
    rewrite bool_decide_eq_true_2 by done.
    rewrite !textContent_elem, (textContents_middle i cs _ Hc), !textContents_app.
    by rewrite textContent_text.
  - change (replaceChild (i :: i' :: p') new (Elem a cs))
      with (Elem a (alter (replaceChild (i' :: p') new) i cs)).
    rewrite !textContent_elem, (textContents_middle i cs _ Hc).
    assert (alter (replaceChild (i' :: p') new) i cs !! i
            = Some (replaceChild (i' :: p') new c)) as Hc'.
    { by rewrite list_lookup_alter_eq, Hc. }
    rewrite (textContents_middle i _ _ Hc').
    rewrite take_alter_ge, drop_alter_lt by lia. f_equal. f_equal.
    apply IH; [|done]. unfold dataAt. by destruct (nodeAt (i' :: p') c) as [[]|].
Qed.

(** Restoring a record in [content.js] never changes the text content of
    the document: the fragment that replaces the text node spells the same
    text. *)
Lemma restoreHighlight_keeps_text (h : HighlightRecord) (b : node) :
  textContent (Content.restoreHighlight h b) = textContent b.
Proof.
  unfold Content.restoreHighlight. destruct (_ || _) eqn:Hguard; [done|].
  rewrite locate_exactMatch.
  destruct (Anchored.exactMatch _ _ _) as [p|] eqn:Hex; [|done].
  apply exactMatch_Some in Hex as (text & i & _ & Hd & Hc & _).
  rewrite Hd. simpl.
  destruct (fragment_first_occurrence h text (h_text h) Hc)
    as (before & after & Heq & _ & ->).
  apply (replaceChild_textContent _ _ _ text Hd).
  rewrite !textContents_app, !textContents_textChildren, textContents_singleton.
  unfold Content.highlightSpan. by rewrite textContent_elem, textContents_textChildren.
Qed.

(** In the anchored variant too a second pass wraps again: the stored
    selector now leads to the span of the first pass, and the text inside it
    is found and wrapped. *)
Example anchored_restore_twice_wraps_twice :
  let once := Anchored.restoreHighlights (H := Plain.platform) savedFoxPage in
  let twice := Anchored.restoreHighlights (H := Plain.platform) once in
  length (withId (h_id savedFoxRecord) (body once)) = 1
  ∧ Anchored.targetElement (H := Plain.platform) savedFoxRecord (body once) = Some [0; 0; 1]
  ∧ length (withId (h_id savedFoxRecord) (body twice)) = 2.
Proof. by vm_compute. Qed.

(** ** Elements and their number *)

Lemma elements_elem a cs p e :
  (p, e) ∈ elements (Elem a cs) ↔
  (p = [] ∧ e = (a, cs))
  ∨ ∃ i c p', cs !! i = Some c ∧ (p', e) ∈ elements c ∧ p = i :: p'.
Proof.
  simpl. rewrite elem_of_cons, list_elem_of_join. split.
  - intros [[= -> ->]|(l & Hp & Hl)]; [by left|right].
    apply elem_of_lookup_imap in Hl as (i & es & -> & Hi).
    rewrite list_lookup_fmap in Hi. destruct (cs !! i) as [c|] eqn:Hc; simplify_eq/=.
    apply list_elem_of_fmap in Hp as ([p' e'] & [= -> ->] & Hp'). eauto 10.
  - intros [[-> ->]|(i & c & p' & Hc & Hp' & ->)]; [by left|right].
    exists (map (prod_map (cons i) (λ e, e)) (elements c)). split.
    + apply list_elem_of_fmap. by exists (p', e).
    + apply elem_of_lookup_imap. exists i, (elements c). split; [done|].
      by rewrite list_lookup_fmap, Hc.
Qed.

(** [elements] lists the elements of the tree, each under its path. *)
Lemma elements_spec n p a cs :
  (p, (a, cs)) ∈ elements n ↔ nodeAt p n = Some (Elem a cs).
Proof.
  revert p. induction n as [s|a' cs' IH] using node_ind; intros p.
  - simpl. split; [by intros ?%elem_of_nil|by destruct p].
  - rewrite elements_elem. rewrite Forall_forall in IH. split.
    + intros [[-> [= -> ->]]|(i & c & p' & Hc & Hp' & ->)]; [done|].
      simpl. rewrite Hc. simpl. apply IH; [|done]. by eapply list_elem_of_lookup_2.
    + destruct p as [|i p']; [intros [= -> ->]; by left|]. simpl.
      destruct (cs' !! i) as [c|] eqn:Hc; [|done]. simpl. intros Hn. right.
      exists i, c, p'. split_and!; [done| |done].
      apply IH; [by eapply list_elem_of_lookup_2|done].
Qed.

Lemma countElements_text P s : countElements P (Text s) = 0.
Proof. done. Qed.

Lemma filter_elements_shift (P : attrs → bool) i (es : list (path * (attrs * list node))) :
  length (filter (λ e, P e.2.1 = true) (map (prod_map (cons i) (λ e, e)) es))
  = length (filter (λ e, P e.2.1 = true) es).
Proof.
  induction es as [|[p e] es IH]; [done|]. simpl. rewrite !filter_cons. simpl.
  destruct (decide (P e.1 = true)); simpl; by rewrite IH.
Qed.

Lemma countElements_children (P : attrs → bool) k cs :
  length (filter (λ e, P e.2.1 = true)
            (mjoin (imap (λ i es, map (prod_map (cons (k + i)) (λ e, e)) es)
                         (map elements cs))))
  = sum_list (countElements P <$> cs).
Proof.
  revert k. induction cs as [|c cs IH]; intros k; [done|].
  rewrite !fmap_cons, imap_cons. simpl mjoin. simpl sum_list.
  rewrite filter_app, length_app, filter_elements_shift.
  unfold countElements at 1. f_equal.
  rewrite <-(IH (S k)). do 3 f_equal. apply imap_ext. intros i es _. simpl.
  by rewrite Nat.add_succ_r.
Qed.

(** The elements of an element: itself and those of its children. *)
Lemma countElements_elem P a cs :
  countElements P (Elem a cs)
  = (if P a then 1 else 0) + sum_list (countElements P <$> cs).
Proof.
  unfold countElements at 1. simpl elements. rewrite filter_cons.
  pose proof (countElements_children P 0 cs) as Hcs.
  simpl fst. simpl snd. destruct (decide (P a = true)) as [->|Hn].
  - change (1 + sum_list (countElements P <$> cs))
      with (S (sum_list (countElements P <$> cs))).
    simpl length. f_equal. exact Hcs.
  - apply not_true_is_false in Hn. rewrite Hn. exact Hcs.
Qed.

Lemma alter_middle {A} (f : A → A) i (l : list A) x :
  l !! i = Some x → alter f i l = take i l ++ f x :: drop (S i) l.
Proof.
  intros Hx. pose proof (lookup_lt_Some _ _ _ Hx).
  assert (alter f i l !! i = Some (f x)) as Hfx by (by rewrite list_lookup_alter_eq, Hx).
  rewrite <-(take_drop_middle _ _ _ Hfx) at 1.
  by rewrite take_alter_ge, drop_alter_lt by lia.
Qed.

(** Replacing a node changes the number of elements by what the new nodes
    bring and what the old node takes away. *)
Lemma countElements_replaceChild P p new b old :
  p ≠ [] → nodeAt p b = Some old →
  countElements P (replaceChild p new b) + countElements P old
  = countElements P b + sum_list (countElements P <$> new).
Proof.
  revert b. induction p as [|i p IH]; intros b Hp Hn; [done|].
  destruct b as [s|a cs]; [done|]. simpl in Hn.
  destruct (cs !! i) as [c|] eqn:Hc; [|done]. simpl in Hn.
  pose proof (lookup_lt_Some _ _ _ Hc).
  destruct p as [|i' p'].
  - simpl in Hn. simplify_eq. simpl. rewrite bool_decide_eq_true_2 by done.
    rewrite !countElements_elem.
    rewrite <-(take_drop_middle cs i old Hc) at 3.
    rewrite !fmap_app, !sum_list_with_app, fmap_cons. simpl. lia.
  - change (replaceChild (i :: i' :: p') new (Elem a cs))
      with (Elem a (alter (replaceChild (i' :: p') new) i cs)).
    rewrite !countElements_elem, (alter_middle _ _ _ _ Hc).
    specialize (IH c ltac:(done) Hn).
    remember (replaceChild (i' :: p') new c) as r eqn:Hr. clear Hr.
    rewrite <-(take_drop_middle cs i c Hc) at 3.
    rewrite !fmap_app, !sum_list_with_app, !fmap_cons. simpl. lia.
Qed.

Lemma withId_count i n : length (withId i n) = countElements (hasId i) n.
Proof.
  unfold withId, countElements, hasId. f_equal. apply list_filter_iff.
  intros e. by rewrite bool_decide_eq_true.
Qed.

Lemma liveHighlights_count n : length (liveHighlights n) = countElements isHighlight n.
Proof. done. Qed.

Lemma getElementById_Some i b p :
  getElementById i b = Some p →
  i ≠ EmptyString ∧ ∃ a cs, nodeAt p b = Some (Elem a cs) ∧ id a = i.
Proof.
  unfold getElementById. case_bool_decide; [done|]. intros Hh. split; [done|].
  destruct (withId i b) as [|[q [a cs]] l] eqn:Hw; [done|]. simpl in Hh. simplify_eq.
  assert ((p, (a, cs)) ∈ withId i b) as Hin by (rewrite Hw; left).
  apply list_elem_of_filter in Hin as [Hid Hin]. apply elements_spec in Hin. eauto.
Qed.

Lemma getElementById_None i b :
  getElementById i b = None ↔ i = EmptyString ∨ countElements (hasId i) b = 0.
Proof.
  rewrite <-withId_count. unfold getElementById. case_bool_decide; [by split; auto|].
  destruct (withId i b) as [|e l]; simpl; [by split; auto|].
  split; [done|]. by intros [?|?].
Qed.

(** An element of a document in which a text node was replaced by nodes
    that spell its text: it stood in the document before, with the same
    attributes and text content, or it comes with the new nodes. *)
Lemma nodeAt_replaceChild_inv p new b text q a cs :
  dataAt p b = Some text → textContents new = text →
  nodeAt q (replaceChild p new b) = Some (Elem a cs) →
  (∃ q' cs', nodeAt q' b = Some (Elem a cs') ∧ textContents cs' = textContents cs)
  ∨ (∃ k n0 q', new !! k = Some n0 ∧ nodeAt q' n0 = Some (Elem a cs)).
Proof.
  revert b q. induction p as [|i p IH]; intros b q Hd Hnew Hq; [left; eauto|].
  destruct b as [s|a0 cs0]; [done|].
  pose proof (replaceChild_textContent _ _ _ _ Hd Hnew) as Htext.
  unfold dataAt in Hd. simpl in Hd.
  destruct (cs0 !! i) as [c|] eqn:Hc; [|done]. simpl in Hd.
  pose proof (lookup_lt_Some _ _ _ Hc).
  destruct p as [|i' p'].
  - simpl in Hd. destruct c as [s|]; [|done]. simplify_eq.
    simpl in Hq, Htext. rewrite bool_decide_eq_true_2 in Hq, Htext by done.
    destruct q as [|j q1].
    + simpl in Hq. simplify_eq. left. exists [], cs0. split; [done|].
      by rewrite !textContent_elem in Htext.
    + simpl in Hq.
      destruct ((take i cs0 ++ new ++ drop (S i) cs0) !! j) as [c'|] eqn:Hj; [|done].
      simpl in Hq.
      apply lookup_app_Some in Hj as [Hj|[_ Hj]].
      * apply lookup_take_Some in Hj as [Hj _]. left. exists (j :: q1), cs.
        split; [|done]. simpl. by rewrite Hj.
      * apply lookup_app_Some in Hj as [Hj|[_ Hj]]; [right; eauto|].
        rewrite lookup_drop in Hj. left. eexists (_ :: q1), cs.
        split; [|done]. simpl. by rewrite Hj.
  - change (replaceChild (i :: i' :: p') new (Elem a0 cs0))
      with (Elem a0 (alter (replaceChild (i' :: p') new) i cs0)) in Hq, Htext.
    destruct q as [|j q1].
    + simpl in Hq. simplify_eq. left. exists [], cs0. split; [done|].
      by rewrite !textContent_elem in Htext.
    + simpl in Hq. destruct (decide (j = i)) as [->|Hne].
      * rewrite list_lookup_alter_eq, Hc in Hq. simpl in Hq.
        destruct (IH c q1) as [(q' & cs' & Hq' & Ht)|Hr]; [|done|done| |by right].
        { unfold dataAt. by destruct (nodeAt (i' :: p') c) as [[]|]. }
        left. exists (i :: q'), cs'. split; [|done]. simpl. by rewrite Hc.
      * rewrite list_lookup_alter_ne in Hq by done. left. exists (j :: q1), cs.
        by split.
Qed.

(** The nodes [content.js] puts in the place of a text node bring one
    element, the span of the record. *)
Lemma fragment_elements h before after q a cs k n0 :
  (textChildren before ++ [Content.highlightSpan h (h_text h)] ++ textChildren after) !! k
  = Some n0 →
  nodeAt q n0 = Some (Elem a cs) →
  a = Attrs "span" (h_id h) highlightClass (h_color h) ∧ textContents cs = h_text h.
Proof.
  intros Hk Hq.
  assert (∀ s n, n ∈ textChildren s → ∃ t, n = Text t) as Htc.
  { intros s n. unfold textChildren. destruct (JsString.truthy s).
    - intros ->%list_elem_of_singleton. by eexists.
    - by intros ?%elem_of_nil. }
  apply list_elem_of_lookup_2 in Hk.
  apply elem_of_app in Hk as [Hk|Hk]; [apply Htc in Hk as [t ->]; by destruct q|].
  apply elem_of_app in Hk as [Hk|Hk]; [|apply Htc in Hk as [t ->]; by destruct q].
  apply list_elem_of_singleton in Hk as ->. unfold Content.highlightSpan in Hq.
  destruct q as [|j q].
  - simpl in Hq. simplify_eq. by rewrite textContents_textChildren.
  - simpl in Hq. destruct (textChildren (h_text h) !! j) as [c|] eqn:Hj; [|done].
    apply list_elem_of_lookup_2, Htc in Hj as [t ->]. by destruct q.
Qed.

Lemma countElements_textChildren P s : sum_list (countElements P <$> textChildren s) = 0.
Proof. unfold textChildren. by destruct (JsString.truthy s). Qed.

Lemma countElements_fragment P h before after :
  sum_list (countElements P
              <$> (textChildren before ++ [Content.highlightSpan h (h_text h)]
                   ++ textChildren after))
  = if P (Attrs "span" (h_id h) highlightClass (h_color h)) then 1 else 0.
Proof.
  rewrite !fmap_app, !sum_list_with_app, !countElements_textChildren.
  unfold Content.highlightSpan. simpl. rewrite countElements_elem, countElements_textChildren.
  lia.
Qed.

(** What [restoreHighlight] of [content.js] does, in one of two ways: it
    leaves the document alone, or it puts the fragment in the place of a
    text node whose text contains the text of the record. *)
Lemma restoreHighlight_cases h b :
  Content.restoreHighlight h b = b
  ∨ ∃ p text before after,
      p ≠ [] ∧ dataAt p b = Some text
      ∧ text = before +:+ h_text h +:+ after
      ∧ Content.restoreHighlight h b =
        replaceChild p (textChildren before ++ [Content.highlightSpan h (h_text h)]
                        ++ textChildren after) b.
Proof.
  unfold Content.restoreHighlight. destruct (_ || _); [by left|].
  rewrite locate_exactMatch.
  destruct (Anchored.exactMatch _ _ _) as [p|] eqn:Hex; [|by left]. right.
  apply exactMatch_Some in Hex as (text & i & Hi & Hd & Hc & _).
  destruct (fragment_first_occurrence h text (h_text h) Hc)
    as (before & after & Heq & _ & Hfrag).
  exists p, text, before, after. rewrite Hd. simpl. split_and!; [|done|done|by rewrite Hfrag].
  apply list_elem_of_lookup_2, getTextNodes_spec in Hi as [? _]. done.
Qed.

(** Where [restoreHighlight] of [content.js] changes the document, it adds
    one element, with the attributes of the span it builds. *)
Lemma restoreHighlight_count P h b :
  Content.restoreHighlight h b = b
  ∨ countElements P (Content.restoreHighlight h b)
    = countElements P b + if P (Attrs "span" (h_id h) highlightClass (h_color h)) then 1 else 0.
Proof.
  destruct (restoreHighlight_cases h b)
    as [?|(p & text & before & after & Hp & Hd & Heq & ->)]; [by left|right].
  unfold dataAt in Hd. destruct (nodeAt p b) as [[s|]|] eqn:Hn; simplify_eq.
  pose proof (countElements_replaceChild P p
    (textChildren before ++ [Content.highlightSpan h (h_text h)] ++ textChildren after)
    b _ Hp Hn) as Hcount.
  rewrite countElements_fragment, countElements_text in Hcount. lia.
Qed.

Lemma restoreHighlight_count_le P h b :
  countElements P b ≤ countElements P (Content.restoreHighlight h b)
  ≤ countElements P b + 1.
Proof.
  destruct (restoreHighlight_count P h b) as [-> | ->]; [lia|].
  destruct (P _); lia.
Qed.

Lemma showsOnly_restoreHighlight highlights h b :
  h ∈ highlights → showsOnly highlights b →
  showsOnly highlights (Content.restoreHighlight h b).
Proof.
  intros Hh Hb.
  destruct (restoreHighlight_cases h b)
    as [->|(p & text & before & after & Hp & Hd & Heq & ->)]; [done|].
  intros q a cs Hq Hlive.
  eapply nodeAt_replaceChild_inv in Hq as [(q' & cs' & Hq' & Ht)|(k & n0 & q' & Hk & Hq')];
    [| |exact Hd|].
  - rewrite <-Ht. by eapply Hb.
  - destruct (fragment_elements _ _ _ _ _ _ _ _ Hk Hq') as [-> Ht]. by exists h.
  - rewrite !textContents_app, !textContents_textChildren, textContents_singleton.
    unfold Content.highlightSpan. by rewrite textContent_elem, textContents_textChildren.
Qed.

Lemma restoreHighlight_found h b p text :
  JsString.trim (h_text h) ≠ EmptyString →
  p ∈ getTextNodes b → dataAt p b = Some text → contains (h_text h) text →
  ∃ p' text' before after,
    p' ≠ [] ∧ dataAt p' b = Some text'
    ∧ text' = before +:+ h_text h +:+ after
    ∧ Content.restoreHighlight h b =
      replaceChild p' (textChildren before ++ [Content.highlightSpan h (h_text h)]
                       ++ textChildren after) b.
Proof.
  intros Htrim Hp Hd Hc. unfold Content.restoreHighlight.
  assert (negb (JsString.truthy (h_text h))
          || bool_decide (JsString.trim (h_text h) = EmptyString) = false) as ->.
  { unfold JsString.truthy. apply trim_not_empty in Htrim as Hne.
    by rewrite !bool_decide_eq_false_2 by done. }
  rewrite locate_exactMatch.
  destruct (Anchored.exactMatch _ _ _) as [p'|] eqn:Hex.
  - apply exactMatch_Some in Hex as (text' & i & Hi & Hd' & Hc' & _).
    destruct (fragment_first_occurrence h text' (h_text h) Hc')
      as (before & after & Heq & _ & Hfrag).
    exists p', text', before, after. rewrite Hd'. simpl.
    split_and!; [|done|done|by rewrite Hfrag].
    apply list_elem_of_lookup_2, getTextNodes_spec in Hi as [? _]. done.
  - apply exactMatch_None in Hex. by destruct (Hex p text).
Qed.

Lemma restoreHighlight_found_count P h b p text :
  JsString.trim (h_text h) ≠ EmptyString →
  p ∈ getTextNodes b → dataAt p b = Some text → contains (h_text h) text →
  countElements P (Content.restoreHighlight h b)
  = countElements P b + if P (Attrs "span" (h_id h) highlightClass (h_color h)) then 1 else 0.
Proof.
  intros Htrim Hp Hd Hc.
  destruct (restoreHighlight_found h b p text Htrim Hp Hd Hc)
    as (p' & text' & before & after & Hp' & Hd' & Heq & ->).
  unfold dataAt in Hd'. destruct (nodeAt p' b) as [[s|]|] eqn:Hn; simplify_eq.
  pose proof (countElements_replaceChild P p'
    (textChildren before ++ [Content.highlightSpan h (h_text h)] ++ textChildren after)
    b _ Hp' Hn) as Hcount.
  rewrite countElements_fragment, countElements_text in Hcount. lia.
Qed.

(** ** Unwrapping *)

Lemma unwrapHighlights_no_live n p a cs :
  rootIs isHighlight n = false →
  nodeAt p (unwrapHighlights n) = Some (Elem a cs) → isHighlight a = false.
Proof.
  revert p. induction n as [s|a0 cs0 IH] using node_ind; intros p Hroot Hp.
  - by destruct p.
  - simpl in Hroot. destruct p as [|i p].
    + simpl in Hp. by simplify_eq.
    + simpl in Hp. rewrite list_lookup_fmap in Hp.
      destruct (cs0 !! i) as [c|] eqn:Hc; [|done]. simpl in Hp.
      rewrite Forall_forall in IH. destruct c as [s|a' cs'].
      * by destruct p.
      * destruct (isHighlight a') eqn:Hl; [by destruct p|].
        eapply (IH (Elem a' cs')); [by eapply list_elem_of_lookup_2|done|done].
Qed.

Lemma liveHighlights_unwrapHighlights n :
  rootIs isHighlight n = false → liveHighlights (unwrapHighlights n) = [].
Proof.
  intros Hroot. destruct (liveHighlights _) as [|[p [a cs]] l] eqn:Hl; [done|].
  assert ((p, (a, cs)) ∈ liveHighlights (unwrapHighlights n)) as Hin by (rewrite Hl; left).
  apply list_elem_of_filter in Hin as [Hlive Hin]. apply elements_spec in Hin.
  apply unwrapHighlights_no_live in Hin; [|done]. simpl in Hlive. congruence.
Qed.

Lemma showsOnly_unwrapHighlights highlights n :
  rootIs isHighlight n = false → showsOnly highlights (unwrapHighlights n).
Proof.
  intros Hroot p a cs Hp Hlive. apply unwrapHighlights_no_live in Hp; [|done]. congruence.
Qed.

(** Unwrapping takes elements away and brings none. *)
Lemma countElements_unwrapHighlights P n :
  countElements P (unwrapHighlights n) ≤ countElements P n.
Proof.
  induction n as [s|a cs IH] using node_ind; [done|].
  simpl unwrapHighlights. rewrite !countElements_elem. apply Nat.add_le_mono_l.
  induction IH as [|c cs Hc _ IHcs]; [done|].
  rewrite !fmap_cons. simpl sum_list_with.
  apply Nat.add_le_mono; [|done].
  destruct c as [s|a' cs']; [done|]. destruct (isHighlight a'); [|done].
  rewrite countElements_text. unfold id. lia.
Qed.

(** ** Removing the element of a deleted highlight *)

Lemma replaceChild_textContent_node p new b old :
  nodeAt p b = Some old →
  textContents new = textContent old →
  textContent (replaceChild p new b) = textContent b.
Proof.
  revert b. induction p as [|i p IH]; intros b Hn Hnew; [done|].
  destruct b as [s|a cs]; [done|]. simpl in Hn.
  destruct (cs !! i) as [c|] eqn:Hc; [|done]. simpl in Hn.
  pose proof (lookup_lt_Some _ _ _ Hc).
  destruct p as [|i' p'].
  - simpl in Hn. simplify_eq. simpl. rewrite bool_decide_eq_true_2 by done.
    rewrite !textContent_elem, (textContents_middle i cs _ Hc), !textContents_app.
    by rewrite Hnew.
  - change (replaceChild (i :: i' :: p') new (Elem a cs))
      with (Elem a (alter (replaceChild (i' :: p') new) i cs)).
    rewrite !textContent_elem, (textContents_middle i cs _ Hc), (alter_middle _ _ _ _ Hc).
    rewrite textContents_app, textContents_cons. f_equal. f_equal. by apply IH.
Qed.

Lemma removeHighlightElement_textContent i b :
  textContent (Content.removeHighlightElement i b) = textContent b.
Proof.
  unfold Content.removeHighlightElement.
  destruct (getElementById i b) as [p|]; [|done].
  destruct (nodeAt p b) as [el|] eqn:Hel; [|done].
  apply (replaceChild_textContent_node _ _ _ el Hel).
  by rewrite textContents_singleton, textContent_text.
Qed.

Lemma countElements_root_pos P n : rootIs P n = true → 0 < countElements P n.
Proof.
  destruct n as [s|a cs]; [done|]. simpl. intros Ha.
  rewrite countElements_elem, Ha. lia.
Qed.

(** The element that is removed takes the elements below it with it; no
    element is added. *)
Lemma removeHighlightElement_count P i b :
  countElements P (Content.removeHighlightElement i b) ≤ countElements P b.
Proof.
  unfold Content.removeHighlightElement.
  destruct (getElementById i b) as [p|] eqn:Hp; [|done].
  destruct (nodeAt p b) as [el|] eqn:Hel; [|done].
  destruct (decide (p = [])) as [->|Hne]; [done|].
  pose proof (countElements_replaceChild P p [Text (textContent el)] b el Hne Hel) as Hc.
  change (sum_list (countElements P <$> [Text (textContent el)])) with 0 in Hc. lia.
Qed.

Lemma removeHighlightElement_removes i b :
  i ≠ EmptyString → rootIs (hasId i) b = false →
  0 < countElements (hasId i) b →
  countElements (hasId i) (Content.removeHighlightElement i b) < countElements (hasId i) b.
Proof.
  intros Hi Hroot Hpos. unfold Content.removeHighlightElement.
  destruct (getElementById i b) as [p|] eqn:Hp.
  - apply getElementById_Some in Hp as (_ & a & cs & Hel & Hid).
    rewrite Hel.
    destruct (decide (p = [])) as [->|Hne].
    { simpl in Hel. simplify_eq. simpl in Hroot. unfold hasId in Hroot.
      by rewrite bool_decide_eq_true_2 in Hroot. }
    pose proof (countElements_replaceChild (hasId i) p [Text (textContent (Elem a cs))] b _
                  Hne Hel) as Hc.
    change (sum_list (countElements (hasId i) <$> [Text (textContent (Elem a cs))]))
      with 0 in Hc.
    assert (0 < countElements (hasId i) (Elem a cs)).
    { apply countElements_root_pos. simpl. unfold hasId. by apply bool_decide_eq_true. }
    lia.
  - apply getElementById_None in Hp as [?|?]; [done|lia].
Qed.

(** ** Inserting a node *)

Lemma nodeAt_app p q n : nodeAt (p ++ q) n = nodeAt p n ≫= nodeAt q.
Proof.
  revert n. induction p as [|i p IH]; intros n; [done|].
  destruct n as [s|a cs]; [done|]. simpl.
  destruct (cs !! i) as [c|]; [|done]. simpl. apply IH.
Qed.

Lemma insertInto_nodeAt q o new n l :
  insertInto q o new n = Some l →
  ∃ k x q', l !! k = Some x ∧ nodeAt q' x = Some new.
Proof.
  revert n l. induction q as [|i q IH]; intros n l Hl.
  - destruct n as [s|a cs]; simpl in Hl; case_bool_decide; simplify_eq.
    + by exists 1, new, [].
    + eexists 0, _, [o]. split; [done|]. simpl.
      rewrite list_lookup_middle; [done|]. rewrite length_take. lia.
  - destruct n as [s|a cs]; [done|]. simpl in Hl.
    destruct (cs !! i) as [c|] eqn:Hc; [|done]. simpl in Hl.
    destruct (insertInto q o new c) as [l'|] eqn:Hl'; [|done]. simpl in Hl. simplify_eq.
    destruct (IH _ _ Hl') as (k & x & q' & Hk & Hx).
    eexists 0, _, ((i + k) :: q'). split; [done|]. simpl.
    rewrite lookup_app_r by (rewrite length_take; apply lookup_lt_Some in Hc; lia).
    rewrite length_take, Nat.min_l by (apply lookup_lt_Some in Hc; lia).
    replace (i + k - i) with k by lia.
    by rewrite (lookup_app_l_Some _ _ _ _ Hk).
Qed.

Lemma insertNode_nodeAt pt new n n' :
  insertNode pt new n = Some n' → ∃ q, nodeAt q n' = Some new.
Proof.
  unfold insertNode. destruct (insertInto _ _ _ _) as [[|x [|? ?]]|] eqn:Hl; try done.
  intros [= <-]. apply insertInto_nodeAt in Hl as ([|k] & y & q' & Hk & Hy); [|done].
  simpl in Hk. simplify_eq. eauto.
Qed.

(** ** One more span for every restoration *)

Lemma isHighlight_span i c : isHighlight (Attrs "span" i highlightClass c) = true.
Proof. by vm_compute. Qed.

Lemma hasId_span i j c :
  hasId i (Attrs "span" j highlightClass c) = bool_decide (j = i).
Proof. done. Qed.

(** Whenever the text of a record, which is not blank, is in some text
    node of the document, [restoreHighlight] of [content.js] adds exactly
    one highlight span, and it carries the id of the record, whether or not
    an element with that id is there already; the elements with any other
    id stay as many as they were.  When the text is blank or in no text
    node, the document stays as it is. *)
Theorem restoreHighlight_wraps_once (h : HighlightRecord) (b : node) :
  (JsString.trim (h_text h) ≠ EmptyString →
   (∃ p text, p ∈ getTextNodes b ∧ dataAt p b = Some text ∧ contains (h_text h) text) →
   length (liveHighlights (Content.restoreHighlight h b)) = length (liveHighlights b) + 1
   ∧ length (withId (h_id h) (Content.restoreHighlight h b))
     = length (withId (h_id h) b) + 1
   ∧ ∀ i, i ≠ h_id h →
       length (withId i (Content.restoreHighlight h b)) = length (withId i b))
  ∧ (JsString.trim (h_text h) = EmptyString
     ∨ noneWith (contains (h_text h)) b (getTextNodes b) →
     Content.restoreHighlight h b = b).
Proof.
  split.
  - intros Htrim (p & text & Hp & Hd & Hc). split_and!.
    + rewrite !liveHighlights_count.
      rewrite (restoreHighlight_found_count _ _ _ _ _ Htrim Hp Hd Hc).
      by rewrite isHighlight_span.
    + rewrite !withId_count.
      rewrite (restoreHighlight_found_count _ _ _ _ _ Htrim Hp Hd Hc).
      by rewrite hasId_span, bool_decide_eq_true_2.
    + intros i Hi. rewrite !withId_count.
      rewrite (restoreHighlight_found_count _ _ _ _ _ Htrim Hp Hd Hc).
      rewrite hasId_span, bool_decide_eq_false_2 by done. lia.
  - intros [Hblank|Hnone]; unfold Content.restoreHighlight.
    + rewrite Hblank. by rewrite orb_true_r.
    + destruct (_ || _); [done|]. rewrite locate_exactMatch.
      by apply exactMatch_None in Hnone as ->.
Qed.

Lemma restoreHighlight_wraps_once_witness :
  let once := Content.restoreHighlight foxRecord foxDocument in
  length (liveHighlights once) = 1
  ∧ length (liveHighlights (Content.restoreHighlight foxRecord once)) = 2
  ∧ length (withId (h_id foxRecord) (Content.restoreHighlight foxRecord once)) = 2
  ∧ Content.restoreHighlight quackRecord foxDocument = foxDocument.
Proof.
  intros once.
  assert (JsString.trim (h_text foxRecord) ≠ EmptyString) as Htrim by done.
  assert (∃ p text, p ∈ getTextNodes once ∧ dataAt p once = Some text
                    ∧ contains (h_text foxRecord) text) as Hfound.
  { exists [0; 1; 0], "quick brown". split_and!; [|done|by apply contains_includes].
    apply getTextNodes_spec. split; [done|]. by eexists. }
  destruct (restoreHighlight_wraps_once foxRecord once) as [Hadd _].
  destruct (Hadd Htrim Hfound) as (Hlive & Hid & _).
  destruct (restoreHighlight_wraps_once quackRecord foxDocument) as [_ Hsame].
  split_and!; [done|by rewrite Hlive|by rewrite Hid|].
  apply Hsame. right. by apply exactMatch_None.
Defined.

(** ** A new highlight and the storage listener *)

Lemma elem_of_length_pos {A} (x : A) l : x ∈ l → 0 < length l.
Proof. destruct l; [by intros ?%elem_of_nil|simpl; lia]. Qed.

Lemma path_snoc (p : path) : p ≠ [] → ∃ parent i, p = parent ++ [i].
Proof. intros Hp. destruct (exists_last Hp) as (parent & i & ->). eauto. Qed.

(** The nodes that take the place of the node at [parent ++ [i]] stand at
    [i], [i + 1], and so on, under the same parent. *)
Lemma nodeAt_replaceChild_new parent i new b j q :
  is_Some (nodeAt (parent ++ [i]) b) → j < length new →
  nodeAt (parent ++ (i + j) :: q) (replaceChild (parent ++ [i]) new b)
  = new !! j ≫= nodeAt q.
Proof.
  revert b. induction parent as [|k parent IH]; intros b Hold Hj.
  - destruct b as [s|a cs]; [by destruct Hold|]. simpl in *.
    destruct (cs !! i) as [c|] eqn:Hc; [|by destruct Hold].
    pose proof (lookup_lt_Some _ _ _ Hc).
    rewrite bool_decide_eq_true_2 by done. simpl.
    rewrite lookup_app_r by (rewrite length_take; lia).
    rewrite length_take, Nat.min_l by lia.
    replace (i + j - i) with j by lia. by rewrite lookup_app_l.
  - destruct b as [s|a cs]; [by destruct Hold|].
    change ((k :: parent) ++ [i]) with (k :: (parent ++ [i])) in *.
    change ((k :: parent) ++ (i + j) :: q) with (k :: (parent ++ (i + j) :: q)).
    assert (replaceChild (k :: (parent ++ [i])) new (Elem a cs)
            = Elem a (alter (replaceChild (parent ++ [i]) new) k cs)) as ->.
    { simpl. by destruct parent. }
    simpl in *. rewrite list_lookup_alter_eq.
    destruct (cs !! k) as [c|]; [|by destruct Hold]. simpl in *. by apply IH.
Qed.

(** After [restoreHighlight] has wrapped the text it is found again, in
    the new span if nowhere before it. *)
Lemma restoreHighlight_found_again h b :
  JsString.trim (h_text h) ≠ EmptyString → foundIn h b →
  foundIn h (Content.restoreHighlight h b).
Proof.
  intros Htrim (p & text & Hp & Hd & Hc).
  destruct (restoreHighlight_found h b p text Htrim Hp Hd Hc)
    as (p' & text' & before & after & Hp' & Hd' & Heq & ->).
  destruct (path_snoc p' Hp') as (parent & i & ->).
  assert (h_text h ≠ EmptyString) as Hne by (by apply trim_not_empty).
  assert (textChildren (h_text h) = [Text (h_text h)]) as Hchildren.
  { unfold textChildren, JsString.truthy. by rewrite bool_decide_eq_false_2. }
  set (new := textChildren before ++ [Content.highlightSpan h (h_text h)]
              ++ textChildren after).
  assert (nodeAt (parent ++ (i + length (textChildren before)) :: [0])
            (replaceChild (parent ++ [i]) new b) = Some (Text (h_text h))) as Hn.
  { rewrite nodeAt_replaceChild_new.
    - unfold new. rewrite lookup_app_r by lia. rewrite Nat.sub_diag. simpl.
      unfold Content.highlightSpan. by rewrite Hchildren.
    - unfold dataAt in Hd'. by destruct (nodeAt (parent ++ [i]) b).
    - unfold new. rewrite !length_app. simpl. lia. }
  exists (parent ++ (i + length (textChildren before)) :: [0]), (h_text h).
  split_and!.
  - apply getTextNodes_spec. split; [by destruct parent|]. by exists (h_text h).
  - unfold dataAt. by rewrite Hn.
  - exists EmptyString, EmptyString. by rewrite str_app_empty_l, str_app_empty_r.
Qed.

(** Every run over a collection of one record whose text is found adds
    one span. *)
Lemma applyHighlights_runs P h b n :
  JsString.trim (h_text h) ≠ EmptyString → foundIn h b →
  foundIn h (Nat.iter n (Content.applyHighlights [h]) b)
  ∧ countElements P (Nat.iter n (Content.applyHighlights [h]) b)
    = countElements P b
      + n * (if P (Attrs "span" (h_id h) highlightClass (h_color h)) then 1 else 0).
Proof.
  intros Htrim Hb. induction n as [|n [Hfound Hcount]]; [split; [done|simpl; lia]|].
  change (Nat.iter (S n) (Content.applyHighlights [h]) b)
    with (Content.restoreHighlight h (Nat.iter n (Content.applyHighlights [h]) b)).
  split; [by apply restoreHighlight_found_again|].
  destruct Hfound as (p & text & Hp & Hd & Hc).
  rewrite (restoreHighlight_found_count P h _ p text Htrim Hp Hd Hc), Hcount. lia.
Qed.

(** On a page with nothing stored yet, whose storage accepts writes,
    highlighting a selection that is not blank stores one record; the
    write is a change of the entry under the URL of the page, for which the
    storage listener runs [restoreHighlights].  Every run of
    [applyHighlights] that this call schedules, one on a document that has
    finished loading and two on one that has not, finds the text of the
    record, in the new span if nowhere before it, and wraps it once more:
    as many more highlight spans, and as many more elements with the new
    id, as there are runs. *)
Theorem new_highlight_is_wrapped_again
    (color : string) (now : N) (range : Range) (w : Page) :
  writable w = true →
  validRange range (body w) = true →
  JsString.trim (rangeToString range (body w)) ≠ EmptyString →
  storageGet (url w) w = [] →
  let highlightId := newHighlightId now (S (highlightCounter w)) in
  let result := Content.highlightSelection color now [range] w in
  let listened := Content.onStorageChanged [url w] "local" result.2 in
  result.1 = Success highlightId
  ∧ storageGet (url w) result.2
    = [Highlight highlightId (rangeToString range (body w)) color (url w) now None None]
  ∧ 1 ≤ length (withId highlightId (body result.2))
  ∧ length (withId highlightId (body listened))
    = length (withId highlightId (body result.2)) + scheduledRuns (readyState w)
  ∧ length (liveHighlights (body listened))
    = length (liveHighlights (body result.2)) + scheduledRuns (readyState w).
Proof.
  intros Hw Hv Htrim Hempty highlightId result listened.
  destruct (createHighlight_spec range color now w Hv)
    as (b & contents & pt & b1 & b2 & _ & _ & Hins & _ & Hc & _ & _ & _).
  fold highlightId in Hins, Hc.
  set (text := rangeToString range (body w)) in *.
  set (record := Highlight highlightId text color (url w) now None None).
  assert (result = (Success highlightId,
                    setStorage (<[url w := [record]]> (storage w))
                      (setBody b1 (setCounter (S (highlightCounter w)) w)))) as Hresult.
  { unfold result, Content.highlightSelection. rewrite selectionToString_one. fold text.
    unfold JsString.truthy. rewrite bool_decide_eq_false_2 by done. simpl negb. cbv iota.
    rewrite Hc. unfold Content.saveHighlight, storageSet, storageGet in *. simpl.
    rewrite Hw. simpl. by rewrite Hempty. }
  assert (text ≠ EmptyString) as Hne by (by apply trim_not_empty).
  apply insertNode_nodeAt in Hins as [q Hq].
  assert (textChildren text = [Text text]) as Hchildren.
  { unfold textChildren, JsString.truthy. by rewrite bool_decide_eq_false_2. }
  rewrite Hchildren in Hq.
  assert (body result.2 = b1) as Hbody by (by rewrite Hresult).
  assert (body listened
          = Nat.iter (scheduledRuns (readyState w)) (Content.applyHighlights [record]) b1)
    as Hlistened.
  { unfold listened, Content.onStorageChanged, Content.restoreHighlights.
    rewrite Hresult. cbn [snd url setStorage setBody setCounter].
    rewrite (bool_decide_eq_true_2 (url w ∈ [url w])) by left.
    simpl. unfold storageGet. simpl. by rewrite lookup_insert_eq. }
  assert (foundIn record b1) as Hfound.
  { exists (q ++ [0]), text. split_and!.
    - apply getTextNodes_spec. split; [by destruct q|]. exists text.
      by rewrite nodeAt_app, Hq.
    - unfold dataAt. by rewrite nodeAt_app, Hq.
    - exists EmptyString, EmptyString. simpl. by rewrite str_app_empty_r. }
  rewrite Hlistened, Hbody. split_and!.
  - by rewrite Hresult.
  - rewrite Hresult. unfold storageGet. simpl. by rewrite lookup_insert_eq.
  - apply (elem_of_length_pos (q, (Attrs "span" highlightId highlightClass color, [Text text]))).
    apply list_elem_of_filter. split; [done|]. by apply elements_spec.
  - rewrite !withId_count.
    destruct (applyHighlights_runs (hasId highlightId) record b1
                (scheduledRuns (readyState w)) Htrim Hfound) as [_ ->].
    rewrite hasId_span, bool_decide_eq_true_2 by done. lia.
  - rewrite !liveHighlights_count.
    destruct (applyHighlights_runs isHighlight record b1
                (scheduledRuns (readyState w)) Htrim Hfound) as [_ ->].
    rewrite isHighlight_span. lia.
Qed.

Lemma new_highlight_is_wrapped_again_witness :
  let loaded := freshPage foxDocument foxUrl in
  let loading := setReadyState Interactive loaded in
  let result := Content.highlightSelection "#ffff00" 1700000000000 foxSelection loaded in
  let result' := Content.highlightSelection "#ffff00" 1700000000000 foxSelection loading in
  result.1 = Success "highlight-1700000000000-1"
  ∧ length (liveHighlights (body result.2)) = 1
  ∧ length (liveHighlights (body (Content.onStorageChanged [foxUrl] "local" result.2))) = 2
  ∧ length (withId "highlight-1700000000000-1"
              (body (Content.onStorageChanged [foxUrl] "local" result.2))) = 2
  ∧ length (liveHighlights (body (Content.onStorageChanged [foxUrl] "local" result'.2))) = 3
  ∧ body (Content.onStorageChanged [foxUrl] "local" result.2)
    = Elem (plainAttrs "body")
        [Elem (plainAttrs "p")
           [Text "The ";
            Elem (Attrs "span" "highlight-1700000000000-1" highlightClass "#ffff00")
              [Elem (Attrs "span" "highlight-1700000000000-1" highlightClass "#ffff00")
                 [Text "quick brown"]];
            Text " fox"]].
Proof.
  intros loaded loading result result'.
  assert (∀ page, page = loaded ∨ page = loading →
            writable page = true
            ∧ validRange (MkRange [0; 0] 4 [0; 0] 15) (body page) = true
            ∧ JsString.trim (rangeToString (MkRange [0; 0] 4 [0; 0] 15) (body page))
              ≠ EmptyString
            ∧ storageGet (url page) page = []) as Hpage.
  { by intros page [-> | ->]. }
  destruct (Hpage loaded) as (Hw & Hv & Htrim & Hempty); [by left|].
  destruct (Hpage loading) as (Hw' & Hv' & Htrim' & Hempty'); [by right|].
  destruct (new_highlight_is_wrapped_again "#ffff00" 1700000000000
              (MkRange [0; 0] 4 [0; 0] 15) loaded Hw Hv Htrim Hempty)
    as (Hr & _ & _ & Hid & Hlive).
  destruct (new_highlight_is_wrapped_again "#ffff00" 1700000000000
              (MkRange [0; 0] 4 [0; 0] 15) loading Hw' Hv' Htrim' Hempty')
    as (_ & _ & _ & _ & Hlive').
  split_and!; [exact Hr|done| | | |by vm_compute].
  - etrans; [exact Hlive|]. by vm_compute.
  - etrans; [exact Hid|]. by vm_compute.
  - etrans; [exact Hlive'|]. by vm_compute.
Defined.

(** ** Deleting one highlight *)

Lemma length_filter_complement {A} (P : A → Prop) `{∀ x, Decision (P x)} (l : list A) :
  length l - length (filter (λ x, ¬ P x) l) = length (filter P l).
Proof.
  assert (length (filter P l) + length (filter (λ x, ¬ P x) l) = length l) as Hsum.
  { induction l as [|x l IH]; [done|]. rewrite !filter_cons.
    destruct (decide (P x)).
    - rewrite decide_False by tauto. simpl. lia.
    - rewrite decide_True by done. simpl. lia. }
  lia.
Qed.

Lemma applyHighlights_count P highlights b :
  (∀ h, h ∈ highlights → P (Attrs "span" (h_id h) highlightClass (h_color h)) = false) →
  countElements P (Content.applyHighlights highlights b) = countElements P b.
Proof.
  unfold Content.applyHighlights. revert b.
  induction highlights as [|h highlights IH]; intros b Hall; [done|]. simpl.
  rewrite IH by (intros h' ?; apply Hall; by right).
  destruct (restoreHighlight_count P h b) as [-> | ->]; [done|].
  rewrite Hall by left. lia.
Qed.

Lemma withId_nil i n : withId i n = [] ↔ countElements (hasId i) n = 0.
Proof. rewrite <-withId_count. by destruct (withId i n). Qed.

Lemma applyHighlights_runs_count P highlights b n :
  (∀ h, h ∈ highlights → P (Attrs "span" (h_id h) highlightClass (h_color h)) = false) →
  countElements P (Nat.iter n (Content.applyHighlights highlights) b) = countElements P b.
Proof.
  intros Hall. induction n as [|n IH]; [done|]. simpl.
  by rewrite applyHighlights_count.
Qed.

Lemma rootIs_replaceChild P p new b : rootIs P (replaceChild p new b) = rootIs P b.
Proof.
  destruct p as [|i p]; [done|]. destruct b as [s|a cs]; [done|]. simpl.
  destruct p; [by case_bool_decide|done].
Qed.

(** The promise chain of the click handlers, on a page whose body is not
    itself the element with the id. *)
Lemma deleteThenRemove_spec (highlightId : string) (w : Page) :
  highlightId ≠ EmptyString →
  rootIs (hasId highlightId) (body w) = false →
  (writable w = false → Content.deleteThenRemove highlightId w = (Failure "storage", w))
  ∧ (writable w = true →
     let result := Content.deleteThenRemove highlightId w in
     result.1 = Counted (length (filter (λ h, h_id h = highlightId) (storageGet (url w) w)))
     ∧ storage result.2
       = <[url w := filter (λ h, h_id h ≠ highlightId) (storageGet (url w) w)]> (storage w)
     ∧ textContent (body result.2) = textContent (body w)
     ∧ (withId highlightId (body w) ≠ [] →
        length (withId highlightId (body result.2)) < length (withId highlightId (body w)))
     ∧ (length (withId highlightId (body w)) ≤ 1 →
        withId highlightId (body result.2) = []
        ∧ withId highlightId (body (Content.restoreHighlights result.2)) = []
        ∧ withId highlightId (body (Content.refreshHighlightsFromStorage result.2)) = [])).
Proof.
  intros Hid Hroot. split.
  - intros Hw. unfold Content.deleteThenRemove, Content.deleteHighlight, storageSet.
    by rewrite Hw.
  - intros Hw result.
    set (kept := filter (λ h, h_id h ≠ highlightId) (storageGet (url w) w)).
    assert (result =
            (Counted (length (storageGet (url w) w) - length kept),
             setBody (Content.removeHighlightElement highlightId (body w))
               (setStorage (<[url w := kept]> (storage w)) w))) as ->.
    { unfold result, Content.deleteThenRemove, Content.deleteHighlight, storageSet.
      by rewrite Hw. }
    cbn [fst snd].
    set (w' := setBody (Content.removeHighlightElement highlightId (body w))
                 (setStorage (<[url w := kept]> (storage w)) w)).
    assert (storageGet (url w') w' = kept) as Hkept.
    { unfold storageGet. simpl. by rewrite lookup_insert_eq. }
    assert (body w' = Content.removeHighlightElement highlightId (body w)) as Hbody by done.
    assert (withId highlightId (body w) ≠ [] →
            length (withId highlightId (body w')) < length (withId highlightId (body w)))
      as Hless.
    { intros Hlive. rewrite Hbody, !withId_count.
      apply removeHighlightElement_removes; [done..|].
      rewrite <-withId_count. destruct (withId highlightId (body w)); [done|simpl; lia]. }
    split_and!; [|done|rewrite Hbody; apply removeHighlightElement_textContent|done|].
    { f_equal. unfold kept.
      apply (length_filter_complement (λ h, h_id h = highlightId)). }
    intros Hone.
    assert (countElements (hasId highlightId) (body w') = 0) as Hnone.
    { destruct (withId highlightId (body w)) as [|e l] eqn:He.
      - pose proof (removeHighlightElement_count (hasId highlightId) highlightId (body w))
          as Hle.
        rewrite <-(withId_count _ (body w)), He in Hle. simpl in Hle. rewrite Hbody. lia.
      - specialize (Hless ltac:(done)). rewrite withId_count in Hless. simpl in *. lia. }
    assert (∀ h, h ∈ kept →
              hasId highlightId (Attrs "span" (h_id h) highlightClass (h_color h)) = false)
      as Hother.
    { intros h [Hh _]%list_elem_of_filter. rewrite hasId_span.
      by apply bool_decide_eq_false. }
    split_and!.
    + by apply withId_nil.
    + apply withId_nil. unfold Content.restoreHighlights. rewrite Hkept.
      case_bool_decide; [|done]. cbn [body setBody].
      by rewrite applyHighlights_runs_count.
    + apply withId_nil. unfold Content.refreshHighlightsFromStorage. rewrite Hkept.
      cbn [body setBody].
      fold (Content.applyHighlights kept (unwrapHighlights (body w'))).
      rewrite applyHighlights_count by done.
      pose proof (countElements_unwrapHighlights (hasId highlightId) (body w')). lia.
Qed.

(** A click that deletes a highlight, on a page whose body is not itself
    the element with the id: a confirmed click on the dustbin, or a click
    on the delete item of the context menu, which stands at [menu] and is
    removed by the click before anything else is done to the document.
    [shown] is the document the deletion works on: the body as the
    listener for the dustbin finds it, any open menu closed, and the body
    without the menu for the delete item.  When the storage rejects the write, the document is [shown] and
    the storage is as it was.  When it accepts it, the collection under the
    URL is written without the records that have the id, the others in
    their order; the first element with the id gives way to its text, so
    that the document has the text content of [shown] and fewer elements
    with the id.  When at most one element had the id, none is left, and
    neither [restoreHighlights] nor a refresh brings one back.  A click on
    the dustbin that is not confirmed changes nothing. *)
Theorem deleted_highlight_stays_deleted (highlightId : string) (menu : path) (w : Page) :
  highlightId ≠ EmptyString →
  rootIs (hasId highlightId) (body w) = false →
  let kept := filter (λ h, h_id h ≠ highlightId) (storageGet (url w) w) in
  let deleted (shown : node) (clicked : Page) : Prop :=
    (writable w = false → body clicked = shown ∧ storage clicked = storage w)
    ∧ (writable w = true →
       storage clicked = <[url w := kept]> (storage w)
       ∧ textContent (body clicked) = textContent shown
       ∧ (withId highlightId shown ≠ [] →
          length (withId highlightId (body clicked)) < length (withId highlightId shown))
       ∧ (length (withId highlightId shown) ≤ 1 →
          withId highlightId (body clicked) = []
          ∧ withId highlightId (body (Content.restoreHighlights clicked)) = []
          ∧ withId highlightId (body (Content.refreshHighlightsFromStorage clicked)) = [])) in
  deleted (body w) (Content.dustbinClicked true highlightId w)
  ∧ deleted (removeNode menu (body w)) (Content.menuDeleteClicked highlightId menu w)
  ∧ Content.dustbinClicked false highlightId w = w.
Proof.
  intros Hid Hroot kept deleted.
  assert (∀ w0, storage w0 = storage w → url w0 = url w → writable w0 = writable w →
                rootIs (hasId highlightId) (body w0) = false →
                deleted (body w0) (Content.deleteThenRemove highlightId w0).2) as Hchain.
  { intros w0 Hs Hu Hwr Hroot0.
    destruct (deleteThenRemove_spec highlightId w0 Hid Hroot0) as [Hfail Hok]. split.
    - intros Hw. rewrite Hfail by (by rewrite Hwr). cbn [snd]. by rewrite Hs.
    - intros Hw. rewrite <-Hwr in Hw. destruct (Hok Hw) as (_ & Hst & Ht & Hless & Hgone).
      split_and!; [|done..]. rewrite Hst. unfold kept, storageGet. by rewrite Hu, Hs. }
  split_and!; [by apply Hchain| |done].
  unfold Content.menuDeleteClicked.
  apply (Hchain (setBody (removeNode menu (body w)) w)); [done..|].
  cbn [body setBody]. unfold removeNode. by rewrite rootIs_replaceChild.
Qed.

Lemma deleted_highlight_stays_deleted_witness :
  let restored := Content.restoreHighlights foxPage in
  let page := setBody (Content.showContextMenu (body restored)) restored in
  let clicked := Content.menuDeleteClicked (h_id foxRecord) [1] page in
  body page =
    Elem (plainAttrs "body")
      [Elem (plainAttrs "p") [Text "The "; foxSpan; Text " fox"]; Content.contextMenu]
  ∧ body clicked
    = Elem (plainAttrs "body")
        [Elem (plainAttrs "p") [Text "The "; Text "quick brown"; Text " fox"]]
  ∧ storageGet foxUrl clicked = []
  ∧ withId (h_id foxRecord) (body (Content.restoreHighlights clicked)) = [].
Proof.
  intros restored page clicked.
  assert (h_id foxRecord ≠ EmptyString) as Hid by done.
  assert (rootIs (hasId (h_id foxRecord)) (body page) = false) as Hroot by done.
  destruct (deleted_highlight_stays_deleted (h_id foxRecord) [1] page Hid Hroot)
    as (_ & [_ Hok] & _).
  destruct (Hok eq_refl) as (_ & _ & _ & Hgone).
  destruct Hgone as (_ & Hback & _); [by vm_compute|].
  split_and!; [by vm_compute|by vm_compute|by vm_compute|exact Hback].
Defined.

(** ** Clearing all highlights in [content.js] *)

Lemma getCurrentHighlights_nil serialize b :
  Content.getCurrentHighlights serialize b = [] ↔ liveHighlights b = [].
Proof.
  unfold Content.getCurrentHighlights. destruct (liveHighlights b); [done|].
  by split.
Qed.

Lemma length_getCurrentHighlights serialize b :
  length (Content.getCurrentHighlights serialize b) = length (liveHighlights b).
Proof. unfold Content.getCurrentHighlights. by rewrite length_map. Qed.

(** On a page whose body is not itself a highlight, [clearAllHighlights]
    answers with the number of highlights [getCurrentHighlights] lists, and
    afterwards [getCurrentHighlights] lists none.  When there was a live
    highlight and the storage accepts writes, the entry under the URL is
    gone and the next [restoreHighlights] changes nothing.  When there was
    no live highlight the page stays as it was: records in the storage that
    are not shown in the document are not cleared. *)
Theorem clear_all_leaves_no_highlight (serialize : string → string) (w : Page) :
  rootIs isHighlight (body w) = false →
  let result := Content.clearAllHighlights w in
  result.1 = Counted (length (Content.getCurrentHighlights serialize (body w)))
  ∧ Content.getCurrentHighlights serialize (body result.2) = []
  ∧ (Content.getCurrentHighlights serialize (body w) ≠ [] → writable w = true →
     storage result.2 = delete (url w) (storage w)
     ∧ Content.restoreHighlights result.2 = result.2)
  ∧ (Content.getCurrentHighlights serialize (body w) = [] → result.2 = w).
Proof.
  intros Hroot result. unfold result, Content.clearAllHighlights.
  rewrite length_getCurrentHighlights, !getCurrentHighlights_nil.
  case_bool_decide as Hcount.
  - apply nil_length_inv in Hcount as Hnil. rewrite Hcount. cbn [fst snd].
    split_and!; done.
  - cbn [fst snd]. split_and!; [done| | |].
    + unfold Content.clearHighlightsFromStorage, storageRemove. cbn [writable setBody].
      destruct (writable w); cbn [body setBody setStorage];
        by apply liveHighlights_unwrapHighlights.
    + intros _ Hw. unfold Content.clearHighlightsFromStorage, storageRemove.
      cbn [writable setBody]. rewrite Hw. split; [done|].
      unfold Content.restoreHighlights, storageGet. cbn [url storage setBody setStorage].
      by rewrite lookup_delete_eq.
    + intros Hnil. by rewrite Hnil in Hcount.
Qed.

Lemma clear_all_leaves_no_highlight_witness :
  let page := Content.restoreHighlights (Content.restoreHighlights foxPage) in
  let result := Content.clearAllHighlights page in
  result.1 = Counted 2
  ∧ Content.getCurrentHighlights (λ c, c) (body result.2) = []
  ∧ Content.restoreHighlights result.2 = result.2
  ∧ Content.clearAllHighlights foxPage = (Counted 0, foxPage).
Proof.
  intros page result.
  assert (rootIs isHighlight (body page) = false) as Hroot by done.
  destruct (clear_all_leaves_no_highlight (λ c, c) page Hroot) as (Hr & Hnone & Hgone & _).
  destruct Hgone as [_ Hrestore]; [by vm_compute|done|].
  assert (rootIs isHighlight (body foxPage) = false) as Hroot' by done.
  destruct (clear_all_leaves_no_highlight (λ c, c) foxPage Hroot') as (Hr' & _ & _ & Hsame).
  split_and!; [exact Hr|exact Hnone|exact Hrestore|].
  rewrite (surjective_pairing (Content.clearAllHighlights foxPage)).
  rewrite Hr', Hsame; done.
Defined.

(** ** Refreshing from the storage *)

Lemma applyHighlights_textContent highlights b :
  textContent (Content.applyHighlights highlights b) = textContent b.
Proof.
  unfold Content.applyHighlights. revert b.
  induction highlights as [|h highlights IH]; intros b; [done|]. simpl.
  by rewrite IH, restoreHighlight_keeps_text.
Qed.

Lemma applyHighlights_showsOnly all highlights b :
  (∀ h, h ∈ highlights → h ∈ all) → showsOnly all b →
  showsOnly all (Content.applyHighlights highlights b).
Proof.
  unfold Content.applyHighlights. revert b.
  induction highlights as [|h highlights IH]; intros b Hsub Hb; [done|]. simpl.
  apply IH; [intros h' ?; apply Hsub; by right|].
  apply showsOnly_restoreHighlight; [apply Hsub; left|done].
Qed.

Lemma applyHighlights_count_le P highlights b :
  countElements P (Content.applyHighlights highlights b)
  ≤ countElements P b + length highlights.
Proof.
  unfold Content.applyHighlights. revert b.
  induction highlights as [|h highlights IH]; intros b; [simpl; lia|]. simpl.
  pose proof (IH (Content.restoreHighlight h b)).
  pose proof (restoreHighlight_count_le P h b). lia.
Qed.

(** On a page whose body is not itself a highlight, after
    [refreshHighlightsFromStorage] every entry [getCurrentHighlights] lists
    is a record of the collection under the URL, with its id, its text and
    its colour as the browser reads it back; there are at most as many
    entries as records, and none when the collection is empty.  The
    storage and the text content of the document stay as they were. *)
Theorem refresh_shows_stored_records_only (serialize : string → string) (w : Page) :
  rootIs isHighlight (body w) = false →
  let refreshed := Content.refreshHighlightsFromStorage w in
  (∀ entry, entry ∈ Content.getCurrentHighlights serialize (body refreshed) →
     ∃ h, h ∈ storageGet (url w) w
          ∧ entry = (h_id h, h_text h, serialize (h_color h)))
  ∧ length (Content.getCurrentHighlights serialize (body refreshed))
    ≤ length (storageGet (url w) w)
  ∧ storage refreshed = storage w
  ∧ textContent (body refreshed) = textContent (body w).
Proof.
  intros Hroot refreshed.
  assert (body refreshed
          = Content.applyHighlights (storageGet (url w) w) (unwrapHighlights (body w)))
    as Hbody by done.
  rewrite Hbody. split_and!.
  - intros entry Hentry. unfold Content.getCurrentHighlights in Hentry.
    apply list_elem_of_fmap in Hentry as ([p [a cs]] & -> & Hin).
    apply list_elem_of_filter in Hin as [Hlive Hin]. apply elements_spec in Hin.
    simpl in Hlive.
    destruct (applyHighlights_showsOnly (storageGet (url w) w) (storageGet (url w) w)
                (unwrapHighlights (body w)) ltac:(done)
                (showsOnly_unwrapHighlights _ _ Hroot) p a cs Hin Hlive)
      as (h & Hh & Hi & Ht & Hc).
    exists h. split; [done|]. simpl. by rewrite Hi, Ht, Hc.
  - rewrite length_getCurrentHighlights, liveHighlights_count.
    pose proof (applyHighlights_count_le isHighlight (storageGet (url w) w)
                  (unwrapHighlights (body w))) as Hle.
    change (countElements isHighlight (unwrapHighlights (body w)))
      with (length (liveHighlights (unwrapHighlights (body w)))) in Hle.
    rewrite liveHighlights_unwrapHighlights in Hle by done.
    simpl in Hle. lia.
  - done.
  - by rewrite applyHighlights_textContent, unwrapHighlights_textContent.
Qed.

Lemma refresh_shows_stored_records_only_witness :
  let page := Content.restoreHighlights (Content.restoreHighlights foxPage) in
  let refreshed := Content.refreshHighlightsFromStorage page in
  length (Content.getCurrentHighlights (λ c, c) (body page)) = 2
  ∧ Content.getCurrentHighlights (λ c, c) (body refreshed)
    = [(h_id foxRecord, h_text foxRecord, h_color foxRecord)]
  ∧ textContent (body refreshed) = "The quick brown fox".
Proof.
  intros page refreshed.
  assert (rootIs isHighlight (body page) = false) as Hroot by done.
  destruct (refresh_shows_stored_records_only (λ c, c) page Hroot) as (_ & _ & _ & Htext).
  split_and!; [by vm_compute|by vm_compute|].
  etrans; [exact Htext|]. by vm_compute.
Defined.

(** ** The text of the page *)

Lemma saveHighlight_body i text color now w :
  body (Content.saveHighlight i text color now w) = body w.
Proof. unfold Content.saveHighlight, storageSet. by destruct (writable w). Qed.

Lemma highlightSelection_textContent color now selection w :
  (∀ range rest, selection = range :: rest → validRange range (body w) = true) →
  textContent (body (Content.highlightSelection color now selection w).2)
  = textContent (body w).
Proof.
  intros Hvalid. unfold Content.highlightSelection.
  destruct (negb _); [done|]. destruct selection as [|range rest]; [done|].
  destruct (createHighlight_spec range color now w (Hvalid range rest eq_refl))
    as (b & contents & pt & b1 & b2 & _ & _ & _ & _ & -> & _ & Ht & _).
  cbn [snd]. by rewrite saveHighlight_body.
Qed.

Lemma checkForLostHighlights_textContent element w :
  textContent (body (Content.checkForLostHighlights element w)) = textContent (body w).
Proof.
  apply (checkForLostHighlights_inv (λ w', textContent (body w') = textContent (body w)));
    [done|].
  intros h w' <-. apply restoreHighlight_keeps_text.
Qed.

Lemma restoreHighlights_textContent w :
  textContent (body (Content.restoreHighlights w)) = textContent (body w).
Proof.
  unfold Content.restoreHighlights. case_bool_decide; [|done]. cbn [body setBody].
  induction (scheduledRuns (readyState w)) as [|n IH]; [done|]. simpl.
  by rewrite applyHighlights_textContent.
Qed.

Lemma deleteHighlight_body i w : body (Content.deleteHighlight i w).2 = body w.
Proof. unfold Content.deleteHighlight, storageSet. by destruct (writable w). Qed.

Lemma deleteThenRemove_textContent highlightId w :
  textContent (body (Content.deleteThenRemove highlightId w).2) = textContent (body w).
Proof.
  unfold Content.deleteThenRemove.
  pose proof (deleteHighlight_body highlightId w) as Hb.
  destruct (Content.deleteHighlight highlightId w) as [[i|count|message] w'];
    simpl in *; rewrite <-Hb; [done| |done].
  apply removeHighlightElement_textContent.
Qed.

(** Once the elements that match are removed, none is left but the
    body, if it matches. *)
Lemma countElements_removeElements P n :
  countElements P (removeElements P n) = if rootIs P n then 1 else 0.
Proof.
  induction n as [s|a cs IH] using node_ind; [done|].
  simpl removeElements. rewrite countElements_elem. simpl rootIs.
  set (keep := λ c, match c with
                    | Elem a' _ => if P a' then None else Some (removeElements P c)
                    | Text _ => Some c
                    end).
  assert (sum_list (countElements P <$> omap keep cs) = 0) as ->; [|lia].
  induction IH as [|c cs Hc _ IHcs]; [done|].
  change (omap keep (c :: cs))
    with (match keep c with Some y => y :: omap keep cs | None => omap keep cs end).
  destruct (keep c) as [y|] eqn:Hy; [|done].
  rewrite fmap_cons. simpl sum_list_with. rewrite IHcs, Nat.add_0_r.
  destruct c as [s|a' cs']; unfold keep in Hy.
  - by injection Hy as <-.
  - destruct (P a') eqn:Ha; [done|]. injection Hy as <-.
    change (countElements P (removeElements P (Elem a' cs')) = 0).
    rewrite Hc. simpl rootIs. by rewrite Ha.
Qed.

Lemma removeNode_last a cs c : removeNode [length cs] (Elem a (cs ++ [c])) = Elem a cs.
Proof.
  unfold removeNode. simpl. rewrite bool_decide_eq_true_2 by (rewrite length_app; simpl; lia).
  rewrite take_app_length. rewrite drop_ge by (rewrite length_app; simpl; lia).
  by rewrite app_nil_r.
Qed.

(** What [content.js] does to the text content of the body.  The answer
    to any message, for a selection whose first range is a range of the
    document, a restoration pass, the check the mutation observer runs and
    the listener for clicks on a dustbin all leave it as it is.  The
    context menu is the one thing that changes it: [showContextMenu] takes
    out the menus that are open and puts the new menu at the end of the
    body, so that one menu is in the document and the text ends with the
    text of the delete item; the menu taken out again, the document is as
    it was without menus; after a click on the delete item the text is
    that of the body without the menu.  On a page with no menu open,
    opening the menu and then clicking its delete item, or clicking outside
    it, gives back the text, and for the click outside the document. *)
Theorem only_the_menu_changes_the_page_text :
  (∀ serialize now selection message w,
     (∀ range rest, selection = range :: rest → validRange range (body w) = true) →
     textContent (body (Content.onMessage serialize now selection message w).2)
     = textContent (body w))
  ∧ (∀ w, textContent (body (Content.restoreHighlights w)) = textContent (body w))
  ∧ (∀ element w,
       textContent (body (Content.checkForLostHighlights element w)) = textContent (body w))
  ∧ (∀ confirmed highlightId w,
       textContent (body (Content.dustbinClicked confirmed highlightId w))
       = textContent (body w))
  ∧ (∀ b a cs,
       removeElements Content.isMenu b = Elem a cs →
       Content.showContextMenu b = Elem a (cs ++ [Content.contextMenu])
       ∧ (rootIs Content.isMenu b = false →
          countElements Content.isMenu (Content.showContextMenu b) = 1)
       ∧ textContent (Content.showContextMenu b)
         = textContent (removeElements Content.isMenu b) +:+ Content.deleteItemText
       ∧ removeNode [length cs] (Content.showContextMenu b)
         = removeElements Content.isMenu b)
  ∧ (∀ highlightId menu w,
       textContent (body (Content.menuDeleteClicked highlightId menu w))
       = textContent (removeNode menu (body w)))
  ∧ (∀ highlightId w a cs,
       body w = Elem a cs → removeElements Content.isMenu (body w) = body w →
       let opened := setBody (Content.showContextMenu (body w)) w in
       textContent (body opened) = textContent (body w) +:+ Content.deleteItemText
       ∧ textContent (body (Content.menuDeleteClicked highlightId [length cs] opened))
         = textContent (body w)
       ∧ Content.clickOutsideHandler [length cs] [] (body opened) = body w).
Proof.
  assert (∀ b a cs,
       removeElements Content.isMenu b = Elem a cs →
       Content.showContextMenu b = Elem a (cs ++ [Content.contextMenu])
       ∧ (rootIs Content.isMenu b = false →
          countElements Content.isMenu (Content.showContextMenu b) = 1)
       ∧ textContent (Content.showContextMenu b)
         = textContent (removeElements Content.isMenu b) +:+ Content.deleteItemText
       ∧ removeNode [length cs] (Content.showContextMenu b)
         = removeElements Content.isMenu b) as Hshow.
  { intros b a cs Hb. unfold Content.showContextMenu. rewrite Hb. split_and!; [done| | |].
    - intros Hroot.
      pose proof (countElements_removeElements Content.isMenu b) as Hnone.
      rewrite Hb, Hroot, countElements_elem in Hnone.
      rewrite countElements_elem, fmap_app, sum_list_with_app.
      change (sum_list (countElements Content.isMenu <$> [Content.contextMenu])) with 1.
      lia.
    - rewrite !textContent_elem, textContents_app, textContents_singleton. by f_equal.
    - apply removeNode_last. }
  split_and!.
  - intros serialize now selection message w Hvalid.
    destruct message as [color| | |highlightId| | |action]; simpl.
    + pose proof (highlightSelection_textContent (default "#ffff00" color) now selection w
                    Hvalid) as Ht.
      by destruct (Content.highlightSelection _ _ _ _).
    + unfold Content.clearAllHighlights. case_bool_decide; [done|]. cbn [snd].
      unfold Content.clearHighlightsFromStorage, storageRemove. cbn [writable setBody].
      destruct (writable w); cbn [body setBody setStorage];
        apply unwrapHighlights_textContent.
    + done.
    + pose proof (deleteHighlight_body highlightId w) as Hb.
      destruct (Content.deleteHighlight highlightId w). simpl in *. by rewrite Hb.
    + unfold Content.refreshHighlightsFromStorage. cbn [body setBody].
      fold (Content.applyHighlights (storageGet (url w) w) (unwrapHighlights (body w))).
      by rewrite applyHighlights_textContent, unwrapHighlights_textContent.
    + done.
    + done.
  - apply restoreHighlights_textContent.
  - apply checkForLostHighlights_textContent.
  - intros [|] highlightId w; [|done]. apply deleteThenRemove_textContent.
  - exact Hshow.
  - intros highlightId menu w. unfold Content.menuDeleteClicked.
    by rewrite deleteThenRemove_textContent.
  - intros highlightId w a cs Hbody Hnone opened.
    rewrite Hbody in Hnone. destruct (Hshow (body w) a cs) as (Heq & _ & Ht & Hback).
    { by rewrite Hbody. }
    rewrite Hbody in Ht, Hback. rewrite Hnone in Ht, Hback.
    assert (body opened = Content.showContextMenu (Elem a cs)) as Hopened.
    { unfold opened. cbn [body setBody]. by rewrite Hbody. }
    split_and!.
    + by rewrite Hopened, Hbody.
    + unfold Content.menuDeleteClicked. rewrite deleteThenRemove_textContent.
      cbn [body setBody]. by rewrite Hopened, Hback, Hbody.
    + unfold Content.clickOutsideHandler.
      rewrite bool_decide_eq_false_2 by (by intros [k Hk]).
      by rewrite Hopened, Hback, Hbody.
Qed.

Lemma only_the_menu_changes_the_page_text_witness :
  textContent
    (body (Content.onMessage (λ c, c) 1700000000000 foxSelection
             (Content.MsgHighlightSelection None) (freshPage foxDocument foxUrl)).2)
  = "The quick brown fox"
  ∧ (Content.onMessage (λ c, c) 1700000000000 foxSelection
       (Content.MsgHighlightSelection None) (freshPage foxDocument foxUrl)).1
    = Some (Content.ReplyResponse (Success "highlight-1700000000000-1"))
  ∧ textContent (Content.showContextMenu foxDocument)
    = "The quick brown fox" +:+ Content.deleteItemText
  ∧ Content.clickOutsideHandler [1] [0; 0] (Content.showContextMenu foxDocument)
    = foxDocument.
Proof.
  destruct only_the_menu_changes_the_page_text as (Hmsg & _ & _ & _ & _ & _ & Hmenu).
  destruct (Hmenu EmptyString (freshPage foxDocument foxUrl) (plainAttrs "body")
              [Elem (plainAttrs "p") [Text "The quick brown fox"]] eq_refl eq_refl)
    as (Hopen & _ & _).
  split_and!; [|by vm_compute|exact Hopen|by vm_compute].
  etrans; [apply Hmsg|by vm_compute].
  intros range rest [= <- <-]. by vm_compute.
Defined.

(** ** Ids within a session *)

Lemma createHighlight_counter range color now w :
  highlightCounter (Content.createHighlight range color now w).1 = S (highlightCounter w).
Proof.
  unfold Content.createHighlight.
  destruct (deleteContents range (body w)) as [[b pt]|]; [|done].
  by destruct (insertNode pt _ b).
Qed.

Lemma createHighlight_id range color now w w' i text :
  Content.createHighlight range color now w = (w', Some (i, text)) →
  i = newHighlightId now (S (highlightCounter w)).
Proof.
  unfold Content.createHighlight.
  destruct (deleteContents range (body w)) as [[b pt]|]; [|done].
  destruct (insertNode pt _ b); by intros [= <- <- <-].
Qed.

Lemma saveHighlight_counter i text color now w :
  highlightCounter (Content.saveHighlight i text color now w) = highlightCounter w.
Proof. unfold Content.saveHighlight, storageSet. by destruct (writable w). Qed.

Lemma checkForLostHighlights_counter element w :
  highlightCounter (Content.checkForLostHighlights element w) = highlightCounter w.
Proof.
  by apply (checkForLostHighlights_inv (λ w', highlightCounter w' = highlightCounter w)).
Qed.

(** The counter never goes down. *)
Lemma ContentStep_counter w w' :
  ContentStep w w' → highlightCounter w ≤ highlightCounter w'.
Proof.
  intros Hstep. destruct Hstep as [color now selection w| | | | | | | |].
  - unfold Content.highlightSelection.
    destruct (negb _); [done|]. destruct selection as [|range rest]; [done|].
    pose proof (createHighlight_counter range color now w) as Hc.
    destruct (Content.createHighlight range color now w) as [w1 [[i text]|]]; simpl in *.
    + rewrite saveHighlight_counter. lia.
    + lia.
  - unfold Content.clearAllHighlights. case_bool_decide; [done|]. simpl.
    unfold Content.clearHighlightsFromStorage, storageRemove. simpl.
    by destruct (writable w).
  - unfold Content.deleteHighlight, storageSet. by destruct (writable w).
  - unfold Content.restoreHighlights. by case_bool_decide.
  - by rewrite checkForLostHighlights_counter.
  - done.
  - done.
  - done.
  - done.
Qed.

(** Two highlights made on one page never get the same id, whatever the
    clock says at the two moments and whatever happens on the page in
    between: the counter in the id only goes up. *)
Theorem highlight_ids_differ_within_a_session
    (range range' : Range) (color color' : string) (now now' : N)
    (w w1 w' w2 : Page) (id1 text1 id2 text2 : string) :
  Content.createHighlight range color now w = (w1, Some (id1, text1)) →
  rtc ContentStep w1 w' →
  Content.createHighlight range' color' now' w' = (w2, Some (id2, text2)) →
  id1 ≠ id2.
Proof.
  intros Hc1 Hsteps Hc2 Heq.
  pose proof (createHighlight_counter range color now w) as Hcount. rewrite Hc1 in Hcount.
  apply createHighlight_id in Hc1. apply createHighlight_id in Hc2.
  assert (highlightCounter w1 ≤ highlightCounter w') as Hle.
  { clear -Hsteps. induction Hsteps as [|x y z Hstep _ IH]; [done|].
    apply ContentStep_counter in Hstep. lia. }
  subst id1 id2. apply newHighlightId_inj in Heq as [_ Heq]. simpl in Hcount. lia.
Qed.

Lemma highlight_ids_differ_within_a_session_witness :
  let first :=
    Content.createHighlight (MkRange [0; 0] 4 [0; 0] 9) "#ffff00" 1700000000000
      (freshPage foxDocument foxUrl) in
  let second :=
    Content.createHighlight (MkRange [0; 2] 7 [0; 2] 10) "#ffff00" 1700000000000 first.1 in
  first.2 = Some ("highlight-1700000000000-1", "quick")
  ∧ second.2 = Some ("highlight-1700000000000-2", "fox")
  ∧ "highlight-1700000000000-1" ≠ "highlight-1700000000000-2".
Proof.
  intros first second. split_and!; [by vm_compute|by vm_compute|].
  eapply (highlight_ids_differ_within_a_session
            (MkRange [0; 0] 4 [0; 0] 9) (MkRange [0; 2] 7 [0; 2] 10)
            "#ffff00" "#ffff00" 1700000000000 1700000000000
            (freshPage foxDocument foxUrl) first.1 first.1 second.1).
  - by vm_compute.
  - apply rtc_refl.
  - by vm_compute.
Defined.

(** ** The place of the context menu *)

(** For a click inside a viewport that is at least 300 pixels wide and 100
    pixels high, the menu of 150 by 50 pixels that [showContextMenu] places
    lies inside the viewport.  In a narrower viewport it can start left of
    it: for a click at 149 in a viewport of 298 pixels, [left] is -1. *)
Theorem context_menu_stays_in_viewport :
  (∀ x y innerWidth innerHeight : Z,
     (0 ≤ x ≤ innerWidth)%Z → (0 ≤ y ≤ innerHeight)%Z →
     (300 ≤ innerWidth)%Z → (100 ≤ innerHeight)%Z →
     let position := Content.menuPosition x y innerWidth innerHeight in
     (0 ≤ position.1 ∧ position.1 + 150 ≤ innerWidth
      ∧ 0 ≤ position.2 ∧ position.2 + 50 ≤ innerHeight)%Z)
  ∧ Content.menuPosition 149 10 298 600 = ((-1)%Z, 10%Z).
Proof.
  split; [|done].
  intros x y innerWidth innerHeight Hx Hy Hw Hh. unfold Content.menuPosition. simpl.
  repeat case_bool_decide; lia.
Qed.

Lemma context_menu_stays_in_viewport_witness :
  Content.menuPosition 1200 700 1280 720 = (1050%Z, 650%Z)
  ∧ (0 ≤ 1050 ∧ 1050 + 150 ≤ 1280 ∧ 0 ≤ 650 ∧ 650 + 50 ≤ 720)%Z.
Proof.
  destruct context_menu_stays_in_viewport as [Hin _].
  split; [done|]. apply (Hin 1200 700 1280 720)%Z; lia.
Defined.

(** ** The regular expression of [highlightTextNode] *)

Lemma isRegexSpecial_syntax c : Anchored.isRegexSpecial c = isSyntaxCharacter c.
Proof. destruct c as [[] [] [] [] [] [] [] []]; by vm_compute. Qed.

(** Whatever characters a text holds, what [escapeRegex] makes of it reads,
    as the source of a regular expression, as that very text taken
    literally: every syntax character of the grammar is escaped, and no
    other character is. *)
Theorem escapeRegex_reads_as_the_literal (s : string) :
  literalOfPattern (Anchored.escapeRegex s) = Some s.
Proof.
  induction s as [|c s IH]; [done|]. simpl Anchored.escapeRegex.
  destruct (Anchored.isRegexSpecial c) eqn:Hc.
  - rewrite isRegexSpecial_syntax in Hc.
    change (literalOfPattern (String Anchored.backslash (String c (Anchored.escapeRegex s))))
      with (if isSyntaxCharacter c then String c <$> literalOfPattern (Anchored.escapeRegex s)
            else None).
    by rewrite Hc, IH.
  - assert (c ≠ Anchored.backslash) as Hne by (intros ->; by vm_compute in Hc).
    rewrite isRegexSpecial_syntax in Hc.
    change (literalOfPattern (String c (Anchored.escapeRegex s)))
      with (if bool_decide (c = Anchored.backslash) then
              match Anchored.escapeRegex s with
              | String d rest' =>
                  if isSyntaxCharacter d then String d <$> literalOfPattern rest' else None
              | EmptyString => None
              end
            else if isSyntaxCharacter c then None
                 else String c <$> literalOfPattern (Anchored.escapeRegex s)).
    rewrite bool_decide_eq_false_2 by done. by rewrite Hc, IH.
Qed.

(** ** Every occurrence in the text node *)

Lemma occursAt_within s pat after j :
  j < String.length s → occursAt (s +:+ pat +:+ after) pat j → occursAt (s +:+ pat) pat j.
Proof.
  intros Hj (before' & after' & Heq & Hlen).
  exists before', (JsString.take (String.length s - j) after'). split; [|done].
  apply (f_equal (JsString.take (String.length s + String.length pat))) in Heq.
  rewrite <-(str_app_assoc s pat after) in Heq.
  rewrite <-(str_length_app s pat), str_take_app_length in Heq. rewrite Heq.
  rewrite <-(str_app_assoc before' pat after').
  replace (String.length (s +:+ pat))
    with (String.length (before' +:+ pat) + (String.length s - j))
    by (rewrite !str_length_app; lia).
  by rewrite str_take_add, str_take_app_length, str_drop_app_length, str_app_assoc.
Qed.

Lemma replaceAll_none pat f s :
  pat ≠ EmptyString → ¬ contains pat s → JsString.replaceAll s pat f = s.
Proof.
  intros Hpat. unfold JsString.replaceAll. induction s as [|c s IH]; intros Hno.
  - rewrite replaceAll_go_unfold. by destruct pat.
  - rewrite replaceAll_go_unfold.
    assert (String.prefix pat (String c s) = false) as ->.
    { apply not_true_is_false. intros [after Ha]%prefix_spec.
      apply Hno. exists EmptyString, after. by rewrite str_app_empty_l. }
    f_equal. apply IH. intros (before & after & ->).
    apply Hno. by exists (String c before), after.
Qed.

(** A global replacement is [split] and [join]. *)
Lemma replaceAll_join pat f pieces :
  pat ≠ EmptyString → isSplit pat pieces →
  JsString.replaceAll (join pat pieces) pat f = join (f pat) pieces.
Proof.
  intros Hpat. induction pieces as [|s rest IH]; [done|].
  destruct rest as [|s' rest].
  - simpl. by apply replaceAll_none.
  - intros [Hfirst Hrest].
    change (join pat (s :: s' :: rest)) with (s +:+ pat +:+ join pat (s' :: rest)).
    change (join (f pat) (s :: s' :: rest)) with (s +:+ f pat +:+ join (f pat) (s' :: rest)).
    rewrite replaceAll_first; [by rewrite IH|done|].
    intros j Hj Hocc. apply (Hfirst j Hj). by eapply occursAt_within.
Qed.

(** In the anchored variant the replacement is global.  When the text of a
    text node is [pieces] with the text of the record between them, as many
    times as it occurs from left to right, [highlightTextNode] gives the
    plain span the markup in which every one of these occurrences stands in
    a span of its own, each with the id of the one record. *)
Theorem anchored_wraps_every_occurrence `{Platform}
    (h : HighlightRecord) (b : node) (p : path) (pieces : list string) :
  h_text h ≠ EmptyString →
  isSplit (h_text h) pieces →
  2 ≤ length pieces →
  dataAt p b = Some (join (h_text h) pieces) →
  Anchored.highlightTextNode p h b =
  replaceChild p
    [Elem (plainAttrs "span")
       (parseFragment (join (Anchored.markup h (h_text h)) pieces))] b.
Proof.
  intros Hne Hsplit Hlen Hd. unfold Anchored.highlightTextNode, dataAt in *.
  destruct (nodeAt p b) as [[t|]|]; simplify_eq.
  assert (JsString.includes (join (h_text h) pieces) (h_text h) = true) as ->.
  { destruct pieces as [|s [|s' rest]]; [simpl in Hlen; lia..|].
    apply includes_spec. by exists s, (join (h_text h) (s' :: rest)). }
  by rewrite replaceAll_join.
Qed.

Lemma anchored_wraps_every_occurrence_witness :
  Anchored.highlightTextNode (H := Plain.platform) [0; 0] savedFoxRecord twiceDocument
  = Elem (plainAttrs "body")
      [Elem (plainAttrs "p")
         [Elem (plainAttrs "span") [foxSpan; Text ", "; foxSpan]]]
  ∧ length (withId (h_id savedFoxRecord)
              (Anchored.highlightTextNode (H := Plain.platform) [0; 0] savedFoxRecord
                 twiceDocument))
    = 2.
Proof.
  assert (h_text savedFoxRecord ≠ EmptyString) as Hne by done.
  assert (isSplit (h_text savedFoxRecord) [EmptyString; ", "; EmptyString]) as Hsplit.
  { split; [intros j Hj; simpl in Hj; lia|]. split.
    - assert (JsString.indexOf (", " +:+ h_text savedFoxRecord) (h_text savedFoxRecord)
              = Some 2) as [_ Hmin]%indexOf_Some by done.
      intros j Hj. by apply Hmin.
    - intros Hc%contains_includes. done. }
  pose proof (anchored_wraps_every_occurrence (H := Plain.platform) savedFoxRecord
                twiceDocument [0; 0] [EmptyString; ", "; EmptyString] Hne Hsplit
                ltac:(simpl; lia) eq_refl) as Hall.
  split.
  - etrans; [exact Hall|]. by vm_compute.
  - by vm_compute.
Defined.

(** ** The anchors of a saved record *)

Lemma generateSelector_by_id el b a cs :
  nodeAt el b = Some (Elem a cs) → id a ≠ EmptyString →
  Anchored.generateSelector el b = "#" +:+ id a.
Proof.
  intros Hel Hid. unfold Anchored.generateSelector, Anchored.elementOf.
  rewrite Hel. simpl. rewrite Hel. unfold JsString.truthy.
  by rewrite bool_decide_eq_false_2.
Qed.

Lemma generateXPath_by_id el b a cs :
  nodeAt el b = Some (Elem a cs) → id a ≠ EmptyString →
  Anchored.generateXPath el b = "//*[@id=" +:+ dquote +:+ id a +:+ dquote +:+ "]".
Proof.
  intros Hel Hid. unfold Anchored.generateXPath, Anchored.elementOf.
  rewrite Hel. simpl. rewrite Hel. unfold JsString.truthy.
  by rewrite bool_decide_eq_false_2.
Qed.

Lemma anchored_saveHighlight_stores highlightId textContent color now w :
  writable w = true → is_Some (getElementById highlightId (body w)) →
  storage (Anchored.saveHighlight highlightId textContent color now w)
  = <[Anchored.backupKey (url w) :=
        storageGet (url w) w
        ++ [Highlight highlightId textContent color (url w) now
              (Some ("#" +:+ highlightId))
              (Some ("//*[@id=" +:+ dquote +:+ highlightId +:+ dquote +:+ "]"))]]>
      (<[url w :=
           storageGet (url w) w
           ++ [Highlight highlightId textContent color (url w) now
                 (Some ("#" +:+ highlightId))
                 (Some ("//*[@id=" +:+ dquote +:+ highlightId +:+ dquote +:+ "]"))]]>
         (storage w)).
Proof.
  intros Hw [el Hel]. unfold Anchored.saveHighlight. rewrite Hel.
  apply getElementById_Some in Hel as (Hne & a & cs & Hn & Hid). subst highlightId.
  rewrite (generateSelector_by_id _ _ _ _ Hn Hne), (generateXPath_by_id _ _ _ _ Hn Hne).
  unfold storageSet. rewrite Hw. simpl. by rewrite Hw.
Qed.

(** [saveHighlight] of the anchored variant asks for the anchors of the
    element that carries the id of the new record, so the branch for an
    element with an id is the one taken: whenever a record is stored, its
    selector is [#] and the id, and its XPath is the id test
    [//*[@id=...]]; the collection with the record at its end goes under
    the URL and under the backup key.  Without such an element, or with a
    storage that rejects writes, nothing is stored. *)
Theorem saved_anchors_name_the_id
    (highlightId textContent color : string) (now : N) (w : Page) :
  let saved := Anchored.saveHighlight highlightId textContent color now w in
  let record :=
    Highlight highlightId textContent color (url w) now
      (Some ("#" +:+ highlightId))
      (Some ("//*[@id=" +:+ dquote +:+ highlightId +:+ dquote +:+ "]")) in
  (writable w = true → is_Some (getElementById highlightId (body w)) →
   storage saved
   = <[Anchored.backupKey (url w) := storageGet (url w) w ++ [record]]>
       (<[url w := storageGet (url w) w ++ [record]]> (storage w)))
  ∧ (writable w = false ∨ getElementById highlightId (body w) = None → saved = w).
Proof.
  intros saved record. split.
  - intros Hw Hel. by apply anchored_saveHighlight_stores.
  - unfold saved, Anchored.saveHighlight. intros [Hw|Hnone].
    + destruct (getElementById highlightId (body w)); [|done].
      unfold storageSet. by rewrite Hw.
    + by rewrite Hnone.
Qed.

Lemma saved_anchors_name_the_id_witness :
  storage (Anchored.saveHighlight "highlight-1700000000000-1" "quick brown" "#ffff00"
             1700000000000 foxHighlighted) !! foxUrl
  = Some [savedFoxRecord].
Proof.
  destruct (saved_anchors_name_the_id "highlight-1700000000000-1" "quick brown" "#ffff00"
              1700000000000 foxHighlighted) as [Hsaved _].
  rewrite Hsaved; [by vm_compute|done|by eexists].
Defined.

(** ** The backup key mirrors the URL *)

Lemma anchored_createHighlight_storage range color now w :
  storage (Anchored.createHighlight range color now w).1 = storage w
  ∧ writable (Anchored.createHighlight range color now w).1 = writable w
  ∧ url (Anchored.createHighlight range color now w).1 = url w.
Proof.
  unfold Anchored.createHighlight.
  destruct (extractContents range (body w)) as [[[b contents] pt]|]; [|done].
  by destruct (insertNode pt _ b).
Qed.

Lemma backupMirrors_same w w' :
  storage w' = storage w → url w' = url w → backupMirrors w → backupMirrors w'.
Proof. unfold backupMirrors. by intros -> ->. Qed.

Lemma anchored_checkForLostHighlights_storage `{Platform} element w :
  storage (Anchored.checkForLostHighlights element w) = storage w
  ∧ url (Anchored.checkForLostHighlights element w) = url w.
Proof.
  unfold Anchored.checkForLostHighlights.
  generalize (storageGet (url w) w). intros hs.
  revert w. induction hs as [|h hs IH]; intros w; [done|]. simpl.
  destruct (IH (match nodeAt element (body w) with
                | Some el =>
                    if JsString.includes (textContent el) (h_text h)
                       && bool_decide (getElementById (h_id h) (body w) = None)
                    then setBody (Anchored.findAndHighlightText element h (body w)) w
                    else w
                | None => w
                end)) as [-> ->].
  destruct (nodeAt element (body w)); [|done]. by destruct (_ && _).
Qed.

Lemma AnchoredStep_backupMirrors `{Platform} w w' :
  AnchoredStep w w' → backupMirrors w → backupMirrors w' ∧ url w' = url w.
Proof.
  intros Hstep Hm. pose proof (backupKey_ne (url w)) as Hne.
  destruct Hstep as [color now selection w| | | | | |].
  - unfold Anchored.highlightSelection.
    destruct (negb _); [done|]. destruct selection as [|range rest]; [done|].
    pose proof (anchored_createHighlight_storage range color now w) as (Hs & Hw & Hu).
    destruct (Anchored.createHighlight range color now w) as [w1 [[i text]|]];
      simpl in *; [|split; [by eapply backupMirrors_same|done]].
    unfold Anchored.saveHighlight.
    destruct (getElementById i (body w1)); [|split; [by eapply backupMirrors_same|done]].
    unfold storageSet. destruct (writable w1) eqn:Hw1; simpl.
    + rewrite Hw1. simpl. split; [|done]. right. unfold backupMirrors. simpl.
      rewrite Hu. by rewrite lookup_insert_eq, lookup_insert_ne, lookup_insert_eq.
    + split; [by eapply backupMirrors_same|done].
  - unfold Anchored.clearAllHighlights, Anchored.clearHighlightsFromStorage, storageRemove.
    simpl. destruct (writable w); simpl; [|done]. split; [|done]. left. simpl.
    by rewrite lookup_delete_eq.
  - unfold Anchored.restoreHighlights.
    case_bool_decide.
    + destruct (storage w !! Anchored.backupKey (url w)) as [backup|] eqn:Hb.
      * unfold storageSet. destruct (writable w); simpl; [|done].
        assert (backupMirrors (setStorage (<[url w := backup]> (storage w)) w)).
        { right. simpl. by rewrite lookup_insert_eq, lookup_insert_ne. }
        by case_bool_decide.
      * by case_bool_decide.
    + by case_bool_decide.
  - destruct (anchored_checkForLostHighlights_storage element w) as [Hs Hu].
    split; [by eapply backupMirrors_same|done].
  - done.
  - done.
  - done.
Qed.

(** In the variant with the backup key, whatever happens on a page that
    started with nothing stored, or with the backup mirroring the entry
    under the URL: the two collections [debugStorage] reports are the same,
    unless there is none under the URL.  The content script writes under
    the URL only what it also has, or puts, under the backup key. *)
Theorem backup_mirrors_the_url `{Platform} (w w' : Page) :
  backupMirrors w →
  rtc AnchoredStep w w' →
  backupMirrors w'
  ∧ ((Anchored.debugStorage w').1 = []
     ∨ (Anchored.debugStorage w').1 = (Anchored.debugStorage w').2).
Proof.
  intros Hm Hsteps.
  assert (backupMirrors w') as Hm'.
  { induction Hsteps as [|x y z Hstep _ IH]; [done|].
    apply IH. by apply (AnchoredStep_backupMirrors x y). }
  split; [done|]. unfold Anchored.debugStorage, storageGet. simpl.
  destruct Hm' as [-> | ->]; [by left|by right].
Qed.

Lemma backup_mirrors_the_url_witness :
  let page :=
    (Anchored.highlightSelection "#ffff00" 1700000000000 foxSelection
       (freshPage foxDocument foxUrl)).2 in
  Anchored.debugStorage page = ([savedFoxRecord], [savedFoxRecord])
  ∧ backupMirrors (Anchored.clearAllHighlights page).2.
Proof.
  intros page. split; [by vm_compute|].
  assert (backupMirrors (freshPage foxDocument foxUrl)) as Hfresh by (by left).
  apply (backup_mirrors_the_url (H := Plain.platform) (freshPage foxDocument foxUrl)); [done|].
  eapply rtc_l; [apply AnchoredHighlight|]. apply rtc_once. apply AnchoredClearAll.
Defined.

(** ** The wrapper the anchored variant leaves *)

Lemma highlightTextNode_cases `{Platform} p h b :
  Anchored.highlightTextNode p h b = b
  ∨ ∃ text container,
      dataAt p b = Some text
      ∧ Anchored.highlightTextNode p h b
        = replaceChild p [Elem (plainAttrs "span") container] b.
Proof.
  unfold Anchored.highlightTextNode, dataAt.
  destruct (nodeAt p b) as [[text|]|]; [|by left..].
  destruct (JsString.includes text (h_text h)); [|by left]. right. eauto.
Qed.

Lemma highlightTextNode_count `{Platform} P p h b :
  P (plainAttrs "span") = true →
  Anchored.highlightTextNode p h b = b
  ∨ countElements P b < countElements P (Anchored.highlightTextNode p h b).
Proof.
  intros HP. destruct (highlightTextNode_cases p h b) as [?|(text & container & Hd & Heq)];
    [by left|].
  destruct (decide (p = [])) as [->|Hne]; [left; by rewrite Heq|]. right. rewrite Heq.
  unfold dataAt in Hd. destruct (nodeAt p b) as [[s|]|] eqn:Hn; simplify_eq.
  pose proof (countElements_replaceChild P p [Elem (plainAttrs "span") container] b _
                Hne Hn) as Hc.
  rewrite countElements_text in Hc.
  change (sum_list (countElements P <$> [Elem (plainAttrs "span") container]))
    with (countElements P (Elem (plainAttrs "span") container) + 0) in Hc.
  rewrite countElements_elem, HP in Hc. lia.
Qed.

(** In the anchored variant a restoration that changes the document puts a
    plain [span] in the place of a text node, whatever the markup inside it
    is parsed to: the number of elements that are not highlights grows with
    every restoration that takes effect, and these are elements that
    [clearAllHighlights] does not look for.  A restoration takes effect
    whenever no anchor leads to an element and some text node of the body
    contains the text of the record. *)
Theorem anchored_restoration_leaves_a_wrapper `{Platform} (h : HighlightRecord) (b : node) :
  (Anchored.restoreHighlight h b = b
   ∨ countElements (λ a, negb (isHighlight a)) b
     < countElements (λ a, negb (isHighlight a)) (Anchored.restoreHighlight h b))
  ∧ (Anchored.targetElement h b = None →
     (∃ p text, p ∈ getTextNodes b ∧ dataAt p b = Some text ∧ contains (h_text h) text) →
     countElements (λ a, negb (isHighlight a)) b
     < countElements (λ a, negb (isHighlight a)) (Anchored.restoreHighlight h b)).
Proof.
  assert (negb (isHighlight (plainAttrs "span")) = true) as HP by done.
  split.
  - unfold Anchored.restoreHighlight.
    destruct (Anchored.targetElement h b) as [el|].
    + unfold Anchored.findAndHighlightText.
      destruct (Anchored.exactMatch _ _ _) as [p|]; [|by left].
      by apply (highlightTextNode_count (λ a, negb (isHighlight a))).
    + unfold Anchored.searchAndHighlightText.
      destruct (Anchored.search _ _) as [p|p sub|]; [| |by left].
      * by apply (highlightTextNode_count (λ a, negb (isHighlight a))).
      * by apply (highlightTextNode_count (λ a, negb (isHighlight a))).
  - intros Hnone (p & text & Hp & Hd & Hc).
    unfold Anchored.restoreHighlight, Anchored.searchAndHighlightText, Anchored.search.
    rewrite Hnone.
    destruct (Anchored.exactMatch (h_text h) b (getTextNodes b)) as [p'|] eqn:Hex.
    + apply exactMatch_Some in Hex as (text' & i & Hi & Hd' & Hc' & _).
      apply list_elem_of_lookup_2, getTextNodes_spec in Hi as [Hne _].
      unfold Anchored.highlightTextNode. unfold dataAt in Hd'.
      destruct (nodeAt p' b) as [[s|]|] eqn:Hn; simplify_eq.
      apply contains_includes in Hc'. rewrite Hc'.
      pose proof (countElements_replaceChild (λ a, negb (isHighlight a)) p'
        [Elem (plainAttrs "span")
           (parseFragment (JsString.replaceAll text' (h_text h) (Anchored.markup h)))]
        b _ Hne Hn) as Hcount.
      rewrite countElements_text in Hcount.
      change (sum_list (countElements (λ a, negb (isHighlight a)) <$> [?x]))
        with (countElements (λ a, negb (isHighlight a)) x + 0) in Hcount.
      rewrite countElements_elem, HP in Hcount.
      change (Attrs "span" EmptyString EmptyString EmptyString) with (plainAttrs "span").
      lia.
    + apply exactMatch_None in Hex. by destruct (Hex p text).
Qed.

Lemma anchored_restoration_leaves_a_wrapper_witness :
  countElements (λ a, negb (isHighlight a)) foxDocument = 2
  ∧ 2 < countElements (λ a, negb (isHighlight a))
          (Anchored.restoreHighlight (H := Plain.platform) foxRecord foxDocument)
  ∧ countElements (λ a, negb (isHighlight a))
      (unwrapHighlights
         (Anchored.restoreHighlight (H := Plain.platform) foxRecord foxDocument)) = 3.
Proof.
  destruct (anchored_restoration_leaves_a_wrapper (H := Plain.platform) foxRecord foxDocument)
    as [_ Hgrows].
  split_and!; [by vm_compute| |by vm_compute].
  apply Hgrows; [done|].
  exists [0; 0], "The quick brown fox". split_and!; [|done|by apply contains_includes].
  apply getTextNodes_spec. split; [done|]. by eexists.
Defined.

(** ** What is shown is what is stored *)

Lemma highlightSelection_success color now range w :
  validRange range (body w) = true →
  JsString.trim (rangeToString range (body w)) ≠ EmptyString →
  ∃ b1 q,
    Content.highlightSelection color now [range] w
    = (Success (newHighlightId now (S (highlightCounter w))),
       Content.saveHighlight (newHighlightId now (S (highlightCounter w)))
         (rangeToString range (body w)) color now
         (setBody b1 (setCounter (S (highlightCounter w)) w)))
    ∧ nodeAt q b1
      = Some (Elem (Attrs "span" (newHighlightId now (S (highlightCounter w)))
                      highlightClass color)
                [Text (rangeToString range (body w))]).
Proof.
  intros Hv Htrim.
  destruct (createHighlight_spec range color now w Hv)
    as (b & contents & pt & b1 & b2 & _ & _ & Hins & _ & Hc & _ & _ & _).
  apply insertNode_nodeAt in Hins as [q Hq].
  assert (textChildren (rangeToString range (body w)) = [Text (rangeToString range (body w))])
    as Hchildren.
  { unfold textChildren, JsString.truthy. apply trim_not_empty in Htrim.
    by rewrite bool_decide_eq_false_2. }
  rewrite Hchildren in Hq. exists b1, q. split; [|done].
  unfold Content.highlightSelection. rewrite selectionToString_one.
  unfold JsString.truthy. rewrite bool_decide_eq_false_2 by done. simpl negb. cbv iota.
  by rewrite Hc.
Qed.

(** Highlighting a selection that is not blank, on a page whose storage
    accepts writes: the answer carries the new id; [getCurrentHighlights]
    lists a highlight with that id, the text of the selection and the
    colour; the collection under the URL has got one record at its end,
    with the same id, text and colour, and the other entries of the storage
    are as they were. *)
Theorem highlight_is_shown_and_stored
    (serialize : string → string) (color : string) (now : N) (range : Range) (w : Page) :
  writable w = true →
  validRange range (body w) = true →
  JsString.trim (rangeToString range (body w)) ≠ EmptyString →
  let highlightId := newHighlightId now (S (highlightCounter w)) in
  let text := rangeToString range (body w) in
  let result := Content.highlightSelection color now [range] w in
  result.1 = Success highlightId
  ∧ (highlightId, text, serialize color)
    ∈ Content.getCurrentHighlights serialize (body result.2)
  ∧ storageGet (url w) result.2
    = storageGet (url w) w ++ [Highlight highlightId text color (url w) now None None]
  ∧ (∀ key, key ≠ url w → storage result.2 !! key = storage w !! key).
Proof.
  intros Hw Hv Htrim highlightId text result.
  destruct (highlightSelection_success color now range w Hv Htrim) as (b1 & q & Hr & Hq).
  fold highlightId text in Hr, Hq. unfold result. rewrite Hr. cbn [fst snd].
  unfold Content.saveHighlight, storageSet. cbn [writable setBody setCounter]. rewrite Hw.
  cbn [body storage url setBody setCounter setStorage].
  split_and!; [done| | |].
  - unfold Content.getCurrentHighlights. apply list_elem_of_fmap.
    exists (q, (Attrs "span" highlightId highlightClass color, [Text text])).
    split; [simpl; by rewrite textContents_singleton|].
    apply list_elem_of_filter. split; [apply isHighlight_span|by apply elements_spec].
  - unfold storageGet. cbn [storage url setBody setCounter setStorage].
    by rewrite lookup_insert_eq.
  - intros key Hkey. by rewrite lookup_insert_ne.
Qed.

Lemma highlight_is_shown_and_stored_witness :
  let result :=
    Content.highlightSelection "#ffff00" 1700000000000 foxSelection
      (freshPage foxDocument foxUrl) in
  Content.getCurrentHighlights (λ c, c) (body result.2)
  = [("highlight-1700000000000-1", "quick brown", "#ffff00")]
  ∧ storageGet foxUrl result.2 = [foxRecord].
Proof.
  intros result.
  assert (writable (freshPage foxDocument foxUrl) = true) as Hw by done.
  assert (validRange (MkRange [0; 0] 4 [0; 0] 15) (body (freshPage foxDocument foxUrl)) = true)
    as Hv by done.
  assert (JsString.trim (rangeToString (MkRange [0; 0] 4 [0; 0] 15)
                           (body (freshPage foxDocument foxUrl))) ≠ EmptyString)
    as Htrim by done.
  destruct (highlight_is_shown_and_stored (λ c, c) "#ffff00" 1700000000000
              (MkRange [0; 0] 4 [0; 0] 15) (freshPage foxDocument foxUrl) Hw Hv Htrim)
    as (_ & _ & Hstored & _).
  split; [by vm_compute|]. etrans; [exact Hstored|]. by vm_compute.
Defined.

(** ** Deleting by message, then refreshing *)

(** The [deleteHighlight] message takes the records with the id out of the
    storage and leaves the document as it is, the span included; after the
    [refreshHighlights] message that follows, on a page whose body is not
    itself a highlight, [getCurrentHighlights] lists no highlight with the
    id. *)
Theorem delete_then_refresh_removes_the_span
    (serialize : string → string) (now : N) (selection : Selection)
    (highlightId : string) (w : Page) :
  writable w = true →
  rootIs isHighlight (body w) = false →
  let deleted := (Content.onMessage serialize now selection
                    (Content.MsgDeleteHighlight highlightId) w).2 in
  let refreshed := (Content.onMessage serialize now selection
                      Content.MsgRefreshHighlights deleted).2 in
  body deleted = body w
  ∧ (∀ h, h ∈ storageGet (url w) deleted → h_id h ≠ highlightId)
  ∧ (∀ entry, entry ∈ Content.getCurrentHighlights serialize (body refreshed) →
       entry.1.1 ≠ highlightId).
Proof.
  intros Hw Hroot deleted refreshed.
  set (kept := filter (λ h, h_id h ≠ highlightId) (storageGet (url w) w)).
  assert (deleted = setStorage (<[url w := kept]> (storage w)) w) as Hdeleted.
  { unfold deleted. simpl. unfold Content.deleteHighlight, storageSet. by rewrite Hw. }
  assert (storageGet (url w) deleted = kept) as Hkept.
  { rewrite Hdeleted. unfold storageGet. simpl. by rewrite lookup_insert_eq. }
  assert (body refreshed = Content.applyHighlights kept (unwrapHighlights (body w)))
    as Hbody.
  { unfold refreshed. simpl. rewrite Hdeleted. simpl. unfold storageGet. simpl.
    by rewrite lookup_insert_eq. }
  split_and!.
  - by rewrite Hdeleted.
  - rewrite Hkept. by intros h [? _]%list_elem_of_filter.
  - rewrite Hbody. intros entry Hentry. unfold Content.getCurrentHighlights in Hentry.
    apply list_elem_of_fmap in Hentry as ([p [a cs]] & -> & Hin).
    apply list_elem_of_filter in Hin as [Hlive Hin]. apply elements_spec in Hin.
    simpl in Hlive.
    destruct (applyHighlights_showsOnly kept kept (unwrapHighlights (body w)) ltac:(done)
                (showsOnly_unwrapHighlights _ _ Hroot) p a cs Hin Hlive)
      as (h & [Hh _]%list_elem_of_filter & Hi & _).
    simpl. by rewrite Hi.
Qed.

Lemma delete_then_refresh_removes_the_span_witness :
  let page := Content.restoreHighlights foxPage in
  let deleted := (Content.onMessage (λ c, c) 1700000000000 []
                    (Content.MsgDeleteHighlight (h_id foxRecord)) page).2 in
  let refreshed := (Content.onMessage (λ c, c) 1700000000000 []
                      Content.MsgRefreshHighlights deleted).2 in
  length (Content.getCurrentHighlights (λ c, c) (body deleted)) = 1
  ∧ Content.getCurrentHighlights (λ c, c) (body refreshed) = [].
Proof.
  intros page deleted refreshed.
  assert (writable page = true) as Hw by done.
  assert (rootIs isHighlight (body page) = false) as Hroot by done.
  destruct (delete_then_refresh_removes_the_span (λ c, c) 1700000000000 []
              (h_id foxRecord) page Hw Hroot) as (Hbody & _ & _).
  split; [|by vm_compute].
  fold deleted in Hbody. rewrite Hbody. by vm_compute.
Defined.

(** ** The XPath of an element without an id *)

Lemma nodeAt_prefix_element p b a cs k :
  nodeAt p b = Some (Elem a cs) →
  ∃ a' cs', nodeAt (take k p) b = Some (Elem a' cs').
Proof.
  intros Hp. rewrite <-(take_drop k p), nodeAt_app in Hp.
  destruct (nodeAt (take k p) b) as [[s|a' cs']|] eqn:Hk; [|by eauto|done].
  simpl in Hp. destruct (drop k p) as [|i r] eqn:Hd; [|done]. done.
Qed.

Lemma sameTagBefore_child p i b a0 cs0 a cs :
  nodeAt p b = Some (Elem a0 cs0) → cs0 !! i = Some (Elem a cs) →
  Anchored.sameTagBefore (p ++ [i]) b
  = length (filter (λ c, Anchored.isElementWithTag (tagName a) c) (take i cs0)).
Proof.
  intros Hp Hi. unfold Anchored.sameTagBefore.
  rewrite removelast_last, last_snoc, Hp, nodeAt_app, Hp. simpl. by rewrite Hi.
Qed.

(** The step [generateXPath] writes for the element at [q]. *)
Lemma xpathSteps_unfold p b n :
  Anchored.xpathSteps p b (S n) =
  match nodeAt (take (length p - n) p) b with
  | Some (Elem a _) =>
      "/" +:+ tagName a
      +:+ (if bool_decide (1 < S (Anchored.sameTagBefore (take (length p - n) p) b))
           then "[" +:+ pretty (S (Anchored.sameTagBefore (take (length p - n) p) b)) +:+ "]"
           else EmptyString)
      +:+ Anchored.xpathSteps p b n
  | _ => EmptyString
  end.
Proof. done. Qed.

Lemma xpathSteps_child p i b a cs n :
  nodeAt (p ++ [i]) b = Some (Elem a cs) →
  n ≤ S (length p) →
  Anchored.xpathSteps (p ++ [i]) b (S n)
  = Anchored.xpathSteps p b n
    +:+ "/" +:+ tagName a
    +:+ (if bool_decide (1 < S (Anchored.sameTagBefore (p ++ [i]) b))
         then "[" +:+ pretty (S (Anchored.sameTagBefore (p ++ [i]) b)) +:+ "]"
         else EmptyString).
Proof.
  intros Hel. induction n as [|n IH]; intros Hn.
  - rewrite xpathSteps_unfold, Nat.sub_0_r, firstn_all, Hel. simpl Anchored.xpathSteps.
    by rewrite str_app_empty_l, !str_app_empty_r.
  - rewrite (xpathSteps_unfold (p ++ [i])), (xpathSteps_unfold p).
    rewrite length_app. simpl length.
    replace (length p + 1 - S n) with (length p - n) by lia.
    rewrite take_app_le by lia.
    assert (∃ a0 cs0, nodeAt p b = Some (Elem a0 cs0)) as (a0 & cs0 & Hp).
    { rewrite nodeAt_app in Hel. destruct (nodeAt p b) as [[s|a0 cs0]|]; [done|by eauto|done]. }
    destruct (nodeAt_prefix_element p b a0 cs0 (length p - n) Hp) as (a' & cs' & ->).
    rewrite IH by lia. by rewrite !str_app_assoc.
Qed.

(** The XPath of an element that has no id: for the body it is [/html]
    and the step of the body; for a child of an element without an id it is
    the XPath of that element followed by one step, the tag of the child
    and, unless it is the first, its position among the children with its
    tag.  An element with an id gets the id test whatever stands above
    it. *)
Theorem generateXPath_extends_the_parent (b : node) :
  (∀ a cs, b = Elem a cs → id a = EmptyString →
     Anchored.generateXPath [] b = "/html/" +:+ tagName a)
  ∧ (∀ p i a0 cs0 a cs,
       nodeAt p b = Some (Elem a0 cs0) → cs0 !! i = Some (Elem a cs) →
       id a0 = EmptyString → id a = EmptyString →
       let index :=
         S (length (filter (λ c, Anchored.isElementWithTag (tagName a) c) (take i cs0))) in
       Anchored.generateXPath (p ++ [i]) b
       = Anchored.generateXPath p b +:+ "/" +:+ tagName a
         +:+ (if bool_decide (1 < index) then "[" +:+ pretty index +:+ "]" else EmptyString))
  ∧ (∀ p a cs,
       nodeAt p b = Some (Elem a cs) → id a ≠ EmptyString →
       Anchored.generateXPath p b = "//*[@id=" +:+ dquote +:+ id a +:+ dquote +:+ "]").
Proof.
  split_and!.
  - intros a cs -> Hid. unfold Anchored.generateXPath, Anchored.elementOf. simpl.
    unfold JsString.truthy. rewrite Hid. simpl.
    by rewrite !str_app_empty_r.
  - intros p i a0 cs0 a cs Hp Hi Hid0 Hid index.
    assert (nodeAt (p ++ [i]) b = Some (Elem a cs)) as Hel.
    { rewrite nodeAt_app, Hp. simpl. by rewrite Hi. }
    unfold Anchored.generateXPath, Anchored.elementOf. rewrite Hel, Hp. cbv beta iota zeta.
    rewrite Hel, Hp. unfold JsString.truthy. rewrite Hid0, Hid.
    rewrite (bool_decide_eq_true_2 (EmptyString = EmptyString)) by done. cbn [negb].
    rewrite length_app. simpl length. replace (length p + 1) with (S (length p)) by lia.
    rewrite (xpathSteps_child p i b a cs (S (length p)) Hel) by lia.
    rewrite (sameTagBefore_child p i b a0 cs0 a cs Hp Hi). fold index.
    by rewrite !str_app_assoc.
  - intros p a cs Hp Hid. by eapply generateXPath_by_id.
Qed.

Lemma generateXPath_extends_the_parent_witness :
  Anchored.generateXPath [] nestedDocument = "/html/body"
  ∧ Anchored.generateXPath [0] nestedDocument = "/html/body/p"
  ∧ Anchored.generateXPath [0; 1] nestedDocument = "/html/body/p/b"
  ∧ Anchored.generateXPath [0; 1] (body foxHighlighted)
    = "//*[@id=" +:+ dquote +:+ "highlight-1700000000000-1" +:+ dquote +:+ "]".
Proof.
  destruct (generateXPath_extends_the_parent nestedDocument) as (Hbody & Hchild & _).
  destruct (generateXPath_extends_the_parent (body foxHighlighted)) as (_ & _ & Hid).
  split_and!.
  - by apply (Hbody (plainAttrs "body") _ eq_refl).
  - etrans; [by eapply (Hchild [] 0)|]. by vm_compute.
  - etrans; [by eapply (Hchild [0] 1)|]. by vm_compute.
  - etrans; [by eapply (Hid [0; 1])|]. by vm_compute.
Defined.

(** ** The entries of other pages *)

Lemma checkForLostHighlights_url element w :
  url (Content.checkForLostHighlights element w) = url w.
Proof. by apply (checkForLostHighlights_inv (λ w', url w' = url w)). Qed.

Lemma ContentStep_other_entries w w' key :
  ContentStep w w' → key ≠ url w →
  storage w' !! key = storage w !! key ∧ url w' = url w.
Proof.
  intros Hstep Hkey. destruct Hstep as [color now selection w| | | | | | | |].
  - unfold Content.highlightSelection.
    destruct (negb _); [done|]. destruct selection as [|range rest]; [done|].
    pose proof (createHighlight_storage range color now w) as (Hs & _ & Hu).
    destruct (Content.createHighlight range color now w) as [w1 [[i text]|]];
      simpl in *; [|by rewrite Hs].
    unfold Content.saveHighlight, storageSet. destruct (writable w1); simpl.
    + rewrite Hu, lookup_insert_ne by done. by rewrite Hs.
    + by rewrite Hs.
  - unfold Content.clearAllHighlights. case_bool_decide; [done|]. simpl.
    unfold Content.clearHighlightsFromStorage, storageRemove. simpl.
    destruct (writable w); simpl; [|done]. by rewrite lookup_delete_ne.
  - unfold Content.deleteHighlight, storageSet. destruct (writable w); simpl; [|done].
    by rewrite lookup_insert_ne.
  - unfold Content.restoreHighlights. by case_bool_decide.
  - by rewrite checkForLostHighlights_storage, checkForLostHighlights_url.
  - done.
  - done.
  - done.
  - done.
Qed.

Lemma AnchoredStep_other_entries `{Platform} w w' key :
  AnchoredStep w w' → key ≠ url w → key ≠ Anchored.backupKey (url w) →
  storage w' !! key = storage w !! key ∧ url w' = url w.
Proof.
  intros Hstep Hkey Hbackup. destruct Hstep as [color now selection w| | | | | |].
  - unfold Anchored.highlightSelection.
    destruct (negb _); [done|]. destruct selection as [|range rest]; [done|].
    pose proof (anchored_createHighlight_storage range color now w) as (Hs & _ & Hu).
    destruct (Anchored.createHighlight range color now w) as [w1 [[i text]|]];
      simpl in *; [|by rewrite Hs].
    unfold Anchored.saveHighlight.
    destruct (getElementById i (body w1)); [|by rewrite Hs].
    unfold storageSet. destruct (writable w1) eqn:Hw1; simpl; [|by rewrite Hs].
    rewrite Hw1. simpl. rewrite Hu, !lookup_insert_ne by done. by rewrite Hs.
  - unfold Anchored.clearAllHighlights, Anchored.clearHighlightsFromStorage, storageRemove.
    simpl. destruct (writable w); simpl; [|done]. by rewrite lookup_delete_ne.
  - unfold Anchored.restoreHighlights.
    case_bool_decide.
    + destruct (storage w !! Anchored.backupKey (url w)) as [backup|] eqn:Hb.
      * unfold storageSet. destruct (writable w); simpl; [|done].
        case_bool_decide; simpl; by rewrite lookup_insert_ne.
      * by case_bool_decide.
    + by case_bool_decide.
  - by destruct (anchored_checkForLostHighlights_storage element w) as [-> ->].
  - done.
  - done.
  - done.
Qed.

(** The content script of a page reads and writes the entry under the URL
    of that page, and in the variant with the backup key the entry under
    its backup key as well: whatever happens on the page, every other
    entry of the storage, the highlights of every other page among them,
    stays as it was. *)
Theorem other_pages_are_left_alone `{Platform} (w w' : Page) (key : string) :
  key ≠ url w →
  (rtc ContentStep w w' → storage w' !! key = storage w !! key)
  ∧ (key ≠ Anchored.backupKey (url w) →
     rtc AnchoredStep w w' → storage w' !! key = storage w !! key).
Proof.
  intros Hkey. split.
  - intros Hsteps. induction Hsteps as [|x y z Hstep _ IH]; [done|].
    destruct (ContentStep_other_entries x y key Hstep Hkey) as [Hs Hu].
    rewrite <-Hs. apply IH. by rewrite Hu.
  - intros Hbackup Hsteps. induction Hsteps as [|x y z Hstep _ IH]; [done|].
    destruct (AnchoredStep_other_entries x y key Hstep Hkey Hbackup) as [Hs Hu].
    rewrite <-Hs. apply IH; by rewrite Hu.
Qed.

Lemma other_pages_are_left_alone_witness :
  let page := MkPage foxDocument {[ "https://example.org/other" := [foxRecord] ]} true 0
                foxUrl Complete in
  storage (Content.highlightSelection "#ffff00" 1700000000000 foxSelection page).2
    !! "https://example.org/other" = Some [foxRecord]
  ∧ storage (Anchored.clearAllHighlights
               (Anchored.highlightSelection "#ffff00" 1700000000000 foxSelection page).2).2
      !! "https://example.org/other" = Some [foxRecord].
Proof.
  intros page.
  assert ("https://example.org/other" ≠ url page) as Hkey by done.
  destruct (other_pages_are_left_alone (H := Plain.platform) page
              (Content.highlightSelection "#ffff00" 1700000000000 foxSelection page).2
              "https://example.org/other" Hkey) as [Hcontent _].
  destruct (other_pages_are_left_alone (H := Plain.platform) page
              (Anchored.clearAllHighlights
                 (Anchored.highlightSelection "#ffff00" 1700000000000 foxSelection page).2).2
              "https://example.org/other" Hkey) as [_ Hanchored].
  split.
  - rewrite Hcontent; [done|]. apply rtc_once. apply StepHighlight.
  - rewrite Hanchored; [done|done|].
    eapply rtc_l; [apply AnchoredHighlight|]. apply rtc_once. apply AnchoredClearAll.
Defined.

(** ** The popup and the background script *)

(** What [truncateText] shows is never more than three characters longer
    than the limit: a text within the limit is shown as it is, a longer
    one is cut at the limit and followed by three dots.  A text that
    exceeds the limit by one or two characters comes out longer than it
    was. *)
Theorem truncateText_bound (text : string) (maxLength : nat) :
  String.length (Popup.truncateText text maxLength) ≤ maxLength + 3
  ∧ (String.length text ≤ maxLength → Popup.truncateText text maxLength = text)
  ∧ (maxLength < String.length text →
     Popup.truncateText text maxLength = JsString.take maxLength text +:+ "..."
     ∧ String.length (Popup.truncateText text maxLength) = maxLength + 3).
Proof.
  unfold Popup.truncateText. case_bool_decide as Hle.
  - split_and!; [lia|done|lia].
  - rewrite substring_in_bounds by lia.
    rewrite Nat.sub_0_r. simpl JsString.drop.
    assert (String.length (JsString.take maxLength text +:+ "...") = maxLength + 3) as Hlen.
    { rewrite str_length_app, str_length_take. simpl. lia. }
    split_and!; [lia|lia|done].
Qed.

Lemma truncateText_bound_witness :
  Popup.truncateText "quick brown" 60 = "quick brown"
  ∧ Popup.truncateText "quick brown" 10 = "quick brow..."
  ∧ String.length (Popup.truncateText "quick brown" 10) = 13.
Proof.
  destruct (truncateText_bound "quick brown" 60) as (_ & Hshort & _).
  destruct (truncateText_bound "quick brown" 10) as (_ & _ & Hlong).
  destruct Hlong as [Hcut Hlen]; [simpl; lia|].
  split_and!; [apply Hshort; simpl; lia|exact Hcut|exact Hlen].
Defined.

Lemma prefix_http_backupKey u : String.prefix "http" (Anchored.backupKey u) = false.
Proof. done. Qed.

(** The manager of the popup lists an entry of the storage exactly when
    its key is not the colour key and starts with [http] and its value is
    a collection that is not empty.  So it never lists the default colour
    nor an entry under a backup key: a page whose collection was removed
    from under its URL is not listed, whatever its backup key holds. *)
Theorem manager_lists_no_backup (result : Store) :
  (∀ key highlights,
     Popup.getAllWebsitesWithHighlights result !! key = Some highlights ↔
     result !! key = Some (StoredArray highlights)
     ∧ highlights ≠ []
     ∧ key ≠ defaultHighlightColor
     ∧ String.prefix "http" key = true)
  ∧ Popup.getAllWebsitesWithHighlights result !! defaultHighlightColor = None
  ∧ (∀ u, Popup.getAllWebsitesWithHighlights result !! Anchored.backupKey u = None).
Proof.
  assert (∀ key highlights,
     Popup.getAllWebsitesWithHighlights result !! key = Some highlights ↔
     result !! key = Some (StoredArray highlights)
     ∧ highlights ≠ []
     ∧ key ≠ defaultHighlightColor
     ∧ String.prefix "http" key = true) as Hspec.
  { intros key highlights. unfold Popup.getAllWebsitesWithHighlights.
    rewrite map_lookup_imap. unfold Store in *.
    destruct (result !! key) as [[c|l]|]; simpl.
    - destruct (_ && _); (split; [done|]); by intros [[=] _].
    - destruct (bool_decide (key ≠ defaultHighlightColor)) eqn:Hd;
        destruct (String.prefix "http" key) eqn:Hp; simpl.
      + apply bool_decide_eq_true in Hd. case_bool_decide as Hlen.
        * split; [|by intros ([= ->] & _)].
          intros [= ->]. split_and!; [done| |done|done].
          destruct highlights; [simpl in Hlen; lia|done].
        * split; [done|]. intros ([= ->] & Hne & _). destruct highlights; [done|].
          simpl in Hlen. lia.
      + split; [done|]. by intros (_ & _ & _ & ?).
      + apply bool_decide_eq_false in Hd. split; [done|]. intros (_ & _ & ? & _). tauto.
      + split; [done|]. by intros (_ & _ & _ & ?).
    - split; [done|]. by intros [[=] _]. }
  split_and!; [done|..].
  - destruct (Popup.getAllWebsitesWithHighlights result !! defaultHighlightColor) as [l|] eqn:Hl;
      [|done].
    apply Hspec in Hl as (_ & _ & ? & _). done.
  - intros u.
    destruct (Popup.getAllWebsitesWithHighlights result !! Anchored.backupKey u) as [l|] eqn:Hl;
      [|done].
    apply Hspec in Hl as (_ & _ & _ & Hp). by rewrite prefix_http_backupKey in Hp.
Qed.

Lemma manager_lists_no_backup_witness :
  let saved :=
    Anchored.saveHighlight "highlight-1700000000000-1" "quick brown" "#ffff00"
      1700000000000 foxHighlighted in
  Popup.getAllWebsitesWithHighlights (pageEntries (storage saved))
  = {[ foxUrl := [savedFoxRecord] ]}
  ∧ Popup.getAllWebsitesWithHighlights
      (pageEntries (storage (Anchored.clearAllHighlights saved).2)) !! foxUrl = None
  ∧ storage (Anchored.clearAllHighlights saved).2 !! Anchored.backupKey foxUrl
    = Some [savedFoxRecord].
Proof.
  intros saved. split_and!; [by vm_compute| |by vm_compute].
  destruct (manager_lists_no_backup
              (pageEntries (storage (Anchored.clearAllHighlights saved).2))) as (Hspec & _).
  destruct (Popup.getAllWebsitesWithHighlights _ !! foxUrl) as [l|] eqn:Hl; [|done].
  apply Hspec in Hl as (Hl & _). by vm_compute in Hl.
Defined.

(** The default colour.  [getDefaultColor] answers with the colour that
    was last written by [setDefaultColor] or by the popup's
    [saveDefaultColor]; when that was the empty string, or when nothing is
    stored, it answers with yellow.  After [clearAllData] whose [clear()]
    went through it answers with yellow and the manager lists no page,
    whether or not the colour could be written again; when [clear()] was
    rejected the storage is as it was. *)
Theorem default_colour_round_trip (color : string) (s : Store) :
  Background.getDefaultColor (Background.setDefaultColor true color s).2
  = StoredString (if bool_decide (color = EmptyString) then "#ffff00" else color)
  ∧ Background.getDefaultColor (Popup.saveDefaultColor true color s)
    = StoredString (if bool_decide (color = EmptyString) then "#ffff00" else color)
  ∧ Background.setDefaultColor false color s = (false, s)
  ∧ Background.getDefaultColor ∅ = StoredString "#ffff00"
  ∧ (∀ reset,
       Background.getDefaultColor (Background.clearAllData true reset s).2
       = StoredString "#ffff00"
       ∧ Popup.getAllWebsitesWithHighlights (Background.clearAllData true reset s).2 = ∅
       ∧ (Background.clearAllData true reset s).1 = reset)
  ∧ (∀ reset, Background.clearAllData false reset s = (false, s)).
Proof.
  split_and!; try done.
  - unfold Background.setDefaultColor, Background.getDefaultColor, Store in *. cbn [snd].
    rewrite lookup_insert_eq. unfold JsString.truthy. by case_bool_decide.
  - unfold Popup.saveDefaultColor, Background.getDefaultColor, Store in *.
    rewrite lookup_insert_eq. unfold JsString.truthy. by case_bool_decide.
  - intros [|]; by vm_compute.
Qed.

(** ** One text node, and nothing else *)

(** A node that is replaced by one node: every node that is neither above
    it nor below it stays where it is and as it is. *)
Lemma nodeAt_replaceChild_one p x b q :
  ¬ q `prefix_of` p → ¬ p `prefix_of` q →
  nodeAt q (replaceChild p [x] b) = nodeAt q b.
Proof.
  revert b q. induction p as [|i p IH]; intros b q Hqp Hpq; [done|].
  destruct b as [s|a cs]; [done|].
  destruct q as [|j q]; [destruct Hqp; apply prefix_nil|].
  destruct p as [|i' p'].
  - simpl. case_bool_decide as Hi; [|done]. simpl. rewrite <-insert_take_drop by done.
    destruct (decide (j = i)) as [->|Hne].
    + destruct Hpq. by exists q.
    + by rewrite list_lookup_insert_ne.
  - change (replaceChild (i :: i' :: p') [x] (Elem a cs))
      with (Elem a (alter (replaceChild (i' :: p') [x]) i cs)).
    simpl. destruct (decide (j = i)) as [->|Hne].
    + rewrite list_lookup_alter_eq. destruct (cs !! i) as [c|]; [|done]. simpl.
      apply IH.
      * intros [k Hk]. apply Hqp. exists k. by rewrite Hk.
      * intros [k Hk]. apply Hpq. exists k. by rewrite Hk.
    + by rewrite list_lookup_alter_ne.
Qed.

Lemma partialInNode_contains text target sub :
  Anchored.partialInNode text target = Some sub → contains sub text.
Proof.
  intros (j & k & (Hm & Hk & Hj & _) & -> & _)%partialInNode_Some.
  exists (JsString.take j text), (JsString.drop (j + k) text).
  apply substring_split. lia.
Qed.

Lemma highlightTextNode_replaces `{Platform} p h b text :
  dataAt p b = Some text → contains (h_text h) text →
  Anchored.highlightTextNode p h b
  = replaceChild p
      [Elem (plainAttrs "span")
         (parseFragment (JsString.replaceAll text (h_text h) (Anchored.markup h)))] b.
Proof.
  intros Hd Hc. unfold Anchored.highlightTextNode, dataAt in *.
  destruct (nodeAt p b) as [[t|]|]; simplify_eq.
  apply contains_includes in Hc. by rewrite Hc.
Qed.

(** A restoration of the anchored variant works on one text node or on
    none.  With none the document stays as it is.  Otherwise that text
    node, which lies under the element the anchors lead to when they lead
    to one, gives way to one plain [span]; as one node stands where one
    node stood, every node of the document that is neither the text node
    nor above it is found afterwards at the path it had, unchanged. *)
Theorem anchored_restoration_is_local `{Platform} (h : HighlightRecord) (b : node) :
  (chosenTextNode h b = None → Anchored.restoreHighlight h b = b)
  ∧ (∀ p, chosenTextNode h b = Some p →
       is_Some (dataAt p b)
       ∧ (∀ el, Anchored.targetElement h b = Some el → el `prefix_of` p)
       ∧ (∃ container,
            Anchored.restoreHighlight h b
            = replaceChild p [Elem (plainAttrs "span") container] b)
       ∧ (∀ q, ¬ q `prefix_of` p → ¬ p `prefix_of` q →
            nodeAt q (Anchored.restoreHighlight h b) = nodeAt q b)).
Proof.
  assert (∀ p, chosenTextNode h b = Some p →
            is_Some (dataAt p b)
            ∧ (∀ el, Anchored.targetElement h b = Some el → el `prefix_of` p)
            ∧ ∃ container,
                Anchored.restoreHighlight h b
                = replaceChild p [Elem (plainAttrs "span") container] b) as Hchosen.
  { intros p. unfold chosenTextNode, Anchored.restoreHighlight.
    destruct (Anchored.targetElement h b) as [el|] eqn:Hel.
    - intros Hex. unfold Anchored.findAndHighlightText. rewrite Hex.
      apply exactMatch_Some in Hex as (text & i & Hi & Hd & Hc & _).
      split_and!; [by eexists| |].
      + intros el' [= <-]. apply list_elem_of_lookup_2 in Hi.
        unfold Anchored.textNodesOf in Hi. destruct (nodeAt el b); [|by apply elem_of_nil in Hi].
        apply list_elem_of_fmap in Hi as (p0 & -> & _). by exists p0.
      + eexists. by apply highlightTextNode_replaces.
    - unfold Anchored.searchAndHighlightText, Anchored.search.
      destruct (Anchored.exactMatch _ _ _) as [p'|] eqn:Hex.
      + intros [= <-]. apply exactMatch_Some in Hex as (text & i & Hi & Hd & Hc & _).
        split_and!; [by eexists|done|]. eexists. by apply highlightTextNode_replaces.
      + destruct (Anchored.partialMatch _ _ _) as [[p' sub]|] eqn:Hp; [|done].
        intros [= <-].
        apply partialMatch_Some in Hp as (text & (i & Hi & Hd & _) & Hsub).
        apply partialInNode_Some, partialInNode_contains in Hsub.
        split_and!; [by eexists|done|]. eexists.
        by apply (highlightTextNode_replaces p' (Anchored.withText h sub) b text). }
  split.
  - unfold chosenTextNode, Anchored.restoreHighlight.
    destruct (Anchored.targetElement h b) as [el|].
    + unfold Anchored.findAndHighlightText. by intros ->.
    + unfold Anchored.searchAndHighlightText.
      destruct (Anchored.search _ _); [done|done|done].
  - intros p Hp. destruct (Hchosen p Hp) as (Hd & Hel & container & Heq).
    split_and!; [done|done|by exists container|].
    intros q Hqp Hpq. rewrite Heq. by apply nodeAt_replaceChild_one.
Qed.

Lemma anchored_restoration_is_local_witness :
  chosenTextNode (H := Plain.platform) foxRecord movedDocument = Some [1; 0]
  ∧ nodeAt [0] (Anchored.restoreHighlight (H := Plain.platform) foxRecord movedDocument)
    = nodeAt [0] movedDocument
  ∧ chosenTextNode (H := Plain.platform) savedFoxRecord movedDocument = None
  ∧ Anchored.restoreHighlight (H := Plain.platform) savedFoxRecord movedDocument
    = movedDocument.
Proof.
  destruct (anchored_restoration_is_local (H := Plain.platform) foxRecord movedDocument)
    as [_ Hlocal].
  destruct (anchored_restoration_is_local (H := Plain.platform) savedFoxRecord movedDocument)
    as [Hnone _].
  destruct (Hlocal [1; 0] eq_refl) as (_ & _ & _ & Hother).
  split_and!; [done| |done|by apply Hnone].
  apply Hother.
  - intros [k Hk]. done.
  - intros [k Hk]. done.
Defined.

(** ** Highlighting in the anchored variant *)

Lemma newHighlightId_not_empty now counter : newHighlightId now counter ≠ EmptyString.
Proof. done. Qed.

(** In the anchored variant, on a page whose storage accepts writes,
    highlighting a selection that is not blank always saves a record: the
    span that was just inserted carries the new id, so [saveHighlight]
    finds an element to take the anchors from.  The record, with the text
    of the selection, the selector [#] and the id, and the XPath with the id
    test, goes to the end of the collection, under the URL and under the
    backup key. *)
Theorem anchored_highlight_is_saved
    (color : string) (now : N) (range : Range) (w : Page) :
  writable w = true →
  validRange range (body w) = true →
  JsString.trim (rangeToString range (body w)) ≠ EmptyString →
  let highlightId := newHighlightId now (S (highlightCounter w)) in
  let record :=
    Highlight highlightId (rangeToString range (body w)) color (url w) now
      (Some ("#" +:+ highlightId))
      (Some ("//*[@id=" +:+ dquote +:+ highlightId +:+ dquote +:+ "]")) in
  let result := Anchored.highlightSelection color now [range] w in
  result.1 = Success highlightId
  ∧ storage result.2
    = <[Anchored.backupKey (url w) := storageGet (url w) w ++ [record]]>
        (<[url w := storageGet (url w) w ++ [record]]> (storage w)).
Proof.
  intros Hw Hv Htrim highlightId record result.
  destruct (createHighlight_spec range color now w Hv)
    as (b & contents & pt & b1 & b2 & _ & _ & _ & Hins & _ & Ha & _ & _).
  fold highlightId in Hins, Ha.
  apply insertNode_nodeAt in Hins as [q Hq].
  set (w1 := setBody b2 (setCounter (S (highlightCounter w)) w)) in *.
  assert (result = (Success highlightId,
                    Anchored.saveHighlight highlightId (rangeToString range (body w))
                      color now w1)) as ->.
  { unfold result, Anchored.highlightSelection. rewrite selectionToString_one.
    unfold JsString.truthy. rewrite bool_decide_eq_false_2 by done. simpl negb. cbv iota.
    by rewrite Ha. }
  split; [done|]. cbn [snd].
  assert (is_Some (getElementById highlightId (body w1))) as Hel.
  { destruct (getElementById highlightId (body w1)) as [el|] eqn:Hnone; [by eexists|].
    apply getElementById_None in Hnone as [Hempty|Hzero].
    - by apply newHighlightId_not_empty in Hempty.
    - apply withId_nil in Hzero.
      assert ((q, (Attrs "span" highlightId highlightClass color, contents))
              ∈ withId highlightId (body w1)) as Hin.
      { apply list_elem_of_filter. split; [done|]. by apply elements_spec. }
      rewrite Hzero in Hin. by apply elem_of_nil in Hin. }
  by rewrite (anchored_saveHighlight_stores _ _ _ _ w1 Hw Hel).
Qed.

Lemma anchored_highlight_is_saved_witness :
  let result :=
    Anchored.highlightSelection "#ffff00" 1700000000000 foxSelection
      (freshPage foxDocument foxUrl) in
  result.1 = Success "highlight-1700000000000-1"
  ∧ storage result.2 !! foxUrl = Some [savedFoxRecord]
  ∧ storage result.2 !! Anchored.backupKey foxUrl = Some [savedFoxRecord].
Proof.
  intros result.
  assert (writable (freshPage foxDocument foxUrl) = true) as Hw by done.
  assert (validRange (MkRange [0; 0] 4 [0; 0] 15) (body (freshPage foxDocument foxUrl)) = true)
    as Hv by done.
  assert (JsString.trim (rangeToString (MkRange [0; 0] 4 [0; 0] 15)
                           (body (freshPage foxDocument foxUrl))) ≠ EmptyString)
    as Htrim by done.
  destruct (anchored_highlight_is_saved "#ffff00" 1700000000000
              (MkRange [0; 0] 4 [0; 0] 15) (freshPage foxDocument foxUrl) Hw Hv Htrim)
    as (Hr & Hs).
  split_and!; [exact Hr| |].
  - fold foxSelection in Hs. fold result in Hs. rewrite Hs. by vm_compute.
  - fold foxSelection in Hs. fold result in Hs. rewrite Hs. by vm_compute.
Defined.

(** ** Where the new nodes stand *)

Lemma nodeAt_replaceChild_same p x b :
  p ≠ [] → is_Some (nodeAt p b) → nodeAt p (replaceChild p [x] b) = Some x.
Proof.
  intros Hp Hold. destruct (path_snoc p Hp) as (parent & i & ->).
  pose proof (nodeAt_replaceChild_new parent i [x] b 0 [] Hold) as Hn.
  rewrite Nat.add_0_r in Hn. apply Hn. simpl. lia.
Qed.

Lemma textNodesOf_ne root b p : p ∈ Anchored.textNodesOf root b → p ≠ [].
Proof.
  unfold Anchored.textNodesOf. destruct (nodeAt root b); [|by intros ?%elem_of_nil].
  intros (p0 & -> & [Hne _]%getTextNodes_spec)%list_elem_of_fmap.
  by destruct root.
Qed.

Lemma firstWith_dataAt P b nodes p text :
  firstWith P b nodes p text → p ∈ nodes ∧ dataAt p b = Some text ∧ P text.
Proof. intros (i & Hi & Hd & HP & _). split; [by eapply list_elem_of_lookup_2|done]. Qed.

Lemma dataAt_nodeAt p b text : dataAt p b = Some text → nodeAt p b = Some (Text text).
Proof. unfold dataAt. destruct (nodeAt p b) as [[s|]|]; [by intros [= ->]|done..]. Qed.

(** What [highlightTextNode] leaves in the place of a text node whose
    text contains the text to wrap, which is not empty: a plain span whose
    markup is the text with its first occurrence of the text to wrap, and
    every later one, in a highlight span. *)
Lemma highlightTextNode_wraps `{Platform} p h b text :
  p ≠ [] → dataAt p b = Some text → contains (h_text h) text → h_text h ≠ EmptyString →
  let container :=
    Elem (plainAttrs "span")
      (parseFragment (JsString.replaceAll text (h_text h) (Anchored.markup h))) in
  Anchored.highlightTextNode p h b = replaceChild p [container] b
  ∧ nodeAt p (Anchored.highlightTextNode p h b) = Some container
  ∧ (∀ q, ¬ q `prefix_of` p → ¬ p `prefix_of` q →
       nodeAt q (Anchored.highlightTextNode p h b) = nodeAt q b)
  ∧ ∃ before after,
      text = before +:+ h_text h +:+ after
      ∧ (∀ j, j < String.length before → ¬ occursAt text (h_text h) j)
      ∧ JsString.replaceAll text (h_text h) (Anchored.markup h)
        = before +:+ Anchored.markup h (h_text h)
          +:+ JsString.replaceAll after (h_text h) (Anchored.markup h).
Proof.
  intros Hp Hd Hc Hne container.
  rewrite (highlightTextNode_replaces p h b text Hd Hc). fold container.
  split_and!; [done| | |].
  - apply nodeAt_replaceChild_same; [done|]. apply dataAt_nodeAt in Hd. by rewrite Hd.
  - intros q ? ?. by apply nodeAt_replaceChild_one.
  - destruct (fragment_first_occurrence h text (h_text h) Hc)
      as (before & after & Heq & Hmin & _).
    exists before, after. split_and!; [done..|].
    rewrite Heq at 1. apply replaceAll_first; [done|]. by rewrite <-Heq.
Qed.

(** ** The exact Locator (claim C8) *)

(** C8, amended.  The walker lists the text nodes below the search root,
    and only them, in document order: their data in that order spell the
    text content of the root.  Let the target be not empty, and let the
    text node at [parent ++ [i]] be the first whose text contains it.  The
    target has a first occurrence in that text, after [before] and followed
    by [after].  In [content.js], for a target that is not white space
    only, the node gives way to [before], the span holding the target, and
    [after], an empty [before] or [after] being left out: the span stands
    at [i] plus the number of nodes before it, under the same parent.  In
    the anchored variant, for the text nodes of the element at [root], the
    node gives way to the plain span whose markup is [before], the target
    in its span, and the rest of the text with every further occurrence in
    a span as well.  When no text node contains the target, or, in
    [content.js], when the target is white space only, the document stays
    as it is: the test for white space stands before the walk, and the
    walk of [content.js], entered with any target that is not empty,
    replaces the first node that contains it. *)
Theorem exact_locator_first_match `{Platform} (h : HighlightRecord) (b : node) (root : path) :
  h_text h ≠ EmptyString →
  (∀ p, p ∈ getTextNodes b ↔ p ≠ [] ∧ is_Some (dataAt p b))
  ∧ (isElement b = true →
     JsString.concat ((λ p, default EmptyString (dataAt p b)) <$> getTextNodes b)
     = textContent b)
  ∧ (JsString.trim (h_text h) ≠ EmptyString →
     ∀ parent i text,
       firstWith (contains (h_text h)) b (getTextNodes b) (parent ++ [i]) text →
       ∃ before after,
         text = before +:+ h_text h +:+ after
         ∧ (∀ j, j < String.length before → ¬ occursAt text (h_text h) j)
         ∧ Content.fragment h text (h_text h)
           = textChildren before ++ [Content.highlightSpan h (h_text h)]
             ++ textChildren after
         ∧ Content.restoreHighlight h b
           = replaceChild (parent ++ [i]) (Content.fragment h text (h_text h)) b
         ∧ nodeAt (parent ++ [i + length (textChildren before)])
             (Content.restoreHighlight h b)
           = Some (Elem (Attrs "span" (h_id h) highlightClass (h_color h))
                     [Text (h_text h)]))
  ∧ (∀ p text,
       firstWith (contains (h_text h)) b (Anchored.textNodesOf root b) p text →
       let container :=
         Elem (plainAttrs "span")
           (parseFragment (JsString.replaceAll text (h_text h) (Anchored.markup h))) in
       Anchored.findAndHighlightText root h b = replaceChild p [container] b
       ∧ nodeAt p (Anchored.findAndHighlightText root h b) = Some container
       ∧ ∃ before after,
           text = before +:+ h_text h +:+ after
           ∧ (∀ j, j < String.length before → ¬ occursAt text (h_text h) j)
           ∧ JsString.replaceAll text (h_text h) (Anchored.markup h)
             = before +:+ Anchored.markup h (h_text h)
               +:+ JsString.replaceAll after (h_text h) (Anchored.markup h))
  ∧ (JsString.trim (h_text h) = EmptyString
     ∨ noneWith (contains (h_text h)) b (getTextNodes b) →
     Content.restoreHighlight h b = b)
  ∧ (noneWith (contains (h_text h)) b (Anchored.textNodesOf root b) →
     Anchored.findAndHighlightText root h b = b)
  ∧ (∀ p text,
       firstWith (contains (h_text h)) b (getTextNodes b) p text →
       Content.locate h b (getTextNodes b)
       = replaceChild p (Content.fragment h text (h_text h)) b).
Proof.
  intros Hne. split_and!.
  - intros p. rewrite getTextNodes_spec. unfold dataAt. split; intros [? Hs]; split; try done.
    + destruct Hs as [s ->]. by eexists.
    + destruct (nodeAt p b) as [[s|]|]; [by exists s|by destruct Hs..].
  - destruct b as [s|a cs]; [done|]. intros _. apply textPaths_in_document_order.
  - intros Htrim parent i text Hfirst.
    destruct (firstWith_dataAt _ _ _ _ _ Hfirst) as (_ & Hd & Hc).
    destruct (fragment_first_occurrence h _ _ Hc) as (before & after & Heq & Hmin & Hfrag).
    assert (Content.restoreHighlight h b
            = replaceChild (parent ++ [i]) (Content.fragment h text (h_text h)) b) as Hres.
    { unfold Content.restoreHighlight. unfold JsString.truthy.
      rewrite !bool_decide_eq_false_2 by done. cbn [negb orb].
      rewrite locate_exactMatch.
      assert (Anchored.exactMatch (h_text h) b (getTextNodes b) = Some (parent ++ [i])) as ->
        by (apply exactMatch_Some; eauto).
      by rewrite Hd. }
    exists before, after. split_and!; [done..|].
    rewrite Hres, Hfrag.
    pose proof (nodeAt_replaceChild_new parent i
                  (textChildren before ++ [Content.highlightSpan h (h_text h)]
                   ++ textChildren after) b (length (textChildren before)) []) as Hn.
    rewrite Hn.
    + rewrite lookup_app_r by lia. rewrite Nat.sub_diag. simpl.
      unfold Content.highlightSpan, textChildren, JsString.truthy.
      by rewrite bool_decide_eq_false_2.
    + apply dataAt_nodeAt in Hd. by rewrite Hd.
    + rewrite !length_app. simpl. lia.
  - intros p text Hfirst container.
    destruct (firstWith_dataAt _ _ _ _ _ Hfirst) as (Hp%textNodesOf_ne & Hd & Hc).
    unfold Anchored.findAndHighlightText.
    assert (Anchored.exactMatch (h_text h) b (Anchored.textNodesOf root b) = Some p) as ->
      by (apply exactMatch_Some; eauto).
    destruct (highlightTextNode_wraps p h b text Hp Hd Hc Hne) as (H1 & H2 & _ & H4).
    done.
  - intros [Hblank|Hnone]; unfold Content.restoreHighlight.
    + rewrite Hblank. by rewrite orb_true_r.
    + destruct (_ || _); [done|]. rewrite locate_exactMatch.
      by apply exactMatch_None in Hnone as ->.
  - intros Hnone. unfold Anchored.findAndHighlightText.
    by apply exactMatch_None in Hnone as ->.
  - intros p text Hfirst.
    destruct (firstWith_dataAt _ _ _ _ _ Hfirst) as (_ & Hd & _).
    rewrite locate_exactMatch.
    assert (Anchored.exactMatch (h_text h) b (getTextNodes b) = Some p) as ->
      by (apply exactMatch_Some; eauto).
    by rewrite Hd.
Qed.

Lemma exact_locator_first_match_witness :
  Content.restoreHighlight foxRecord foxDocument
  = Elem (plainAttrs "body") [Elem (plainAttrs "p") [Text "The "; foxSpan; Text " fox"]]
  ∧ nodeAt [0; 1] (Content.restoreHighlight foxRecord foxDocument) = Some foxSpan
  ∧ Anchored.findAndHighlightText (H := Plain.platform) [0] foxRecord twiceDocument
    = Elem (plainAttrs "body")
        [Elem (plainAttrs "p")
           [Elem (plainAttrs "span")
              [foxSpan; Text ", "; foxSpan]]]
  ∧ Content.restoreHighlight quackRecord foxDocument = foxDocument.
Proof.
  assert (h_text foxRecord ≠ EmptyString) as Hne by done.
  assert (JsString.trim (h_text foxRecord) ≠ EmptyString) as Htrim by done.
  destruct (exact_locator_first_match (H := Plain.platform) foxRecord foxDocument [] Hne)
    as (_ & _ & H1 & _).
  destruct (H1 Htrim [0] 0 _ fox_is_first) as (before & after & _ & _ & _ & Hres & Hspan).
  assert (length (textChildren before) = 1) as Hone.
  { destruct (textChildren before) as [|x [|y l]] eqn:Hb; [|done|].
    - rewrite Hres in Hspan. by vm_compute in Hspan.
    - rewrite Hres in Hspan. vm_compute in Hspan. destruct l; done. }
  rewrite Hone in Hspan.
  destruct (exact_locator_first_match (H := Plain.platform) foxRecord twiceDocument [0] Hne)
    as (_ & _ & _ & H2 & _).
  assert (firstWith (contains "quick brown") twiceDocument
            (Anchored.textNodesOf [0] twiceDocument) [0; 0] "quick brown, quick brown")
    as Hfirst.
  { exists 0. split_and!; [done|done|by apply contains_includes|intros; lia]. }
  destruct (H2 _ _ Hfirst) as (Hfound & _).
  assert (h_text quackRecord ≠ EmptyString) as Hne' by done.
  destruct (exact_locator_first_match (H := Plain.platform) quackRecord foxDocument [] Hne')
    as (_ & _ & _ & _ & Hnone & _).
  split_and!.
  - rewrite Hres. by vm_compute.
  - exact Hspan.
  - rewrite Hfound. by vm_compute.
  - apply Hnone. right. by apply exactMatch_None.
Defined.

(** C8 as it is stated fails for [content.js]: a target of one space is
    not empty, and the first text node of [foxDocument] contains it, yet
    [restoreHighlight] returns before the walk and leaves the document as
    it is.  The anchored variant, which has no such test, wraps the target
    in that node, at each of its three occurrences. *)
Lemma blank_target_is_not_located :
  let h := Anchored.withText foxRecord " " in
  h_text h ≠ EmptyString
  ∧ firstWith (contains (h_text h)) foxDocument (getTextNodes foxDocument)
      [0; 0] "The quick brown fox"
  ∧ Content.restoreHighlight h foxDocument = foxDocument
  ∧ Anchored.findAndHighlightText (H := Plain.platform) [] h foxDocument
    = Elem (plainAttrs "body")
        [Elem (plainAttrs "p")
           [Elem (plainAttrs "span")
              [Text "The";
               Elem (Attrs "span" (h_id foxRecord) highlightClass "#ffff00") [Text " "];
               Text "quick";
               Elem (Attrs "span" (h_id foxRecord) highlightClass "#ffff00") [Text " "];
               Text "brown";
               Elem (Attrs "span" (h_id foxRecord) highlightClass "#ffff00") [Text " "];
               Text "fox"]]].
Proof.
  split_and!; [done| |by vm_compute|by vm_compute].
  exists 0. split_and!; [done|done|by apply contains_includes|intros; lia].
Qed.

(** ** The approximate fallback (claim C2) *)

Lemma firstCandidate_not_empty target text sub :
  firstCandidate target text sub → sub ≠ EmptyString ∧ contains sub text.
Proof.
  intros Hsub. split.
  - destruct Hsub as (j & k & (Hm & Hk & Hj & _) & -> & _).
    intros Hempty. apply (f_equal String.length) in Hempty.
    rewrite length_substring in Hempty by lia. unfold Anchored.minLength in Hm.
    simpl in Hempty. lia.
  - by apply partialInNode_contains with target, partialInNode_Some.
Qed.

(** C2.  The minimum length is the greater of 3 and half the length of
    the target, rounded down.  [searchAndHighlightText] first looks for a
    text node that contains the target; if there is one, the search ends
    with it and no approximate match is tried.  Only when no text node of
    the body contains the target does the fallback run: the first text
    node that has a qualifying substring is taken, and in it the first
    qualifying substring, offsets in ascending order and lengths in
    ascending order for each offset.  That text node gives way to a plain
    span whose markup is the text of the node with the accepted substring,
    where it first occurs and wherever it occurs again, in a highlight
    span with the id and the colour of the record; every node that is
    neither that text node nor above it stays as it is.  When no text node
    has a qualifying substring the document stays as it is. *)
Theorem approximate_fallback `{Platform} (h : HighlightRecord) (b : node) :
  (∃ m, 2 * m ≤ String.length (h_text h) ≤ 2 * m + 1
        ∧ Anchored.minLength (h_text h) = 3 `max` m)
  ∧ (∀ p text,
       firstWith (contains (h_text h)) b (getTextNodes b) p text →
       Anchored.search (h_text h) b = Anchored.FoundExact p)
  ∧ (∀ p sub,
       Anchored.search (h_text h) b = Anchored.FoundPartial p sub →
       noneWith (contains (h_text h)) b (getTextNodes b))
  ∧ (noneWith (contains (h_text h)) b (getTextNodes b) →
     (∀ p text sub,
        firstWith (hasCandidate (h_text h)) b (getTextNodes b) p text →
        firstCandidate (h_text h) text sub →
        let container :=
          Elem (plainAttrs "span")
            (parseFragment (JsString.replaceAll text sub (Anchored.markup h))) in
        Anchored.search (h_text h) b = Anchored.FoundPartial p sub
        ∧ Anchored.searchAndHighlightText h b = replaceChild p [container] b
        ∧ nodeAt p (Anchored.searchAndHighlightText h b) = Some container
        ∧ (∀ q, ¬ q `prefix_of` p → ¬ p `prefix_of` q →
             nodeAt q (Anchored.searchAndHighlightText h b) = nodeAt q b)
        ∧ ∃ before after,
            text = before +:+ sub +:+ after
            ∧ (∀ j, j < String.length before → ¬ occursAt text sub j)
            ∧ JsString.replaceAll text sub (Anchored.markup h)
              = before +:+ Anchored.markup h sub
                +:+ JsString.replaceAll after sub (Anchored.markup h))
     ∧ (noneWith (hasCandidate (h_text h)) b (getTextNodes b) →
        Anchored.search (h_text h) b = Anchored.NotFound
        ∧ Anchored.searchAndHighlightText h b = b)).
Proof.
  split_and!.
  - exists (String.length (h_text h) / 2). split; [|done].
    pose proof (Nat.div_mod_eq (String.length (h_text h)) 2).
    pose proof (Nat.mod_upper_bound (String.length (h_text h)) 2). lia.
  - intros p text Hfirst.
    assert (Anchored.exactMatch (h_text h) b (getTextNodes b) = Some p) as Hex
      by (apply exactMatch_Some; eauto).
    unfold Anchored.search. by rewrite Hex.
  - intros p sub. unfold Anchored.search.
    destruct (Anchored.exactMatch _ _ _) eqn:Hex; [done|].
    intros _. by apply exactMatch_None.
  - intros Hnone. apply exactMatch_None in Hnone. split.
    + intros p text sub Hfirst Hsub container.
      assert (Anchored.partialMatch (h_text h) b (getTextNodes b) = Some (p, sub)) as Hp
        by (apply partialMatch_Some; eauto).
      assert (Anchored.search (h_text h) b = Anchored.FoundPartial p sub) as Hsearch.
      { unfold Anchored.search. by rewrite Hnone, Hp. }
      destruct (firstWith_dataAt _ _ _ _ _ Hfirst) as ([Hne _]%getTextNodes_spec & Hd & _).
      destruct (firstCandidate_not_empty _ _ _ Hsub) as [Hsubne Hc].
      destruct (highlightTextNode_wraps p (Anchored.withText h sub) b text Hne Hd Hc Hsubne)
        as (H1 & H2 & H3 & H4).
      unfold Anchored.searchAndHighlightText. rewrite Hsearch.
      split_and!; done.
    + intros Hnone'. apply partialMatch_None in Hnone'.
      unfold Anchored.searchAndHighlightText, Anchored.search. by rewrite Hnone, Hnone'.
Qed.

Lemma approximate_fallback_witness :
  Anchored.minLength "quack brown" = 5
  ∧ Anchored.search "quack brown" foxDocument = Anchored.FoundPartial [0; 0] "ck br"
  ∧ Anchored.searchAndHighlightText (H := Plain.platform) quackRecord foxDocument
    = Elem (plainAttrs "body")
        [Elem (plainAttrs "p")
           [Elem (plainAttrs "span")
              [Text "The qui";
               Elem (Attrs "span" (h_id foxRecord) highlightClass "#ffff00") [Text "ck br"];
               Text "own fox"]]].
Proof.
  destruct (approximate_fallback (H := Plain.platform) quackRecord foxDocument)
    as (_ & _ & _ & Hfallback).
  assert (Anchored.exactMatch "quack brown" foxDocument (getTextNodes foxDocument) = None)
    as Hnone%exactMatch_None by done.
  assert (Anchored.partialMatch "quack brown" foxDocument (getTextNodes foxDocument)
          = Some ([0; 0], "ck br")) as (text & Hfirst & Hsub)%partialMatch_Some by done.
  destruct (Hfallback Hnone) as [Hfound _].
  destruct (firstWith_dataAt _ _ _ _ _ Hfirst) as (_ & Hd & _).
  assert (text = "The quick brown fox") as -> by (by vm_compute in Hd; simplify_eq).
  destruct (Hfound _ _ _ Hfirst Hsub) as (Hsearch & Hres & _).
  split_and!; [done|exact Hsearch|].
  rewrite Hres. by vm_compute.
Defined.

(** ** Records as the scripts save them, and what their anchors lead to *)
















(** ** Anchors before the Locator (claim C3) *)



(** ** The text of a stored record (claim C9) *)

(** C9, at its failing input and beyond it.  A selection whose string is
    empty or white space only is answered with a failure, and the page,
    storage included, stays as it was; restoring a record with an empty
    text leaves the document alone.  But the string that is tested is that
    of the selection, and the text that is stored is that of its first
    range: on a page whose storage accepts writes, every selection whose
    string is not blank is answered with success, and the record that is
    stored has the text of the first range.  With one range that text is
    not empty.  With several it is empty whenever the first range holds no
    text: for the two cells of [cellsDocument], selected as Firefox keeps
    them, the string of the selection is [quick brown], the answer is a
    success, an empty span takes the place of the first cell, and the
    record that is stored has the empty text; no restoration will ever
    show it. *)
Theorem first_range_is_stored_unchecked :
  (∀ color now selection w,
     JsString.trim (selectionToString selection (body w)) = EmptyString →
     Content.highlightSelection color now selection w = (Failure "No text selected", w))
  ∧ (∀ h b, h_text h = EmptyString → Content.restoreHighlight h b = b)
  ∧ (∀ color now first rest w,
       writable w = true →
       validRange first (body w) = true →
       JsString.trim (selectionToString (first :: rest) (body w)) ≠ EmptyString →
       let result := Content.highlightSelection color now (first :: rest) w in
       let highlightId := newHighlightId now (S (highlightCounter w)) in
       result.1 = Success highlightId
       ∧ storage result.2
         = <[url w := storageGet (url w) w
                      ++ [Highlight highlightId (rangeToString first (body w)) color
                            (url w) now None None]]> (storage w)
       ∧ (rest = [] → textsNonEmpty w → textsNonEmpty result.2)
       ∧ (rangeToString first (body w) = EmptyString → ¬ textsNonEmpty result.2))
  ∧ (let result :=
       Content.highlightSelection "#ffff00" 1700000000000 cellsSelection
         (freshPage cellsDocument foxUrl) in
     selectionToString cellsSelection cellsDocument = "quick brown"
     ∧ result.1 = Success "highlight-1700000000000-1"
     ∧ storageGet foxUrl result.2
       = [Highlight "highlight-1700000000000-1" EmptyString "#ffff00" foxUrl
            1700000000000 None None]
     ∧ body result.2
       = Elem (plainAttrs "body")
           [Elem (plainAttrs "table")
              [Elem (plainAttrs "tbody")
                 [Elem (plainAttrs "tr")
                    [Elem (Attrs "span" "highlight-1700000000000-1" highlightClass "#ffff00")
                       [];
                     Elem (plainAttrs "td") [Text "quick brown"]]]]]
     ∧ Content.restoreHighlights result.2 = result.2
     ∧ Content.getCurrentHighlights (λ c, c)
         (body (Content.refreshHighlightsFromStorage result.2)) = []).
Proof.
  split_and!; [| | |by vm_compute].
  - intros color now selection w Hblank. unfold Content.highlightSelection.
    by rewrite Hblank.
  - intros h b Hempty. unfold Content.restoreHighlight. by rewrite Hempty.
  - intros color now first rest w Hw Hv Htrim result highlightId.
    destruct (createHighlight_spec first color now w Hv)
      as (b & contents & pt & b1 & b2 & _ & _ & _ & _ & Hc & _ & _ & _).
    fold highlightId in Hc.
    set (record := Highlight highlightId (rangeToString first (body w)) color (url w) now
                     None None).
    assert (result = (Success highlightId,
                      setStorage (<[url w := storageGet (url w) w ++ [record]]> (storage w))
                        (setBody b1 (setCounter (S (highlightCounter w)) w)))) as ->.
    { unfold result, Content.highlightSelection.
      unfold JsString.truthy. rewrite bool_decide_eq_false_2 by done. simpl negb. cbv iota.
      rewrite Hc. unfold Content.saveHighlight, storageSet, storageGet. simpl.
      by rewrite Hw. }
    cbn [fst snd]. split_and!; [done|done| |].
    + intros -> Hall. rewrite selectionToString_one in Htrim.
      apply (textsNonEmpty_insert (setBody b1 (setCounter (S (highlightCounter w)) w)));
        [done|].
      intros h [Hh|Hh]%elem_of_app.
      * by eapply storageGet_nonEmpty.
      * apply list_elem_of_singleton in Hh as ->. simpl. by apply trim_not_empty.
    + intros Hempty Hall.
      apply (Hall (url w) (storageGet (url w) w ++ [record]) record).
      * simpl. by rewrite lookup_insert_eq.
      * apply elem_of_app. right. by left.
      * done.
Qed.

(** ** Node references through a restoration *)

Lemma stopsAt_exactMatch h b nodes :
  Content.stopsAt h b nodes = Anchored.exactMatch (h_text h) b nodes.
Proof. induction nodes as [|q rest IH]; [done|]. simpl. by rewrite IH. Qed.

(** The node that is replaced and the nodes above it keep their paths. *)
Lemma shifted_prefix p k e : e `prefix_of` p → Content.shifted p k e = e.
Proof.
  revert e. induction p as [|i p IH]; intros e He; [done|].
  destruct e as [|j rest]; [by destruct p|].
  assert (j = i ∧ rest `prefix_of` p) as [-> Hrest].
  { destruct He as [r Hr]. simplify_eq/=. split; [done|]. by exists r. }
  destruct p as [|x p].
  - simpl. by rewrite bool_decide_eq_false_2 by lia.
  - simpl. rewrite bool_decide_eq_true_2 by done. f_equal. by apply IH.
Qed.

(** Every node that is neither the replaced node, nor below it, nor above
    it, is found at its shifted path, as it was. *)
Lemma nodeAt_shifted p new b e :
  is_Some (nodeAt p b) → ¬ e `prefix_of` p → ¬ p `prefix_of` e →
  nodeAt (Content.shifted p (length new) e) (replaceChild p new b) = nodeAt e b.
Proof.
  revert b e. induction p as [|i p IH]; intros b e Hp Hep Hpe.
  { destruct Hpe. apply prefix_nil. }
  destruct b as [s|a cs]; [by destruct Hp|].
  destruct e as [|j rest]; [destruct Hep; apply prefix_nil|].
  simpl in Hp. destruct (cs !! i) as [c|] eqn:Hc; [|by destruct Hp]. simpl in Hp.
  pose proof (lookup_lt_Some _ _ _ Hc) as Hi.
  destruct p as [|x p].
  - assert (j ≠ i) as Hne.
    { intros ->. apply Hpe. by exists rest. }
    simpl. rewrite (bool_decide_eq_true_2 (i < length cs)) by done.
    case_bool_decide as Hlt; simpl.
    + rewrite lookup_app_r by (rewrite length_take; lia).
      rewrite length_take, Nat.min_l by lia.
      rewrite lookup_app_r by lia. rewrite lookup_drop. do 2 f_equal. lia.
    + rewrite lookup_app_l by (rewrite length_take; lia).
      by rewrite lookup_take_lt by lia.
  - change (replaceChild (i :: x :: p) new (Elem a cs))
      with (Elem a (alter (replaceChild (x :: p) new) i cs)).
    change (Content.shifted (i :: x :: p) (length new) (j :: rest))
      with (if bool_decide (i = j)
            then j :: Content.shifted (x :: p) (length new) rest else j :: rest).
    case_bool_decide as Heq; simpl.
    + subst j. rewrite list_lookup_alter_eq, Hc. simpl. apply IH; [done| |].
      * intros [r Hr]. apply Hep. exists r. by rewrite Hr.
      * intros [r Hr]. apply Hpe. exists r. by rewrite Hr.
    + by rewrite list_lookup_alter_ne.
Qed.

(** A node above the replaced one stays where it is; below it the
    replacement has been made. *)
Lemma nodeAt_replaceChild_below e r new b n :
  nodeAt e b = Some n → r ≠ [] →
  nodeAt e (replaceChild (e ++ r) new b) = Some (replaceChild r new n).
Proof.
  revert b. induction e as [|i e IH]; intros b He Hr; [by simplify_eq/=|].
  destruct b as [s|a cs]; [done|]. simpl in He.
  destruct (cs !! i) as [c|] eqn:Hc; [|done]. simpl in He.
  change ((i :: e) ++ r) with (i :: (e ++ r)).
  assert (replaceChild (i :: (e ++ r)) new (Elem a cs)
          = Elem a (alter (replaceChild (e ++ r) new) i cs)) as ->.
  { simpl. destruct (e ++ r) eqn:Her; [|done]. by apply app_eq_nil in Her as [_ ?]. }
  simpl. rewrite list_lookup_alter_eq, Hc. simpl. by apply IH.
Qed.

Lemma replaceChild_element p new a cs :
  ∃ cs', replaceChild p new (Elem a cs) = Elem a cs'.
Proof.
  destruct p as [|i p]; [by eexists|]. simpl.
  destruct p; [case_bool_decide|]; by eexists.
Qed.

(** In [content.js] the path that [checkForLostHighlights] follows leads,
    after every restoration, to an element with the attributes and the
    text content of the element it was called for. *)
Lemma referenceAfter_follows h b e a cs :
  nodeAt e b = Some (Elem a cs) →
  ∃ cs', nodeAt (Content.referenceAfter h b e) (Content.restoreHighlight h b)
         = Some (Elem a cs')
         ∧ textContents cs' = textContents cs.
Proof.
  intros He. unfold Content.referenceAfter, Content.restoreHighlight.
  destruct (_ || _); [by eauto|].
  rewrite stopsAt_exactMatch, locate_exactMatch.
  destruct (Anchored.exactMatch _ _ _) as [p|] eqn:Hex; [|by eauto].
  apply exactMatch_Some in Hex as (text & Hfirst).
  destruct (firstWith_dataAt _ _ _ _ _ Hfirst) as (_ & Hd & Hc).
  rewrite Hd. pose proof (dataAt_nodeAt _ _ _ Hd) as Hp. rewrite Hp. simpl.
  set (new := Content.fragment h text (h_text h)).
  assert (textContents new = text) as Hnew.
  { unfold new. destruct (fragment_first_occurrence h text (h_text h) Hc)
      as (before & after & Heq & _ & ->).
    rewrite !textContents_app, !textContents_textChildren, textContents_singleton.
    unfold Content.highlightSpan. by rewrite textContent_elem, textContents_textChildren. }
  assert (¬ p `prefix_of` e) as Hpe.
  { intros [r ->]. rewrite nodeAt_app, Hp in He. by destruct r. }
  destruct (decide (e `prefix_of` p)) as [[r ->]|Hep].
  - rewrite shifted_prefix by (by exists r).
    assert (r ≠ []) as Hr.
    { intros ->. rewrite app_nil_r in Hp. congruence. }
    rewrite (nodeAt_replaceChild_below e r new b _ He Hr).
    destruct (replaceChild_element r new a cs) as [cs' Hcs']. exists cs'.
    split; [by rewrite Hcs'|].
    assert (textContent (replaceChild r new (Elem a cs)) = textContent (Elem a cs)) as Ht.
    { apply (replaceChild_textContent _ _ _ text); [|done].
      unfold dataAt. rewrite nodeAt_app, He in Hp. simpl in Hp. by rewrite Hp. }
    by rewrite Hcs', !textContent_elem in Ht.
  - rewrite nodeAt_shifted; [by eauto| |done..]. by rewrite Hp.
Qed.

(** In the anchored variant the replacement is one node for one: every
    element of the document is found at its path afterwards. *)
Lemma findAndHighlightText_keeps_paths `{Platform} element h b e a cs :
  nodeAt e b = Some (Elem a cs) →
  ∃ cs', nodeAt e (Anchored.findAndHighlightText element h b) = Some (Elem a cs').
Proof.
  intros He. unfold Anchored.findAndHighlightText.
  destruct (Anchored.exactMatch _ _ _) as [p|] eqn:Hex; [|by eauto].
  destruct (highlightTextNode_cases p h b) as [->|(text & container & Hd & ->)]; [by eauto|].
  pose proof (dataAt_nodeAt _ _ _ Hd) as Hp.
  assert (¬ p `prefix_of` e) as Hpe.
  { intros [r ->]. rewrite nodeAt_app, Hp in He. by destruct r. }
  destruct (decide (e `prefix_of` p)) as [[r ->]|Hep].
  - assert (r ≠ []) as Hr.
    { intros ->. rewrite app_nil_r in Hp. congruence. }
    rewrite (nodeAt_replaceChild_below e r _ b _ He Hr).
    destruct (replaceChild_element r [Elem (plainAttrs "span") container] a cs) as [cs' ->].
    by eauto.
  - rewrite nodeAt_replaceChild_one by done. by eauto.
Qed.
